(** * KoStore: discovery, update resolution and installation core

    A shallow embedding of the decision logic of the KOReader store:

    - [utils/versioning.py]        version parsing and comparison;
    - [services/update_service.py] the three-strategy update resolver;
    - [api/github.py]              repository search, classification, archive
                                   download, patch listing, the structure
                                   check and the README;
    - [workers/download_worker.py] the install worker;
    - [ui/plugin_card.py]          the installer service;
    - [services/device_detection.py] the device detection.

    Conventions of the embedding.

    - A Python [str] is a Rocq [string]: its characters are the code points
      below U+0100.  The class [\d] and [int] read the ASCII digits, the
      only decimal digits among them; [str.isdigit] is true of these and of
      the superscripts U+00B2, U+00B3 and U+00B9.  Case mapping acts on the
      ASCII letters; every other character is read as caseless.
    - A Python [int] is a [Z] (unbounded).  [int] on a string refuses more
      than 4300 digits with [ValueError] ([PyInt.int]); the functions that
      convert version strings come in two forms, the value they return and,
      with the suffix [_checked], the same with that failure.
    - A [dict] with a fixed set of keys is a record; a key that may be absent
      or [None] is an [option] field, read with [dict_get].
    - A call that can raise returns an [outcome]; calls to the outside world
      (HTTP, file system, clock) are read from an environment record and
      recorded in a call log, so that "is never consulted" is a statement
      about the log. *)

From Stdlib Require Import ZArith Lia List Ascii String Bool DecimalString.
From stdpp Require Import base option list gmap strings.

Import ListNotations.
Set Warnings "-register-all,-clear-no-such-hyp".
Local Open Scope string_scope.
Local Open Scope Z_scope.

(** ** Python string primitives *)

Module PyStr.

(** The regular-expression class [\d] and the digits [int] reads: the
    decimal digits, below U+0100 the ASCII ones. *)
Definition isdigit (c : ascii) : bool :=
  let n := nat_of_ascii c in
  (Nat.leb 48 n && Nat.leb n 57)%bool.

(** [c.isdigit()]: the decimal digits and the digits that are not decimal,
    below U+0100 the superscripts two, three and one (U+00B2, U+00B3,
    U+00B9). *)
Definition str_isdigit (c : ascii) : bool :=
  let n := nat_of_ascii c in
  (isdigit c || Nat.eqb n 178 || Nat.eqb n 179 || Nat.eqb n 185)%bool.

(** The value of a digit character, as [int] reads it. *)
Definition digit_value (c : ascii) : Z :=
  Z.of_nat (nat_of_ascii c) - 48.

Definition lower_char (c : ascii) : ascii :=
  let n := nat_of_ascii c in
  if (Nat.leb 65 n && Nat.leb n 90)%bool then ascii_of_nat (n + 32) else c.

(** [s.lower()] *)
Fixpoint lower (s : string) : string :=
  match s with
  | EmptyString => EmptyString
  | String c s' => String (lower_char c) (lower s')
  end.

(** [s.startswith(p)] *)
Fixpoint startswith (p s : string) : bool :=
  match p, s with
  | EmptyString, _ => true
  | String _ _, EmptyString => false
  | String a p', String b s' => if Ascii.eqb a b then startswith p' s' else false
  end.

(** [p in s] for strings: [p] occurs in [s] as a substring. *)
Fixpoint contains (p s : string) : bool :=
  if startswith p s then true
  else match s with
       | EmptyString => false
       | String _ s' => contains p s'
       end.

(** [s.endswith(p)] *)
Fixpoint endswith (p s : string) : bool :=
  if String.eqb p s then true
  else match s with
       | EmptyString => false
       | String _ s' => endswith p s'
       end.

(** [s.lstrip(c)] for a one-character argument: every leading [c] goes. *)
Fixpoint lstrip (c : ascii) (s : string) : string :=
  match s with
  | EmptyString => EmptyString
  | String a s' => if Ascii.eqb a c then lstrip c s' else s
  end.

(** [s[:n]] *)
Fixpoint take_str (n : nat) (s : string) : string :=
  match n, s with
  | O, _ => EmptyString
  | S _, EmptyString => EmptyString
  | S n', String c s' => String c (take_str n' s')
  end.

(** [s[n:]] *)
Fixpoint drop_str (n : nat) (s : string) : string :=
  match n, s with
  | O, _ => s
  | S _, EmptyString => EmptyString
  | S n', String _ s' => drop_str n' s'
  end.

(** [re.findall(r'\d+', s)]: the maximal runs of digits of [s], left to
    right.  [run] is the run being read, last digit first. *)
Fixpoint findall_digits_from (run : list ascii) (s : string) : list string :=
  match s with
  | EmptyString =>
      match run with
      | [] => []
      | _ :: _ => [string_of_list_ascii (rev run)]
      end
  | String c s' =>
      if isdigit c then findall_digits_from (c :: run) s'
      else match run with
           | [] => findall_digits_from [] s'
           | _ :: _ => string_of_list_ascii (rev run) :: findall_digits_from [] s'
           end
  end.

Definition findall_digits (s : string) : list string :=
  findall_digits_from [] s.

(** [int(num)] on a string of digits. *)
Fixpoint int_from (acc : Z) (s : string) : Z :=
  match s with
  | EmptyString => acc
  | String c s' => int_from (10 * acc + digit_value c) s'
  end.

Definition int_of_digits (s : string) : Z := int_from 0 s.

(** [s.split(sep)] for a one-character separator: never empty. *)
Fixpoint split_from (sep : ascii) (cur : list ascii) (s : string) : list string :=
  match s with
  | EmptyString => [string_of_list_ascii (rev cur)]
  | String c s' =>
      if Ascii.eqb c sep then string_of_list_ascii (rev cur) :: split_from sep [] s'
      else split_from sep (c :: cur) s'
  end.

Definition split (sep : ascii) (s : string) : list string :=
  split_from sep [] s.

(** [s.replace(old, new)] for a non-empty [old]: every occurrence, left to
    right, without overlap.  [fuel] bounds the scan by the length of [s]. *)
Fixpoint replace_fuel (fuel : nat) (old new s : string) : string :=
  match fuel with
  | O => s
  | S fuel' =>
      match s with
      | EmptyString => EmptyString
      | String c s' =>
          if startswith old s
          then new ++ replace_fuel fuel' old new (drop_str (String.length old) s)
          else String c (replace_fuel fuel' old new s')
      end
  end.

Definition replace (old new s : string) : string :=
  replace_fuel (String.length s) old new s.

(** Truth value of a string: [if s:]. *)
Definition truthy (s : string) : bool :=
  match s with
  | EmptyString => false
  | String _ _ => true
  end.

End PyStr.

(** ** Exceptions, outcomes and the call log *)

Module Py.

(** A raised exception: its class and [str(e)]. *)
Record exn := Exn { exn_type : string; exn_msg : string }.

Inductive outcome (A : Type) : Type :=
  | Ret (a : A)
  | Raise (e : exn).
Arguments Ret {A} a.
Arguments Raise {A} e.

Definition IndexError : exn := Exn "IndexError" "list index out of range".
Definition TypeError_naive_aware : exn :=
  Exn "TypeError" "can't compare offset-naive and offset-aware datetimes".
Definition KeyError (k : string) : exn := Exn "KeyError" k.

(** [d.get(key, default)] on an optional field. *)
Definition dict_get {A : Type} (field : option A) (default : A) : A :=
  match field with
  | Some v => v
  | None => default
  end.

(** [d[key]] on an optional field. *)
Definition getitem {A : Type} (field : option A) (key : string) : outcome A :=
  match field with
  | Some v => Ret v
  | None => Raise (KeyError key)
  end.

(** [l[-k]] for [k >= 1]: the k-th element from the end. *)
Definition index_from_end {A : Type} (l : list A) (k : nat) : outcome A :=
  if (Nat.leb 1 k && Nat.leb k (List.length l))%bool
  then match nth_error l (List.length l - k) with
       | Some x => Ret x
       | None => Raise IndexError
       end
  else Raise IndexError.

(** Calls to the world outside the core, as the log records them. *)
Inductive call : Type :=
  | CallLatestRelease (owner repo : string)
  | CallCommits (owner repo : string)
  | CallExists (path : string)
  | CallStat (path : string)
  | CallFromIsoFormat (text : string)
  | CallNow
  | CallSearch (query : string)
  | CallReleases (owner repo : string)
  | CallContents (owner repo : string)
  | CallDownload (url : string).

(** A computation: the calls it made, in order, and how it ended. *)
Definition M (A : Type) : Type := list call * outcome A.

Definition ret {A : Type} (a : A) : M A := ([], Ret a).

Definition raise {A : Type} (e : exn) : M A := ([], Raise e).

Definition bind {A B : Type} (m : M A) (k : A -> M B) : M B :=
  match m with
  | (log, Ret a) => let '(log', r) := k a in ((log ++ log')%list, r)
  | (log, Raise e) => (log, Raise e)
  end.

(** [try: m  except Exception as e: h e] *)
Definition try_except {A : Type} (m : M A) (h : exn -> M A) : M A :=
  match m with
  | (log, Raise e) => let '(log', r) := h e in ((log ++ log')%list, r)
  | (log, Ret a) => (log, Ret a)
  end.

(** One call to the world, with the answer the world gave. *)
Definition perform {A : Type} (c : call) (answer : outcome A) : M A :=
  ([c], answer).

Definition lift {A : Type} (r : outcome A) : M A := ([], r).

Definition calls {A : Type} (m : M A) : list call := fst m.
Definition result {A : Type} (m : M A) : outcome A := snd m.

End Py.

Declare Scope py_scope.
Delimit Scope py_scope with py.
Notation "x <- m ;; k" := (Py.bind m (fun x => k))
  (at level 100, m at next level, right associativity) : py_scope.

(** ** Dates and times ([datetime]) *)

Module DateTime.

Import Py.

(** A [datetime]: the reading of the wall clock in microseconds since
    1970-01-01T00:00:00 on that clock, and the offset of the clock from UTC
    when the value is aware ([tzinfo] set), [None] when it is naive. *)
Record datetime := { wall : Z; utcoffset : option Z }.

Definition microsecond : Z := 1.
Definition second : Z := 1000000.
(** [timedelta(days=n)] *)
Definition timedelta_days (n : Z) : Z := n * 86400 * second.

Definition add (d : datetime) (delta : Z) : datetime :=
  {| wall := wall d + delta; utcoffset := utcoffset d |}.

Definition sub (d : datetime) (delta : Z) : datetime :=
  {| wall := wall d - delta; utcoffset := utcoffset d |}.

(** [a > b].  Two naive values compare by their readings, two aware values
    by the instants they denote; a naive value against an aware one raises
    [TypeError]. *)
Definition gt (a b : datetime) : outcome bool :=
  match utcoffset a, utcoffset b with
  | None, None => Ret (wall b <? wall a)
  | Some oa, Some ob => Ret (wall b - ob <? wall a - oa)
  | _, _ => Raise TypeError_naive_aware
  end.

(** The instant a value denotes, in microseconds since the epoch; a naive
    value is a reading of the local clock. *)
Definition utc_instant (local_offset : Z) (d : datetime) : Z :=
  wall d - dict_get (utcoffset d) local_offset.

(** [datetime.fromtimestamp(t)]: naive, on the local clock. *)
Definition fromtimestamp (local_offset : Z) (t : Z) : datetime :=
  {| wall := t + local_offset; utcoffset := None |}.

(** [datetime.now(tz)]: on the clock of [tz], on the local clock when [tz]
    is [None]. *)
Definition now (utc_now local_offset : Z) (tz : option Z) : datetime :=
  match tz with
  | None => {| wall := utc_now + local_offset; utcoffset := None |}
  | Some off => {| wall := utc_now + off; utcoffset := Some off |}
  end.

(** *** The timestamps of the hosting platform

    [fromisoformat_seconds] is [datetime.fromisoformat] on the texts
    YYYY-MM-DDTHH:MM:SS, optionally followed by +HH:MM or -HH:MM; it is used
    to build concrete worlds.  Every other text is refused here. *)

Definition two_digits (a b : ascii) : option Z :=
  if (PyStr.isdigit a && PyStr.isdigit b)%bool
  then Some (10 * PyStr.digit_value a + PyStr.digit_value b)
  else None.

Definition four_digits (a b c d : ascii) : option Z :=
  match two_digits a b, two_digits c d with
  | Some x, Some y => Some (100 * x + y)
  | _, _ => None
  end.

Definition is_leap (y : Z) : bool :=
  ((y mod 4 =? 0) && (negb (y mod 100 =? 0) || (y mod 400 =? 0)))%bool.

Definition days_in_month (y m : Z) : Z :=
  if m =? 2 then (if is_leap y then 29 else 28)
  else if (m =? 4) || (m =? 6) || (m =? 9) || (m =? 11) then 30
  else 31.

(** Days from 1970-01-01 to the given date of the Gregorian calendar. *)
Definition days_from_civil (y m d : Z) : Z :=
  let y' := if m <=? 2 then y - 1 else y in
  let era := y' / 400 in
  let yoe := y' - era * 400 in
  let mp := (m + 9) mod 12 in
  let doy := (153 * mp + 2) / 5 + d - 1 in
  let doe := yoe * 365 + yoe / 4 - yoe / 100 + doy in
  era * 146097 + doe - 719468.

Definition civil_wall (y mo d h mi s : Z) : option Z :=
  if ((1 <=? y) && (1 <=? mo) && (mo <=? 12) && (1 <=? d) && (d <=? days_in_month y mo)
      && (h <? 24) && (mi <? 60) && (s <? 60))%bool
  then Some ((((days_from_civil y mo d * 24 + h) * 60 + mi) * 60 + s) * second)
  else None.

Definition parse_offset (s : string) : option (option Z) :=
  match s with
  | EmptyString => Some None
  | String sg (String h1 (String h2 (String ":" (String m1 (String m2 EmptyString))))) =>
      match two_digits h1 h2, two_digits m1 m2 with
      | Some h, Some m =>
          if ((h <? 24) && (m <? 60))%bool then
            if Ascii.eqb sg "+" then Some (Some ((h * 60 + m) * 60 * second))
            else if Ascii.eqb sg "-" then Some (Some (- ((h * 60 + m) * 60 * second)))
            else None
          else None
      | _, _ => None
      end
  | _ => None
  end.

Definition invalid_isoformat (s : string) : exn :=
  Exn "ValueError" ("Invalid isoformat string: " ++ s).

Definition fromisoformat_seconds (s : string) : outcome datetime :=
  match s with
  | String y1 (String y2 (String y3 (String y4 (String "-"
    (String mo1 (String mo2 (String "-" (String d1 (String d2 (String _
    (String h1 (String h2 (String ":" (String mi1 (String mi2 (String ":"
    (String s1 (String s2 rest)))))))))))))))))) =>
      match four_digits y1 y2 y3 y4, two_digits mo1 mo2, two_digits d1 d2,
            two_digits h1 h2, two_digits mi1 mi2, two_digits s1 s2,
            parse_offset rest with
      | Some y, Some mo, Some d, Some h, Some mi, Some sec, Some off =>
          match civil_wall y mo d h mi sec with
          | Some w => Ret {| wall := w; utcoffset := off |}
          | None => Raise (invalid_isoformat s)
          end
      | _, _, _, _, _, _, _ => Raise (invalid_isoformat s)
      end
  | _ => Raise (invalid_isoformat s)
  end.

End DateTime.

(** ** [int] on a string of digits *)

Module PyInt.

(** [sys.get_int_max_str_digits()], at its default. *)
Definition int_max_str_digits : nat := 4300.

(** [str(n)] of a length. *)
Definition str_of_len (n : nat) : string :=
  DecimalString.NilZero.string_of_uint (Nat.to_uint n).

Definition ValueError_int_limit (digits : nat) : Py.exn :=
  Py.Exn "ValueError"
    ("Exceeds the limit (4300 digits) for integer string conversion: value has "
     ++ str_of_len digits
     ++ " digits; use sys.set_int_max_str_digits() to increase the limit").

(** [int(num)] on a run of decimal digits: every character counts towards
    the limit, leading zeros too. *)
Definition int (num : string) : Py.outcome Z :=
  if Nat.ltb int_max_str_digits (String.length num)
  then Py.Raise (ValueError_int_limit (String.length num))
  else Py.Ret (PyStr.int_of_digits num).

End PyInt.

(** ** utils/versioning.py *)

Module Versioning.

Import PyStr.

(** Python's ordering of tuples of integers, [a > b]. *)
Fixpoint tuple_gt (a b : list Z) : bool :=
  match a, b with
  | x :: a', y :: b' => if Z.eqb x y then tuple_gt a' b' else Z.ltb y x
  | _ :: _, [] => true
  | [], _ => false
  end.

(** [while len(version_tuple) < 3: version_tuple = version_tuple + (0,)] *)
Definition pad3 (t : list Z) : list Z :=
  t ++ repeat 0 (3 - List.length t).

(** The tuple [parse_version] returns, [int] read without its limit; see
    [parse_version_checked] for the call with the failure of [int]. *)
Definition parse_version (version_str : string) : list Z :=
  if negb (truthy version_str) then [0; 0; 0]
  else
    let version_str := lstrip "v" version_str in
    let numbers := findall_digits version_str in
    let version_tuple := List.map int_of_digits numbers in
    let version_tuple := pad3 version_tuple in
    firstn 3 version_tuple.

(** The boolean [is_newer_version] returns, likewise. *)
Definition is_newer_version (current_version new_version : string) : bool :=
  let current := parse_version current_version in
  let new := parse_version new_version in
  tuple_gt new current.

Definition format_version_display (version_str : string) : string :=
  if negb (truthy version_str) then "Unknown"
  else if negb (startswith "v" version_str) then "v" ++ version_str
  else version_str.

(** [tuple(int(num) for num in numbers)]: the conversions in order, up to
    the first that raises. *)
Fixpoint ints (numbers : list string) : Py.outcome (list Z) :=
  match numbers with
  | [] => Py.Ret []
  | num :: numbers' =>
      match PyInt.int num with
      | Py.Raise e => Py.Raise e
      | Py.Ret n =>
          match ints numbers' with
          | Py.Raise e => Py.Raise e
          | Py.Ret t => Py.Ret (n :: t)
          end
      end
  end.

(** [parse_version] with the failure of [int]: every digit run of the
    string is converted, also those after the third. *)
Definition parse_version_checked (version_str : string) : Py.outcome (list Z) :=
  if negb (truthy version_str) then Py.Ret [0; 0; 0]
  else
    let version_str := lstrip "v" version_str in
    let numbers := findall_digits version_str in
    match ints numbers with
    | Py.Raise e => Py.Raise e
    | Py.Ret version_tuple =>
        let version_tuple := pad3 version_tuple in
        Py.Ret (firstn 3 version_tuple)
    end.

(** [is_newer_version] with the failure of [int]: the current version is
    parsed first. *)
Definition is_newer_version_checked (current_version new_version : string)
  : Py.outcome bool :=
  match parse_version_checked current_version with
  | Py.Raise e => Py.Raise e
  | Py.Ret current =>
      match parse_version_checked new_version with
      | Py.Raise e => Py.Raise e
      | Py.Ret new => Py.Ret (tuple_gt new current)
      end
  end.

End Versioning.

(** ** The hosting platform's answers and the world *)

Module GitHub.

Import Py DateTime.

(** One asset of a release. *)
Record asset := {
  asset_name : string;                     (* "name" *)
  browser_download_url : option string     (* "browser_download_url" *)
}.

(** A release, with the keys the core reads. *)
Record release := {
  tag_name : string;
  release_name : string;                   (* "name" *)
  release_published_at : string;           (* "published_at" *)
  body : string;
  html_url : string;
  assets : list asset
}.

(** One commit of the commit listing. *)
Record commit := {
  sha : string;
  committer_date : string                  (* commit.committer.date *)
}.

(** A repository of a search answer.  [repo_type] is absent in the answer
    and assigned by the search. *)
Record repository := {
  id : Z;
  name : string;
  owner_login : string;                    (* owner.login *)
  description : option string;
  topics : list string;
  updated_at : string;
  repo_type : option string
}.

(** One entry of a directory listing. *)
Record content_entry := {
  entry_name : string;                     (* "name" *)
  entry_type : string;                     (* "type": "file" or "dir" *)
  entry_download_url : option string;      (* "download_url" *)
  entry_sha : string                       (* "sha" *)
}.

(** The first asset whose name ends in ".zip". *)
Fixpoint first_zip_asset (l : list asset) : option asset :=
  match l with
  | [] => None
  | a :: l' => if PyStr.endswith ".zip" (asset_name a) then Some a else first_zip_asset l'
  end.

(** A member of an archive: where it goes, and its bytes ([None] for a
    directory). *)
Record zip_member := {
  member_path : list string;
  member_data : option string
}.

(** An entry of the list [get_patch_files] returns. *)
Record patch := {
  patch_name : string;                     (* "name" *)
  patch_download_url : option string;      (* "download_url" *)
  patch_sha : string                       (* "sha" *)
}.

(** The world outside the core: what each request or system call answers.
    An HTTP answer is [Raise] when the transport fails, when
    [raise_for_status] rejects the status, or when the body is not the
    expected JSON. *)
Record World := {
  http_latest_release : string -> string -> outcome release;
  http_commits : string -> string -> outcome (list commit);
  http_search : string -> outcome (list repository);
  http_releases : string -> string -> outcome (list release);
  http_contents : string -> string -> outcome (list content_entry);
  http_download : string -> outcome string;
  http_text : string -> outcome string;    (* [requests.get(url).text], status unchecked *)
  unzip : string -> outcome (list zip_member);
  path_exists : string -> outcome bool;
  st_mtime : string -> outcome Z;          (* microseconds since the epoch *)
  fromisoformat : string -> outcome datetime;
  utc_now : Z;                             (* microseconds since the epoch *)
  local_offset : Z                         (* of the local clock from UTC *)
}.

(** The dictionary [get_repository_commits] returns. *)
Record commits_info := {
  latest_commit : string;
  latest_commit_date : string;
  commit_count : nat
}.


(** *** Classification of search answers *)

(** The rule the debug line of [is_fast_path_valid_plugin] names. *)
Inductive fast_path_rule : Type :=
  | NamePattern
  | TopicTag
  | DescriptionMention.

Definition fast_path_topics : list string :=
  ["koreader-plugin"; "koreader-user-patch"; "koreader"].

(** [any(topic in topics for topic in allowed)] *)
Definition any_topic_in (allowed topics : list string) : bool :=
  existsb (fun topic => existsb (String.eqb topic) topics) allowed.

(** [GitHubAPI.is_fast_path_valid_plugin]: the value returned, and the rule
    named in the debug line logged before returning [True]. *)
Definition is_fast_path_valid_plugin (repo_data : repository) : bool * option fast_path_rule :=
  let name := PyStr.lower (name repo_data) in
  let description := PyStr.lower (dict_get (description repo_data) "") in
  let topics := topics repo_data in
  if (PyStr.endswith ".koplugin" name
      || PyStr.contains "koplugin" name
      || PyStr.endswith ".patch" name
      || PyStr.contains "koreader.patches" (PyStr.lower name)
      || PyStr.contains "koreader" name)%bool
  then (true, Some NamePattern)
  else if any_topic_in fast_path_topics topics
  then (true, Some TopicTag)
  else if PyStr.contains "koreader" description
  then (true, Some DescriptionMention)
  else (false, None).

(** [repo["repo_type"] = t] *)
Definition set_repo_type (r : repository) (t : string) : repository :=
  {| id := id r; name := name r; owner_login := owner_login r;
     description := description r; topics := topics r;
     updated_at := updated_at r; repo_type := Some t |}.

(** The type the lower-cased name gives a repository, [None] when the
    loop moves on without keeping it. *)
Definition classify (name : string) : option string :=
  if (PyStr.contains "koplugin" name
      || PyStr.endswith "plugin" name
      || PyStr.endswith "plugins" name)%bool
  then Some "plugin"
  else if (PyStr.contains "patch" name || PyStr.contains "patches" name)%bool
  then Some "patch"
  else None.

(** The body of the loop over the repositories of one answer.  The state
    is [all_results] and [seen]. *)
Definition visit (st : list repository * gset Z) (repo : repository)
  : list repository * gset Z :=
  let '(all_results, seen) := st in
  if decide (id repo ∈ seen) then (all_results, seen)
  else
    let seen := {[id repo]} ∪ seen in
    let name := PyStr.lower (name repo) in
    match classify name with
    | None => (all_results, seen)
    | Some type =>
        let repo := set_repo_type repo type in
        if (String.eqb (dict_get (repo_type repo) "") "plugin"
            && negb (fst (is_fast_path_valid_plugin repo)))%bool
        then (all_results, seen)
        else ((all_results ++ [repo])%list, seen)
    end.

(** The list [queries] built from the arguments. *)
Definition build_queries (topic : option string) (name_patterns : option (list string))
  : list string :=
  ((match topic with
    | Some t => if PyStr.truthy t then [("topic:" ++ t)%string] else []
    | None => []
    end)
   ++
   (match name_patterns with
    | Some patterns => List.map (fun pattern => (pattern ++ " in:name")%string) patterns
    | None => []
    end))%list.

(** [file["name"].endswith(".lua") and file["name"][0].isdigit()] *)
Definition is_patch_file (file : content_entry) : outcome bool :=
  if PyStr.endswith ".lua" (entry_name file) then
    match entry_name file with
    | EmptyString => Raise IndexError
    | String c _ => Ret (PyStr.str_isdigit c)
    end
  else Ret false.

(** The loop of [get_patch_files]. *)
Fixpoint collect_patches (files : list content_entry) (patches : list patch)
  : outcome (list patch) :=
  match files with
  | [] => Ret patches
  | file :: files' =>
      match is_patch_file file with
      | Raise e => Raise e
      | Ret true =>
          collect_patches files'
            (patches ++ [ {| patch_name := entry_name file;
                             patch_download_url := entry_download_url file;
                             patch_sha := entry_sha file |} ])%list
      | Ret false => collect_patches files' patches
      end
  end.

Definition archive_url (owner repo branch : string) : string :=
  "https://github.com/" ++ owner ++ "/" ++ repo ++ "/archive/refs/heads/" ++ branch ++ ".zip".

Section Api.
Variable w : World.
Local Open Scope py_scope.

(** [GitHubAPI.get_latest_release]: every failure becomes [None]. *)
Definition get_latest_release (owner repo : string) : M (option release) :=
  try_except
    (release_data <- perform (CallLatestRelease owner repo)
                             (http_latest_release w owner repo) ;;
     ret (Some release_data))
    (fun e => ret None).

(** [GitHubAPI.get_repository_commits]: an empty listing and every failure
    become [None]. *)
Definition get_repository_commits (owner repo : string) : M (option commits_info) :=
  try_except
    (commits <- perform (CallCommits owner repo) (http_commits w owner repo) ;;
     match commits with
     | c :: _ =>
         ret (Some {| latest_commit := sha c;
                      latest_commit_date := committer_date c;
                      commit_count := List.length commits |})
     | [] => ret None
     end)
    (fun e => ret None).

(** One query of [search_repositories]: a failed request leaves the state
    as it was. *)
Definition run_query (st : list repository * gset Z) (q : string) : M (list repository * gset Z) :=
  try_except
    (items <- perform (CallSearch q) (http_search w q) ;;
     ret (fold_left visit items st))
    (fun e => ret st).

Fixpoint run_queries (st : list repository * gset Z) (queries : list string)
  : M (list repository * gset Z) :=
  match queries with
  | [] => ret st
  | q :: queries' =>
      st' <- run_query st q ;;
      run_queries st' queries'
  end.

(** [GitHubAPI.search_repositories] *)
Definition search_repositories (topic : option string) (name_patterns : option (list string))
  : M (list repository) :=
  let queries := build_queries topic name_patterns in
  st <- run_queries ([], ∅) queries ;;
  ret (fst st).

(** First attempt of [download_repository_zip]: the first ".zip" asset of
    the first release listed.  [None]: no content, go on. *)
Definition download_release_zip (owner repo : string) : M (option string) :=
  try_except
    (releases <- perform (CallReleases owner repo) (http_releases w owner repo) ;;
     match releases with
     | latest_release :: _ =>
         match first_zip_asset (assets latest_release) with
         | Some asset =>
             zip_url <- lift (getitem (browser_download_url asset) "browser_download_url") ;;
             content <- perform (CallDownload zip_url) (http_download w zip_url) ;;
             ret (Some content)
         | None => ret None
         end
     | [] => ret None
     end)
    (fun e => ret None).

(** Second and third attempt: the source archive of a branch. *)
Definition download_branch_zip (owner repo branch : string) : M (option string) :=
  try_except
    (let url := archive_url owner repo branch in
     content <- perform (CallDownload url) (http_download w url) ;;
     ret (Some content))
    (fun e => ret None).

(** [GitHubAPI.download_repository_zip] *)
Definition download_repository_zip (owner repo branch : string) : M (option string) :=
  r1 <- download_release_zip owner repo ;;
  match r1 with
  | Some content => ret (Some content)
  | None =>
      r2 <- download_branch_zip owner repo branch ;;
      match r2 with
      | Some content => ret (Some content)
      | None =>
          r3 <- download_branch_zip owner repo "master" ;;
          match r3 with
          | Some content => ret (Some content)
          | None => ret None
          end
      end
  end.

(** [GitHubAPI.get_patch_files]: every failure becomes the empty list. *)
Definition get_patch_files (owner repo : string) : M (list patch) :=
  try_except
    (files <- perform (CallContents owner repo) (http_contents w owner repo) ;;
     patches <- lift (collect_patches files []) ;;
     ret patches)
    (fun e => ret []).

End Api.

End GitHub.

(** ** services/update_service.py *)

Module UpdateService.

Import PyStr Py DateTime Versioning GitHub.
Local Open Scope py_scope.

(** The information kept about an installed plugin, as
    [get_installed_plugins] writes it: a key that is present holds a value of
    its type, [None] stands for a key that is absent. *)
Record installed_info := {
  plugin_name : option string;             (* "name" *)
  path : option string;                    (* "path" *)
  version : option string;                 (* "version" *)
  has_meta : option bool                   (* "has_meta" *)
}.

(** The dictionary [_check_plugin_update] returns. *)
Record update_info := {
  has_update : bool;
  latest_version : option string;
  update_type : option string;
  download_url : option string;
  release_notes : option string;
  published_at : option string
}.

(** An entry of the dictionary [check_for_updates] returns. *)
Record update_entry := {
  u_installed_version : string;
  u_latest_version : string;
  u_update_type : string;
  u_download_url : option string;
  u_release_notes : string;
  u_published_at : string
}.

Definition no_update : update_info :=
  {| has_update := false; latest_version := None; update_type := None;
     download_url := None; release_notes := None; published_at := None |}.

(** [Path(p) / "_meta.lua"] *)
Definition meta_file_of (p : string) : string := p ++ "/_meta.lua".

Definition _get_release_download_url (rel : release) : outcome (option string) :=
  match first_zip_asset (assets rel) with
  | Some a => Ret (browser_download_url a)
  | None =>
      match index_from_end (split "/" (html_url rel)) 2 with
      | Raise e => Raise e
      | Ret owner =>
          match index_from_end (split "/" (html_url rel)) 1 with
          | Raise e => Raise e
          | Ret repo =>
              if (truthy owner && truthy repo)%bool
              then Ret (Some ("https://github.com/" ++ owner ++ "/" ++ repo
                              ++ "/archive/" ++ tag_name rel ++ ".zip"))
              else Ret None
          end
      end
  end.

Fixpoint find_by_name (same : string -> bool) (l : list repository) : option repository :=
  match l with
  | [] => None
  | p :: l' => if same (name p) then Some p else find_by_name same l'
  end.

Definition _find_available_plugin (plugin_name : string) (available_plugins : list repository)
  : option repository :=
  match find_by_name (String.eqb plugin_name) available_plugins with
  | Some p => Some p
  | None =>
      let clean_name := replace ".koplugin" "" plugin_name in
      match find_by_name (String.eqb clean_name) available_plugins with
      | Some p => Some p
      | None =>
          find_by_name (fun n => String.eqb (lower n) (lower clean_name)) available_plugins
      end
  end.

(** The dictionary strategy 1 returns for a newer release. *)
Definition release_update (rel : release) (url : option string) : update_info :=
  {| has_update := true;
     latest_version := Some (tag_name rel);
     update_type := Some "release";
     download_url := url;
     release_notes := Some (body rel);
     published_at := Some (release_published_at rel) |}.

(** The dictionary strategy 2 returns for a newer commit. *)
Definition commit_update (commits : commits_info) : update_info :=
  {| has_update := true;
     latest_version := Some (take_str 8 (latest_commit commits));
     update_type := Some "commit";
     download_url := None;
     release_notes := None;
     published_at := Some (latest_commit_date commits) |}.

(** The dictionary strategy 3 returns for a recently updated repository. *)
Definition repository_update (repo_updated : string) : update_info :=
  {| has_update := true;
     latest_version := Some "Recent Update";
     update_type := Some "repository";
     download_url := None;
     release_notes := None;
     published_at := Some repo_updated |}.

Section Resolver.
Variable w : World.

(** Strategy 1: the latest release.  [Some] is the dictionary returned from
    inside the strategy, [None] means control falls to the next one. *)
Definition strategy_release (installed : installed_info) (owner repo : string)
  : M (option update_info) :=
  latest_release <- get_latest_release w owner repo ;;
  match latest_release with
  | Some rel =>
      if truthy (tag_name rel) then
        let installed_version := dict_get (version installed) "" in
        let latest_version := tag_name rel in
        let installed_clean := lstrip "v" installed_version in
        let latest_clean := lstrip "v" latest_version in
        if is_newer_version installed_clean latest_clean then
          url <- lift (_get_release_download_url rel) ;;
          ret (Some (release_update rel url))
        else ret None
      else ret None
  | None => ret None
  end.

(** Strategy 2: the newest commit against the metadata file's
    modification time. *)
Definition strategy_commit (installed : installed_info) (owner repo : string)
  : M (option update_info) :=
  let installed_meta_path := dict_get (path installed) "" in
  if truthy installed_meta_path then
    try_except
      (let meta_file := meta_file_of installed_meta_path in
       present <- perform (CallExists meta_file) (path_exists w meta_file) ;;
       if present : bool then
         mtime <- perform (CallStat meta_file) (st_mtime w meta_file) ;;
         let installed_time := fromtimestamp (local_offset w) mtime in
         commits <- get_repository_commits w owner repo ;;
         match commits with
         | Some commits =>
             let text := replace "Z" "+00:00" (latest_commit_date commits) in
             latest_commit_date' <- perform (CallFromIsoFormat text) (fromisoformat w text) ;;
             newer <- lift (gt latest_commit_date' (add installed_time (timedelta_days 1))) ;;
             if newer : bool then
               ret (Some (commit_update commits))
             else ret None
         | None => ret None
         end
       else ret None)
      (fun e => ret None)
  else ret None.

(** Strategy 3: the repository's own last update. *)
Definition strategy_repository (installed : installed_info) (available_plugin : repository)
  : M (option update_info) :=
  try_except
    (let repo_updated := updated_at available_plugin in
     if truthy repo_updated then
       let text := replace "Z" "+00:00" repo_updated in
       repo_updated_date <- perform (CallFromIsoFormat text) (fromisoformat w text) ;;
       let installed_version := dict_get (version installed) "Unknown" in
       if String.eqb installed_version "Unknown" then
         now_tz <- perform CallNow
                     (Ret (now (utc_now w) (local_offset w) (utcoffset repo_updated_date))) ;;
         recent <- lift (gt repo_updated_date (sub now_tz (timedelta_days 7))) ;;
         if recent : bool then
           ret (Some (repository_update repo_updated))
         else ret None
       else ret None
     else ret None)
    (fun e => ret None).

(** What remains of [_check_plugin_update] once strategy 1 has returned
    nothing: strategy 2, then strategy 3, then "no update". *)
Definition fallback_strategies (installed : installed_info) (available_plugin : repository)
  : M update_info :=
  let owner := owner_login available_plugin in
  let repo := name available_plugin in
  r2 <- strategy_commit installed owner repo ;;
  match r2 with
  | Some info => ret info
  | None =>
      r3 <- strategy_repository installed available_plugin ;;
      match r3 with
      | Some info => ret info
      | None => ret no_update
      end
  end.

Definition _check_plugin_update (installed : installed_info) (available_plugin : repository)
  : M update_info :=
  let owner := owner_login available_plugin in
  let repo := name available_plugin in
  r1 <- strategy_release installed owner repo ;;
  match r1 with
  | Some info => ret info
  | None => fallback_strategies installed available_plugin
  end.

(** The body of the loop of [check_for_updates], for one installed plugin. *)
Definition check_one (available_plugins : list repository)
    (updates : gmap string update_entry)
    (item : string * installed_info) : M (gmap string update_entry) :=
  let '(plugin_name, info) := item in
  match _find_available_plugin plugin_name available_plugins with
  | None => ret updates
  | Some available_plugin =>
      update_info <- _check_plugin_update info available_plugin ;;
      if has_update update_info then
        latest <- lift (getitem (latest_version update_info) "latest_version") ;;
        type <- lift (getitem (update_type update_info) "update_type") ;;
        ret (<[plugin_name :=
                 {| u_installed_version := dict_get (version info) "Unknown";
                    u_latest_version := latest;
                    u_update_type := type;
                    u_download_url := download_url update_info;
                    u_release_notes := dict_get (release_notes update_info) "";
                    u_published_at := dict_get (published_at update_info) "" |}]> updates)
      else ret updates
  end.

Fixpoint check_loop (available_plugins : list repository)
    (items : list (string * installed_info))
    (updates : gmap string update_entry) : M (gmap string update_entry) :=
  match items with
  | [] => ret updates
  | item :: items' =>
      updates' <- check_one available_plugins updates item ;;
      check_loop available_plugins items' updates'
  end.

(** [installed_plugins] is the dictionary's items, in their order. *)
Definition check_for_updates (installed_plugins : list (string * installed_info))
    (available_plugins : list repository) : M (gmap string update_entry) :=
  check_loop available_plugins installed_plugins ∅.

(** *** The same calls with the failure of [int]

    The comparison of the versions is made outside every [try], so the
    [ValueError] of [int] on a digit run of more than 4300 characters leaves
    [_check_plugin_update] and [check_for_updates].  The definitions below
    are the ones above with [is_newer_version_checked] in the place of
    [is_newer_version]. *)

Definition strategy_release_checked (installed : installed_info) (owner repo : string)
  : M (option update_info) :=
  latest_release <- get_latest_release w owner repo ;;
  match latest_release with
  | Some rel =>
      if truthy (tag_name rel) then
        let installed_version := dict_get (version installed) "" in
        let latest_version := tag_name rel in
        let installed_clean := lstrip "v" installed_version in
        let latest_clean := lstrip "v" latest_version in
        newer <- lift (is_newer_version_checked installed_clean latest_clean) ;;
        if newer : bool then
          url <- lift (_get_release_download_url rel) ;;
          ret (Some (release_update rel url))
        else ret None
      else ret None
  | None => ret None
  end.

Definition _check_plugin_update_checked (installed : installed_info)
    (available_plugin : repository) : M update_info :=
  let owner := owner_login available_plugin in
  let repo := name available_plugin in
  r1 <- strategy_release_checked installed owner repo ;;
  match r1 with
  | Some info => ret info
  | None => fallback_strategies installed available_plugin
  end.

Definition check_one_checked (available_plugins : list repository)
    (updates : gmap string update_entry)
    (item : string * installed_info) : M (gmap string update_entry) :=
  let '(plugin_name, info) := item in
  match _find_available_plugin plugin_name available_plugins with
  | None => ret updates
  | Some available_plugin =>
      update_info <- _check_plugin_update_checked info available_plugin ;;
      if has_update update_info then
        latest <- lift (getitem (latest_version update_info) "latest_version") ;;
        type <- lift (getitem (update_type update_info) "update_type") ;;
        ret (<[plugin_name :=
                 {| u_installed_version := dict_get (version info) "Unknown";
                    u_latest_version := latest;
                    u_update_type := type;
                    u_download_url := download_url update_info;
                    u_release_notes := dict_get (release_notes update_info) "";
                    u_published_at := dict_get (published_at update_info) "" |}]> updates)
      else ret updates
  end.

Fixpoint check_loop_checked (available_plugins : list repository)
    (items : list (string * installed_info))
    (updates : gmap string update_entry) : M (gmap string update_entry) :=
  match items with
  | [] => ret updates
  | item :: items' =>
      updates' <- check_one_checked available_plugins updates item ;;
      check_loop_checked available_plugins items' updates'
  end.

Definition check_for_updates_checked (installed_plugins : list (string * installed_info))
    (available_plugins : list repository) : M (gmap string update_entry) :=
  check_loop_checked available_plugins installed_plugins ∅.

End Resolver.

End UpdateService.

(** ** The file system *)

Module FS.

Import Py.

(** A file with its content, or a directory with its entries in listing
    order. *)
Inductive node : Type :=
  | File (content : string)
  | Dir (entries : list (string * node)).

(** A path, component by component, from the root of the tree. *)
Definition path : Type := list string.

Fixpoint join (sep : string) (p : list string) : string :=
  match p with
  | [] => ""
  | [x] => x
  | x :: p' => x ++ sep ++ join sep p'
  end.

Definition os_error (kind text : string) (p : path) : exn :=
  Exn kind (text ++ ": '" ++ join "/" p ++ "'").
Definition FileNotFoundError := os_error "FileNotFoundError" "[Errno 2] No such file or directory".
Definition FileExistsError := os_error "FileExistsError" "[Errno 17] File exists".
Definition NotADirectoryError := os_error "NotADirectoryError" "[Errno 20] Not a directory".
Definition IsADirectoryError := os_error "IsADirectoryError" "[Errno 21] Is a directory".

Fixpoint assoc (name : string) (es : list (string * node)) : option node :=
  match es with
  | [] => None
  | (n, c) :: es' => if String.eqb n name then Some c else assoc name es'
  end.

(** Replace the entry in place, or add it at the end of the listing. *)
Fixpoint set_entry (name : string) (c : node) (es : list (string * node))
  : list (string * node) :=
  match es with
  | [] => [(name, c)]
  | (n, c') :: es' =>
      if String.eqb n name then (n, c) :: es' else (n, c') :: set_entry name c es'
  end.

Fixpoint remove_entry (name : string) (es : list (string * node))
  : list (string * node) :=
  match es with
  | [] => []
  | (n, c) :: es' =>
      if String.eqb n name then es' else (n, c) :: remove_entry name es'
  end.

Fixpoint lookup (p : path) (root : node) : option node :=
  match p with
  | [] => Some root
  | name :: p' =>
      match root with
      | Dir es =>
          match assoc name es with
          | Some c => lookup p' c
          | None => None
          end
      | File _ => None
      end
  end.

(** [p.exists()] *)
Definition exists_ (p : path) (root : node) : bool :=
  match lookup p root with
  | Some _ => true
  | None => false
  end.

(** [p.is_dir()] *)
Definition is_dir (p : path) (root : node) : bool :=
  match lookup p root with
  | Some (Dir _) => true
  | _ => false
  end.

(** [p.name] *)
Definition basename (p : path) : string := List.last p "".

(** Walk to the parent of [p] and let [f] decide what stands at [p]: it
    sees the node there, if any, and answers the node to put ([None]: remove
    it).  With [parents] the missing directories on the way are created. *)
Fixpoint alter_at (parents : bool) (whole : path) (p : path)
    (f : option node -> outcome (option node)) (root : node) : outcome node :=
  match p with
  | [] =>
      match f (Some root) with
      | Ret (Some n) => Ret n
      | Ret None => Raise (Exn "OSError" "cannot remove the root")
      | Raise e => Raise e
      end
  | name :: p' =>
      match root with
      | File _ => Raise (NotADirectoryError whole)
      | Dir es =>
          match p' with
          | [] =>
              match f (assoc name es) with
              | Ret (Some n) => Ret (Dir (set_entry name n es))
              | Ret None => Ret (Dir (remove_entry name es))
              | Raise e => Raise e
              end
          | _ :: _ =>
              match assoc name es with
              | Some c =>
                  match alter_at parents whole p' f c with
                  | Ret c' => Ret (Dir (set_entry name c' es))
                  | Raise e => Raise e
                  end
              | None =>
                  if parents then
                    match alter_at parents whole p' f (Dir []) with
                    | Ret c' => Ret (Dir (set_entry name c' es))
                    | Raise e => Raise e
                    end
                  else Raise (FileNotFoundError whole)
              end
          end
      end
  end.

(** [p.mkdir(exist_ok=True)] *)
Definition mkdir_exist_ok (p : path) (root : node) : outcome node :=
  alter_at false p p
    (fun cur => match cur with
                | None => Ret (Some (Dir []))
                | Some (Dir es) => Ret (Some (Dir es))
                | Some (File _) => Raise (FileExistsError p)
                end) root.

(** [os.makedirs(p, exist_ok=True)] *)
Definition makedirs (p : path) (root : node) : outcome node :=
  alter_at true p p
    (fun cur => match cur with
                | None => Ret (Some (Dir []))
                | Some (Dir es) => Ret (Some (Dir es))
                | Some (File _) => Raise (FileExistsError p)
                end) root.

(** [with open(p, "w") as f: f.write(content)] *)
Definition write_file (p : path) (content : string) (root : node) : outcome node :=
  alter_at false p p
    (fun cur => match cur with
                | Some (Dir _) => Raise (IsADirectoryError p)
                | _ => Ret (Some (File content))
                end) root.

(** [shutil.rmtree(p)] *)
Definition rmtree (p : path) (root : node) : outcome node :=
  alter_at false p p
    (fun cur => match cur with
                | Some (Dir _) => Ret None
                | Some (File _) => Raise (NotADirectoryError p)
                | None => Raise (FileNotFoundError p)
                end) root.

(** [shutil.copytree(src, dst)] *)
Definition copytree (src dst : path) (root : node) : outcome node :=
  match lookup src root with
  | Some (Dir es) =>
      alter_at true dst dst
        (fun cur => match cur with
                    | None => Ret (Some (Dir es))
                    | Some _ => Raise (FileExistsError dst)
                    end) root
  | Some (File _) => Raise (NotADirectoryError src)
  | None => Raise (FileNotFoundError src)
  end.

(** One member of [ZipFile.extractall(dest)]. *)
Definition extract_member (dest : path) (m : GitHub.zip_member) (root : node)
  : outcome node :=
  let target := (dest ++ GitHub.member_path m)%list in
  match GitHub.member_data m with
  | None => makedirs target root
  | Some data =>
      alter_at true target target
        (fun cur => match cur with
                    | Some (Dir _) => Raise (IsADirectoryError target)
                    | _ => Ret (Some (File data))
                    end) root
  end.

Fixpoint extractall (dest : path) (members : list GitHub.zip_member) (root : node)
  : outcome node :=
  match members with
  | [] => Ret root
  | m :: members' =>
      match extract_member dest m root with
      | Ret root' => extractall dest members' root'
      | Raise e => Raise e
      end
  end.

(** [p.glob("*")]: the entries of the directory, in listing order. *)
Definition glob_star (p : path) (root : node) : list (path * node) :=
  match lookup p root with
  | Some (Dir es) => List.map (fun e => ((p ++ [fst e])%list, snd e)) es
  | _ => []
  end.

(** [p.rglob("*" + suffix)] below the node [n] found at [p]: directory by
    directory, parents first, the matching entries of each in listing
    order. *)
Fixpoint rglob_suffix (suffix : string) (p : path) (n : node) : list (path * node) :=
  match n with
  | File _ => []
  | Dir es =>
      (List.map (fun e => ((p ++ [fst e])%list, snd e))
         (List.filter (fun e => PyStr.endswith suffix (fst e)) es)
       ++ List.flat_map (fun e => rglob_suffix suffix (p ++ [fst e])%list (snd e)) es)%list
  end.

End FS.

(** ** workers/download_worker.py *)

Module DownloadWorker.

Import Py GitHub FS.

(** The signals a worker emits. *)
Inductive signal : Type :=
  | Progress (message : string)
  | Finished (success : bool) (message : string).

(** What a run of the worker changes: the file system, the signals emitted
    and the calls made so far. *)
Record wstate := {
  fs : node;
  emitted : list signal;
  log : list call
}.

(** A step of the worker. *)
Definition W (A : Type) : Type := wstate -> wstate * outcome A.

Definition wret {A : Type} (a : A) : W A := fun st => (st, Ret a).

Definition wbind {A B : Type} (m : W A) (k : A -> W B) : W B :=
  fun st =>
    match m st with
    | (st', Ret a) => k a st'
    | (st', Raise e) => (st', Raise e)
    end.

(** [try: m  except Exception as e: h e]; what [m] changed stays. *)
Definition wtry {A : Type} (m : W A) (h : exn -> W A) : W A :=
  fun st =>
    match m st with
    | (st', Raise e) => h e st'
    | (st', Ret a) => (st', Ret a)
    end.

Definition emit (s : signal) : W unit :=
  fun st => ({| fs := fs st; emitted := (emitted st ++ [s])%list; log := log st |}, Ret tt).

(** A computation of the API layer, its calls added to the log. *)
Definition api {A : Type} (m : M A) : W A :=
  fun st => ({| fs := fs st; emitted := emitted st; log := (log st ++ fst m)%list |}, snd m).

(** An operation that changes the file system or raises. *)
Definition fs_op (op : node -> outcome node) : W unit :=
  fun st =>
    match op (fs st) with
    | Ret root' => ({| fs := root'; emitted := emitted st; log := log st |}, Ret tt)
    | Raise e => (st, Raise e)
    end.

Definition fs_read {A : Type} (f : node -> A) : W A :=
  fun st => (st, Ret (f (fs st))).

Declare Scope worker_scope.
Delimit Scope worker_scope with worker.
Notation "x <- m ;; k" := (wbind m (fun x => k))
  (at level 100, m at next level, right associativity) : worker_scope.
Notation "m ;;; k" := (wbind m (fun _ => k))
  (at level 100, right associativity) : worker_scope.

Definition has_entry (name : string) (n : node) : bool :=
  match n with
  | Dir es => match assoc name es with Some _ => true | None => false end
  | File _ => false
  end.

Definition is_dir_node (n : node) : bool :=
  match n with
  | Dir _ => true
  | File _ => false
  end.

(** [main_lua.exists() and meta_lua.exists()] *)
Definition has_main_and_meta (n : node) : bool :=
  (has_entry "main.lua" n && has_entry "_meta.lua" n)%bool.

(** The inner loop: the first ".koplugin" directory below [root_dir] with
    both files. *)
Definition first_koplugin_dir (root_dir : path) (n : node) : option path :=
  match List.find (fun e => (is_dir_node (snd e) && has_main_and_meta (snd e))%bool)
                  (rglob_suffix ".koplugin" root_dir n) with
  | Some e => Some (fst e)
  | None => None
  end.

(** The first loop over [temp_dir.glob("*")]. *)
Fixpoint find_plugin_dir (roots : list (path * node)) : option path :=
  match roots with
  | [] => None
  | (root_dir, n) :: roots' =>
      if negb (is_dir_node n) then find_plugin_dir roots'
      else if has_main_and_meta n then Some root_dir
      else match first_koplugin_dir root_dir n with
           | Some koplugin_dir => Some koplugin_dir
           | None => find_plugin_dir roots'
           end
  end.

(** The second loop: any directory with main.lua. *)
Fixpoint find_main_lua_dir (roots : list (path * node)) : option path :=
  match roots with
  | [] => None
  | (root_dir, n) :: roots' =>
      if negb (is_dir_node n) then find_main_lua_dir roots'
      else if has_entry "main.lua" n then Some root_dir
      else find_main_lua_dir roots'
  end.

Definition locate_plugin (temp_dir : path) (root : node) : option path :=
  match find_plugin_dir (glob_star temp_dir root) with
  | Some d => Some d
  | None => find_main_lua_dir (glob_star temp_dir root)
  end.

(** [str(n)] for [len(patches)]. *)
Definition str_of_nat (n : nat) : string :=
  DecimalString.NilZero.string_of_uint (Nat.to_uint n).

(** The attributes of a worker and the directory the process runs in. *)
Record worker := {
  item_data : repository;
  install_path : path;
  item_type : string;
  is_update : bool;
  cwd : path
}.

Section Run.
Variable w : World.
Variable self : worker.
Local Open Scope worker_scope.

(** The loop over the patches: fetch each and write it under its name. *)
Fixpoint write_patches (patch_dir : path) (patches : list patch) : W unit :=
  match patches with
  | [] => wret tt
  | patch :: patches' =>
      text <- api (match patch_download_url patch with
                   | Some url => perform (CallDownload url) (http_text w url)
                   | None => raise (Exn "MissingSchema"
                                      "Invalid URL 'None': No scheme supplied. Perhaps you meant https://None?")
                   end) ;;
      fs_op (write_file (patch_dir ++ [patch_name patch])%list text) ;;;
      write_patches patch_dir patches'
  end.

Definition install_plugin (repo : string) (zip_content : string) : W unit :=
  let temp_dir := (cwd self ++ ["temp_download"])%list in
  fs_op (mkdir_exist_ok temp_dir) ;;;
  let zip_path := (temp_dir ++ [(repo ++ ".zip")%string])%list in
  fs_op (write_file zip_path zip_content) ;;;
  emit (Progress "Extracting...") ;;;
  members <- api (lift (unzip w zip_content)) ;;
  fs_op (extractall temp_dir members) ;;;
  emit (Progress "Analyzing plugin structure...") ;;;
  plugin_dir <- fs_read (locate_plugin temp_dir) ;;
  match plugin_dir with
  | Some plugin_dir =>
      emit (Progress "Installing...") ;;;
      let plugin_name := basename plugin_dir in
      let plugin_name :=
        if negb (PyStr.endswith ".koplugin" plugin_name)
        then (plugin_name ++ ".koplugin")%string else plugin_name in
      let target := (install_path self ++ ["plugins"; plugin_name])%list in
      present <- fs_read (exists_ target) ;;
      (if present : bool then fs_op (rmtree target) else wret tt) ;;;
      fs_op (copytree plugin_dir target) ;;;
      fs_op (rmtree temp_dir) ;;;
      if is_update self
      then emit (Finished true (repo ++ " updated successfully!"))
      else emit (Finished true (repo ++ " installed successfully!"))
  | None =>
      emit (Finished false "No valid plugin structure found (missing main.lua and _meta.lua)")
  end.

(** [DownloadWorker.run] *)
Definition run : W unit :=
  wtry
    (let owner := owner_login (item_data self) in
     let repo := name (item_data self) in
     if String.eqb (item_type self) "plugin" then
       emit (Progress ("Downloading " ++ repo ++ "...")) ;;;
       zip_content <- api (download_repository_zip w owner repo "main") ;;
       match zip_content with
       | Some (String c rest) => install_plugin repo (String c rest)
       | _ => emit (Finished false "Failed to download repository")
       end
     else if String.eqb (item_type self) "patch" then
       patches <- api (get_patch_files w owner repo) ;;
       match patches with
       | _ :: _ =>
           emit (Progress "Downloading patches...") ;;;
           let patch_dir := (install_path self ++ ["patches"])%list in
           fs_op (mkdir_exist_ok patch_dir) ;;;
           write_patches patch_dir patches ;;;
           emit (Finished true (str_of_nat (List.length patches) ++ " patch(es) installed!"))
       | [] => emit (Finished false "No patches found")
       end
     else wret tt)
    (fun e => emit (Finished false ("Error: " ++ exn_msg e))).

End Run.

End DownloadWorker.

(** ** Concrete worlds *)

Module Scenarios.

Import PyStr Py DateTime GitHub UpdateService.

Definition http_404 : exn := Exn "HTTPError" "404 Client Error: Not Found".
Definition no_such_file : exn :=
  Exn "FileNotFoundError" "[Errno 2] No such file or directory".

(** 2024-01-01, 2024-01-10 and 2024-01-12, midnight UTC. *)
Definition jan_01 : Z := 1704067200 * second.
Definition jan_10 : Z := 1704844800 * second.
Definition jan_12 : Z := 1705017600 * second.

(** A world in which the latest-release and commit requests answer as
    given, every metadata file exists with the given modification time
    (no file exists when it is [None]), nothing else is reachable, and the
    clock reads 2024-01-12T00:00:00Z in a UTC+1 zone. *)
Definition world_of (rel : outcome release) (cms : outcome (list commit))
    (mtime : option Z) : World :=
  {| http_latest_release := fun _ _ => rel;
     http_commits := fun _ _ => cms;
     http_search := fun _ => Raise http_404;
     http_releases := fun _ _ => Raise http_404;
     http_contents := fun _ _ => Raise http_404;
     http_download := fun _ => Raise http_404;
     http_text := fun _ => Raise http_404;
     unzip := fun _ => Raise (Exn "BadZipFile" "File is not a zip file");
     path_exists := fun _ => Ret (match mtime with Some _ => true | None => false end);
     st_mtime := fun _ => match mtime with
                          | Some t => Ret t
                          | None => Raise no_such_file
                          end;
     fromisoformat := fromisoformat_seconds;
     utc_now := jan_12;
     local_offset := 3600 * second |}.

(** The catalog entry of the plugin, last updated 2024-01-10. *)
Definition demo_plugin : repository :=
  {| id := 42; name := "demo.koplugin"; owner_login := "alice";
     description := Some "A KOReader plugin"; topics := ["koreader-plugin"];
     updated_at := "2024-01-10T00:00:00Z"; repo_type := Some "plugin" |}.

Definition installed_with (v : string) : installed_info :=
  {| plugin_name := Some "demo.koplugin";
     path := Some "/mnt/onboard/.adds/koreader/plugins/demo.koplugin";
     version := Some v;
     has_meta := Some true |}.

Definition release_tagged (tag url : string) (l : list asset) : release :=
  {| tag_name := tag; release_name := tag;
     release_published_at := "2024-01-09T12:00:00Z";
     body := "notes"; html_url := url; assets := l |}.

(** The newest commit, made 2024-01-10. *)
Definition commit_jan_10 : commit :=
  {| sha := "0123456789abcdef0123456789abcdef01234567";
     committer_date := "2024-01-10T00:00:00Z" |}.

(** Scenario A of the specification: version "0.9" installed, release
    "v1.0.0" published with an archive attached. *)
Definition release_A : release :=
  release_tagged "v1.0.0" "https://github.com/alice/demo.koplugin/releases/tag/v1.0.0"
    [ {| asset_name := "demo.koplugin.zip";
         browser_download_url :=
           Some "https://github.com/alice/demo.koplugin/releases/download/v1.0.0/demo.koplugin.zip" |} ].

Definition world_A : World :=
  world_of (Ret release_A) (Ret [commit_jan_10]) (Some jan_01).

(** A release whose tag does not exceed the installed version, a commit of
    2024-01-10 and a metadata file written 2024-01-01. *)
Definition release_old : release :=
  release_tagged "v0.0.0" "https://github.com/alice/demo.koplugin/releases/tag/v0.0.0" [].


(** No release; the newest commit is nine days younger than the metadata
    file. *)
Definition world_commit_only : World :=
  world_of (Raise http_404) (Ret [commit_jan_10]) (Some jan_01).

(** A newer release without a ".zip" asset and without a page address. *)
Definition release_bare : release :=
  release_tagged "v2.0.0" ""
    [ {| asset_name := "demo.koplugin.tar.gz";
         browser_download_url := Some "https://example.org/demo.koplugin.tar.gz" |} ].

Definition world_bare_release : World :=
  world_of (Ret release_bare) (Ret [commit_jan_10]) (Some jan_01).

(** Scenario B of the specification: no release, no commit listing, the
    repository updated two days ago. *)
Definition world_B : World :=
  world_of (Raise http_404) (Raise http_404) (Some jan_01).

(** A device with one plugin installed, and the home directory the
    application runs in. *)
Definition device : FS.node :=
  FS.Dir [ ("home", FS.Dir []);
           ("mnt", FS.Dir [ ("koreader",
                FS.Dir [ ("plugins",
                    FS.Dir [ ("demo.koplugin",
                        FS.Dir [ ("main.lua", FS.File "return {}");
                                 ("_meta.lua", FS.File "version = '1.0'") ]) ]) ]) ]) ].

Definition fresh_state : DownloadWorker.wstate :=
  {| DownloadWorker.fs := device; DownloadWorker.emitted := []; DownloadWorker.log := [] |}.

Definition worker_for (type : string) : DownloadWorker.worker :=
  {| DownloadWorker.item_data := demo_plugin;
     DownloadWorker.install_path := ["mnt"; "koreader"];
     DownloadWorker.item_type := type;
     DownloadWorker.is_update := false;
     DownloadWorker.cwd := ["home"] |}.

(** A world in which no release, archive or listing can be fetched. *)
Definition world_offline : World :=
  world_of (Raise http_404) (Raise http_404) None.

(** A patch repository whose ".lua" files do not start with a digit. *)
Definition listing_without_digits : list content_entry :=
  [ {| entry_name := "README.md"; entry_type := "file";
       entry_download_url := Some "https://raw.example.org/README.md"; entry_sha := "a1" |};
    {| entry_name := "fix-margins.lua"; entry_type := "file";
       entry_download_url := Some "https://raw.example.org/fix-margins.lua"; entry_sha := "b2" |};
    {| entry_name := "a2-statusbar.lua"; entry_type := "file";
       entry_download_url := Some "https://raw.example.org/a2-statusbar.lua"; entry_sha := "c3" |} ].

Definition world_patches (files : list content_entry) : World :=
  {| http_latest_release := fun _ _ => Raise http_404;
     http_commits := fun _ _ => Raise http_404;
     http_search := fun _ => Raise http_404;
     http_releases := fun _ _ => Raise http_404;
     http_contents := fun _ _ => Ret files;
     http_download := fun _ => Raise http_404;
     http_text := fun url => Ret ("-- " ++ url);
     unzip := fun _ => Raise (Exn "BadZipFile" "File is not a zip file");
     path_exists := fun _ => Ret false;
     st_mtime := fun _ => Raise no_such_file;
     fromisoformat := fromisoformat_seconds;
     utc_now := jan_12;
     local_offset := 0 |}.

(** Two queries whose answers overlap: repository 7 is returned by both,
    with a different description the second time. *)
Definition reader_first : repository :=
  {| id := 7; name := "Reader.koplugin"; owner_login := "ann";
     description := Some "first answer"; topics := [];
     updated_at := "2024-01-10T00:00:00Z"; repo_type := None |}.

Definition reader_again : repository :=
  {| id := 7; name := "Reader.koplugin"; owner_login := "ann";
     description := Some "second answer"; topics := [];
     updated_at := "2024-01-11T00:00:00Z"; repo_type := None |}.

Definition patches_repo : repository :=
  {| id := 8; name := "koreader-patches"; owner_login := "bob";
     description := None; topics := [];
     updated_at := "2024-01-10T00:00:00Z"; repo_type := None |}.

Definition world_two_queries : World :=
  {| http_latest_release := fun _ _ => Raise http_404;
     http_commits := fun _ _ => Raise http_404;
     http_search := fun q =>
       if String.eqb q "topic:koreader-plugin" then Ret [reader_first; patches_repo]
       else if String.eqb q "koplugin in:name" then Ret [reader_again; patches_repo]
       else Raise http_404;
     http_releases := fun _ _ => Raise http_404;
     http_contents := fun _ _ => Raise http_404;
     http_download := fun _ => Raise http_404;
     http_text := fun _ => Raise http_404;
     unzip := fun _ => Raise (Exn "BadZipFile" "File is not a zip file");
     path_exists := fun _ => Ret false;
     st_mtime := fun _ => Raise no_such_file;
     fromisoformat := fromisoformat_seconds;
     utc_now := jan_12;
     local_offset := 0 |}.

End Scenarios.

(** ** api/github.py: the structure check of a repository *)

Module StructureCheck.

Import Py GitHub.
Local Open Scope py_scope.

(** [[file["name"] for file in files]] *)
Definition file_names (files : list content_entry) : list string :=
  List.map entry_name files.

(** [n in names] *)
Definition among (n : string) (names : list string) : bool :=
  existsb (String.eqb n) names.

(** The address of the listing of a first-level directory. *)
Definition sub_url (owner repo dir : string) : string :=
  "https://api.github.com/repos/" ++ owner ++ "/" ++ repo ++ "/contents/" ++ dir.

Section Check.
Variable w : World.
(** The answer to the request for the listing of a first-level directory;
    the request is recorded in the log as a request for its address. *)
Variable http_subdir : string -> string -> string -> outcome (list content_entry).
Variables owner repo : string.

(** One directory of the first loop: [true] when the function returns
    [True] from inside it; a failed request moves on. *)
Definition subdir_has_plugin (dir : string) : M bool :=
  try_except
    (sub_files <- perform (CallDownload (sub_url owner repo dir))
                          (http_subdir owner repo dir) ;;
     let sub_file_names := file_names sub_files in
     let sub_has_main := among "main.lua" sub_file_names in
     let sub_has_meta := among "_meta.lua" sub_file_names in
     let sub_has_manifest := among "manifest.lua" sub_file_names in
     ret (sub_has_main && (sub_has_meta || sub_has_manifest))%bool)
    (fun e => ret false).

(** One directory of the second loop. *)
Definition subdir_has_meta (dir : string) : M bool :=
  try_except
    (sub_files <- perform (CallDownload (sub_url owner repo dir))
                          (http_subdir owner repo dir) ;;
     let sub_file_names := file_names sub_files in
     ret (among "_meta.lua" sub_file_names || among "manifest.lua" sub_file_names)%bool)
    (fun e => ret false).

(** A loop over the entries that looks into each directory until one
    answers [true]. *)
Fixpoint any_subdir (look : string -> M bool) (files : list content_entry) : M bool :=
  match files with
  | [] => ret false
  | file :: files' =>
      if String.eqb (entry_type file) "dir" then
        found <- look (entry_name file) ;;
        if found : bool then ret true else any_subdir look files'
      else any_subdir look files'
  end.

(** [GitHubAPI.has_required_plugin_files] *)
Definition has_required_plugin_files : M bool :=
  try_except
    (files <- perform (CallContents owner repo) (http_contents w owner repo) ;;
     let names := file_names files in
     let has_main_lua_root := among "main.lua" names in
     let has_meta_lua_root := among "_meta.lua" names in
     let has_manifest_lua_root := among "manifest.lua" names in
     if (has_main_lua_root && (has_meta_lua_root || has_manifest_lua_root))%bool
     then ret true
     else
       found <- any_subdir subdir_has_plugin files ;;
       if found : bool then ret true
       else if has_main_lua_root then
         split <- any_subdir subdir_has_meta files ;;
         if split : bool then ret true else ret false
       else ret false)
    (fun e => ret false).

End Check.

(** [GitHubAPI.is_valid_plugin_repo] *)
Definition is_valid_plugin_repo (owner repo : string) : bool :=
  let name := PyStr.lower repo in
  if existsb (fun keyword => PyStr.contains keyword name) ["koplugin"; "plugin"; "plugins"]
  then true
  else true.

End StructureCheck.

(** ** More Python text primitives *)

Module PyText.

(** [c.isspace()] on an ASCII character: what [str.strip()] removes. *)
Definition isspace (c : ascii) : bool :=
  let n := nat_of_ascii c in
  ((Nat.leb 9 n && Nat.leb n 13) || (Nat.leb 28 n && Nat.leb n 32))%bool.

Fixpoint lstrip_space (s : string) : string :=
  match s with
  | EmptyString => EmptyString
  | String a s' => if isspace a then lstrip_space s' else s
  end.

Fixpoint rstrip_space (s : string) : string :=
  match s with
  | EmptyString => EmptyString
  | String a s' =>
      match rstrip_space s' with
      | EmptyString => if isspace a then EmptyString else String a EmptyString
      | String b r => String a (String b r)
      end
  end.

(** [s.strip()] *)
Definition strip (s : string) : string := rstrip_space (lstrip_space s).

(** The two quote characters, double and single: the class that opens and
    closes the value in the version pattern. *)
Definition is_quote (c : ascii) : bool :=
  (Ascii.eqb c (ascii_of_nat 34) || Ascii.eqb c (ascii_of_nat 39))%bool.

(** The run of characters of [s] up to its first quote, when it has one. *)
Fixpoint up_to_quote (s : string) : option string :=
  match s with
  | EmptyString => None
  | String c s' =>
      if is_quote c then Some EmptyString
      else match up_to_quote s' with
           | Some run => Some (String c run)
           | None => None
           end
  end.

(** The version pattern matched at the start of [s]: the word version,
    spaces, an equals sign, spaces, a quote, the captured group of one or
    more characters that are not quotes, and a quote. Each repetition is
    followed by a character outside its class, so the greedy reading is the
    only one. *)
Definition match_version (s : string) : option string :=
  if PyStr.startswith "version" s then
    match lstrip_space (PyStr.drop_str 7 s) with
    | String eq s1 =>
        if Ascii.eqb eq "="%char then
          match lstrip_space s1 with
          | String q s2 =>
              if is_quote q then
                match up_to_quote s2 with
                | Some (String c run) => Some (String c run)
                | _ => None
                end
              else None
          | EmptyString => None
          end
        else None
    | EmptyString => None
    end
  else None.

(** [re.search] of the version pattern in [s]: group 1 of the leftmost
    match. *)
Fixpoint search_version (s : string) : option string :=
  match match_version s with
  | Some v => Some v
  | None =>
      match s with
      | EmptyString => None
      | String _ s' => search_version s'
      end
  end.

End PyText.

(** ** services/device_detection.py *)

Module DeviceDetection.

Import Py PyText.

(** The machine the application runs on: [platform.system()],
    [os.path.exists], [os.path.join], [os.path.expanduser], [glob.glob],
    and the text read from a file. *)
Record Host := {
  system : string;
  os_exists : string -> bool;
  os_join : string -> string -> string;
  os_expanduser : string -> string;
  glob_glob : string -> list string;
  read_text : string -> outcome string
}.

(** The dictionary [get_device_info] returns; the last two keys are set
    only for a valid installation. *)
Record device_info := {
  info_path : string;
  info_valid : bool;
  info_version : string;
  info_platform : string;
  info_plugins_exist : option bool;
  info_patches_exist : option bool
}.

Definition drives : list string :=
  ["E:"; "F:"; "G:"; "H:"; "I:"; "J:"; "K:"; "L:"; "M:"; "N:"; "O:"; "P:";
   "Q:"; "R:"; "S:"; "T:"; "U:"; "V:"; "W:"; "X:"; "Y:"; "Z:"].

Definition common_paths : list string :=
  [".adds/koreader"; ".adds"; "koreader"; "extensions/koreader";
   "documents/koreader"; ".kobo/koreader"; "applications/koreader"].

Section Detect.
Variable h : Host.

(** [DeviceDetection._has_koreader] *)
Definition _has_koreader (path : string) : bool :=
  os_exists h (os_join h path "koreader.sh").

(** The loop [if os.path.exists(path) and self._has_koreader(path):
    paths.append(path)] over a list of fixed paths. *)
Definition existing_with_koreader (paths : list string) : list string :=
  List.filter (fun path => os_exists h path && _has_koreader path)%bool paths.

Definition windows_paths : list string :=
  (flat_map (fun drive =>
     if os_exists h drive
     then existing_with_koreader (List.map (fun rel_path => os_join h drive rel_path) common_paths)
     else []) drives
   ++ existing_with_koreader
        [os_expanduser h "~/koreader"; "C:/koreader"; "C:/Program Files/koreader";
         "C:/Program Files (x86)/koreader"])%list.

Definition mac_paths : list string :=
  existing_with_koreader
    ["/Volumes/koreader"; "/Volumes/KOReader"; os_expanduser h "~/koreader";
     "/Applications/koreader"].

Definition linux_paths : list string :=
  flat_map (fun path =>
     if PyStr.contains "*" path
     then List.filter _has_koreader (glob_glob h path)
     else existing_with_koreader [path])
    ["/media/*/koreader"; "/mnt/*/koreader"; os_expanduser h "~/koreader"; "/opt/koreader"].

(** [DeviceDetection.get_koreader_paths] *)
Definition get_koreader_paths : list string :=
  if String.eqb (system h) "Windows" then windows_paths
  else if String.eqb (system h) "Darwin" then mac_paths
  else if String.eqb (system h) "Linux" then linux_paths
  else [].

Definition essential_items : list string :=
  ["koreader.sh"; "frontend"; "plugins"; "data"].

(** [DeviceDetection.validate_koreader_installation] *)
Definition validate_koreader_installation (path : string) : bool :=
  if negb (os_exists h path) then false
  else forallb (fun item => os_exists h (os_join h path item)) essential_items.

(** [DeviceDetection.detect_koreader_device] *)
Definition detect_koreader_device : option string :=
  List.find validate_koreader_installation get_koreader_paths.

(** [DeviceDetection.get_device_info] *)
Definition get_device_info (koreader_path : string) : device_info :=
  if validate_koreader_installation koreader_path then
    let version_file := os_join h koreader_path "git-rev" in
    let version :=
      if os_exists h version_file then
        match read_text h version_file with
        | Ret text => strip text
        | Raise _ => "Unknown"
        end
      else "Unknown" in
    {| info_path := koreader_path; info_valid := true; info_version := version;
       info_platform := system h;
       info_plugins_exist := Some (os_exists h (os_join h koreader_path "plugins"));
       info_patches_exist := Some (os_exists h (os_join h koreader_path "patches")) |}
  else
    {| info_path := koreader_path; info_valid := false; info_version := "Unknown";
       info_platform := system h;
       info_plugins_exist := None; info_patches_exist := None |}.

End Detect.

End DeviceDetection.

(** ** ui/plugin_card.py: the installer service *)

Module PluginInstaller.

Import Py PyText GitHub FS DownloadWorker.

(** The dictionary [install_plugin_from_zip] returns. *)
Record install_result := {
  success : bool;
  message : string;
  result_plugin_name : string;             (* "plugin_name" *)
  result_plugin_path : string              (* "plugin_path" *)
}.

(** The dictionary [install_patches] returns. *)
Record patches_result := {
  patches_success : bool;
  patches_message : string;
  installed_patches : list string
}.

(** The dictionary [uninstall_plugin] returns. *)
Record uninstall_result := {
  uninstall_success : bool;
  uninstall_message : string
}.

(** [plugins[key] = value] on a dictionary kept in insertion order. *)
Fixpoint dict_set {A : Type} (key : string) (value : A) (d : list (string * A))
  : list (string * A) :=
  match d with
  | [] => [(key, value)]
  | (k, v) :: d' =>
      if String.eqb k key then (k, value) :: d' else (k, v) :: dict_set key value d'
  end.

(** [name] unless it lacks the suffix, then [f"{name}.koplugin"]. *)
Definition with_koplugin_suffix (plugin_name : string) : string :=
  if negb (PyStr.endswith ".koplugin" plugin_name)
  then (plugin_name ++ ".koplugin")%string else plugin_name.

(** The version the metadata file of a plugin directory gives: the file is
    read when it exists; a directory of that name cannot be opened, and the
    error is logged. *)
Definition read_version (plugin_node : node) : string :=
  match plugin_node with
  | Dir es =>
      match assoc "_meta.lua" es with
      | Some (File content) =>
          match search_version content with
          | Some version => version
          | None => "Unknown"
          end
      | Some (Dir _) => "Unknown"
      | None => "Unknown"
      end
  | File _ => "Unknown"
  end.

Section Installer.
Variable w : World.
(** [requests.get(url, timeout=10)], [raise_for_status()], [response.text] *)
Variable http_checked_text : string -> outcome string.
(** [self.koreader_path] and the directory the process runs in. *)
Variables koreader_path working_dir : path.
(** [str(p)] of a path below [koreader_path]. *)
Variable path_str : path -> string.
Local Open Scope worker_scope.

Definition plugins_path : path := (koreader_path ++ ["plugins"])%list.
Definition patches_path : path := (koreader_path ++ ["patches"])%list.

(** [PluginInstaller.__init__] *)
Definition init : W unit :=
  fs_op (mkdir_exist_ok plugins_path) ;;;
  fs_op (mkdir_exist_ok patches_path).

(** [PluginInstaller._find_plugin_directory] *)
Definition _find_plugin_directory (search_dir : path) (root : node) : option path :=
  match find_plugin_dir (glob_star search_dir root) with
  | Some d => Some d
  | None => find_main_lua_dir (glob_star search_dir root)
  end.

Definition failed (text : string) : install_result :=
  {| success := false; message := text; result_plugin_name := ""; result_plugin_path := "" |}.

(** [PluginInstaller.install_plugin_from_zip] *)
Definition install_plugin_from_zip (zip_content repo_name : string) : W install_result :=
  wtry
    (let temp_dir := (working_dir ++ ["temp_download"])%list in
     fs_op (mkdir_exist_ok temp_dir) ;;;
     let zip_path := (temp_dir ++ [(repo_name ++ ".zip")%string])%list in
     fs_op (write_file zip_path zip_content) ;;;
     members <- api (lift (unzip w zip_content)) ;;
     fs_op (extractall temp_dir members) ;;;
     plugin_dir <- fs_read (_find_plugin_directory temp_dir) ;;
     match plugin_dir with
     | None =>
         wret (failed "No valid plugin structure found (missing main.lua and _meta.lua)")
     | Some plugin_dir =>
         let plugin_name := with_koplugin_suffix (basename plugin_dir) in
         let target_path := (plugins_path ++ [plugin_name])%list in
         present <- fs_read (exists_ target_path) ;;
         (if present : bool then fs_op (rmtree target_path) else wret tt) ;;;
         fs_op (copytree plugin_dir target_path) ;;;
         fs_op (rmtree temp_dir) ;;;
         wret {| success := true;
                 message := (repo_name ++ " installed successfully!")%string;
                 result_plugin_name := plugin_name;
                 result_plugin_path := path_str target_path |}
     end)
    (fun e => wret (failed ("Error: " ++ exn_msg e))).

(** One turn of the loop of [install_patches]: fetch the patch and write
    it under its name. *)
Definition install_one_patch (patch : patch) : W unit :=
  text <- api (match patch_download_url patch with
               | Some url => perform (CallDownload url) (http_checked_text url)
               | None => raise (Exn "MissingSchema"
                                  "Invalid URL 'None': No scheme supplied. Perhaps you meant https://None?")
               end) ;;
  fs_op (write_file (patches_path ++ [patch_name patch])%list text).

(** The loop of [install_patches], with the list [result["installed_patches"]]
    and the counter as they stand when it ends or raises. *)
Fixpoint install_patch_loop (patches : list patch) (installed : list string)
    (installed_count : nat) (st : wstate) : wstate * (list string * nat) * outcome unit :=
  match patches with
  | [] => (st, (installed, installed_count), Ret tt)
  | patch :: patches' =>
      match install_one_patch patch st with
      | (st', Ret _) =>
          install_patch_loop patches' (installed ++ [patch_name patch])%list
            (installed_count + 1) st'
      | (st', Raise e) => (st', (installed, installed_count), Raise e)
      end
  end.

(** [PluginInstaller.install_patches] *)
Definition install_patches (patches : list patch) : W patches_result :=
  fun st =>
    match install_patch_loop patches [] 0 st with
    | (st', (installed, installed_count), Ret _) =>
        (st', Ret {| patches_success := true;
                     patches_message :=
                       (str_of_nat installed_count ++ " patch(es) installed successfully!")%string;
                     installed_patches := installed |})
    | (st', (installed, _), Raise e) =>
        (st', Ret {| patches_success := false;
                     patches_message := ("Error: " ++ exn_msg e)%string;
                     installed_patches := installed |})
    end.

(** [PluginInstaller.uninstall_plugin] *)
Definition uninstall_plugin (plugin_name : string) : W uninstall_result :=
  let plugin_name := with_koplugin_suffix plugin_name in
  wtry
    (let plugin_path := (plugins_path ++ [plugin_name])%list in
     present <- fs_read (exists_ plugin_path) ;;
     if negb present then
       wret {| uninstall_success := false;
               uninstall_message := ("Plugin " ++ plugin_name ++ " is not installed")%string |}
     else
       fs_op (rmtree plugin_path) ;;;
       wret {| uninstall_success := true;
               uninstall_message := (plugin_name ++ " uninstalled successfully!")%string |})
    (fun e => wret {| uninstall_success := false;
                      uninstall_message := ("Error: " ++ exn_msg e)%string |}).

(** The entry [get_installed_plugins] records for a plugin directory. *)
Definition plugin_entry (plugin_dir : path) (plugin_node : node)
  : UpdateService.installed_info :=
  {| UpdateService.plugin_name := Some (basename plugin_dir);
     UpdateService.path := Some (path_str plugin_dir);
     UpdateService.version := Some (read_version plugin_node);
     UpdateService.has_meta := Some (has_entry "_meta.lua" plugin_node) |}.

(** The loop of [get_installed_plugins] over [plugins_path.glob("*.koplugin")]. *)
Fixpoint collect_plugins (found : list (path * node))
    (plugins : list (string * UpdateService.installed_info))
  : list (string * UpdateService.installed_info) :=
  match found with
  | [] => plugins
  | (plugin_dir, plugin_node) :: found' =>
      if is_dir_node plugin_node
      then collect_plugins found'
             (dict_set (basename plugin_dir) (plugin_entry plugin_dir plugin_node) plugins)
      else collect_plugins found' plugins
  end.

(** [PluginInstaller.get_installed_plugins] *)
Definition get_installed_plugins (root : node)
  : list (string * UpdateService.installed_info) :=
  collect_plugins
    (List.filter (fun e => PyStr.endswith ".koplugin" (basename (fst e)))
       (glob_star plugins_path root))
    [].

End Installer.

End PluginInstaller.

(** ** api/github.py: the README of a repository *)

Module Readme.

(** *** [_process_image_paths] *)

(** The text of [s] up to the first [stop] and the text after it, when
    [stop] occurs: a negated character class repeated, then the character it
    excludes. *)
Fixpoint until (stop : ascii) (s : string) : option (string * string) :=
  match s with
  | EmptyString => None
  | String c s' =>
      if Ascii.eqb c stop then Some (EmptyString, s')
      else match until stop s' with
           | Some (run, rest) => Some (String c run, rest)
           | None => None
           end
  end.

(** The image pattern matched at the start of [s]: an exclamation mark, the
    alternative text in square brackets (any characters but the closing
    bracket), and the path in round brackets (one or more characters but the
    closing bracket).  The answer is the two groups and the text after the
    match. *)
Definition match_image (s : string) : option (string * string * string) :=
  match s with
  | String bang (String bracket s1) =>
      if (Ascii.eqb bang "!" && Ascii.eqb bracket "[")%bool then
        match until "]" s1 with
        | Some (alt_text, String paren s2) =>
            if Ascii.eqb paren "(" then
              match until ")" s2 with
              | Some (String c image_path, rest) => Some (alt_text, String c image_path, rest)
              | _ => None
              end
            else None
        | _ => None
        end
      else None
  | _ => None
  end.

(** [replace_image]: the text that replaces a match. *)
Definition replace_image (owner repo alt_text image_path : string) : string :=
  if (PyStr.startswith "http://" image_path || PyStr.startswith "https://" image_path)%bool
  then "![" ++ alt_text ++ "](" ++ image_path ++ ")"
  else
    let github_base_url := "https://raw.githubusercontent.com/" ++ owner ++ "/" ++ repo ++ "/main/" in
    let absolute_url := github_base_url ++ PyStr.lstrip "/" image_path in
    "![" ++ alt_text ++ "](" ++ absolute_url ++ ")".

(** [re.sub(image_pattern, replace_image, s)]: the matches are taken from
    left to right and do not overlap.  [skip] counts the characters of the
    current match that are still to be passed over. *)
Fixpoint sub_images (owner repo : string) (skip : nat) (s : string) : string :=
  match s with
  | EmptyString => EmptyString
  | String c s' =>
      match skip with
      | S skip' => sub_images owner repo skip' s'
      | O =>
          match match_image s with
          | Some (alt_text, image_path, rest) =>
              replace_image owner repo alt_text image_path
              ++ sub_images owner repo (String.length s' - String.length rest) s'
          | None => String c (sub_images owner repo 0 s')
          end
      end
  end.

(** [GitHubAPI._process_image_paths] *)
Definition _process_image_paths (content owner repo : string) : string :=
  sub_images owner repo 0 content.

(** *** [get_repository_readme] *)

(** How a request fails: [requests.exceptions.HTTPError] with the status
    code of the response, another [requests.exceptions.RequestException],
    or any other exception. *)
Inductive failure : Type :=
  | HTTPError (status_code : Z)
  | RequestException (text : string)
  | OtherException (text : string).

Inductive answer (A : Type) : Type :=
  | Ok (a : A)
  | Failed (f : failure).
Arguments Ok {A} a.
Arguments Failed {A} f.

(** The two keys read from the JSON object of a file. *)
Record readme_data := {
  readme_download_url : option string;     (* "download_url" *)
  readme_content : option string           (* "content" *)
}.

Definition readme_names : list string :=
  ["README.md"; "README"; "readme.md"; "readme"; "README.rst"; "README.txt"].

(** [str(n)] *)
Definition str_of_int (n : Z) : string :=
  DecimalString.NilZero.string_of_int (Z.to_int n).

(** How a turn of the loop ends: the function returns, or the next name is
    tried. *)
Inductive turn : Type :=
  | Return (text : string)
  | Continue.

Section Fetch.
(** [requests.get(url, headers=...)], [raise_for_status()], [json()], and
    the reading of the keys; an answer that is not an object fails as
    another exception. *)
Variable get_json : string -> answer readme_data.
(** [requests.get(url)], [raise_for_status()], [text] *)
Variable get_text : string -> answer string.
(** [base64.b64decode(content).decode('utf-8')], [None] when it raises. *)
Variable b64decode_utf8 : string -> option string.
Variables owner repo : string.

Definition contents_url (readme_name : string) : string :=
  "https://api.github.com/repos/" ++ owner ++ "/" ++ repo ++ "/contents/" ++ readme_name.

Definition readme_url : string :=
  "https://api.github.com/repos/" ++ owner ++ "/" ++ repo ++ "/readme".

(** The handlers of the loop. *)
Definition loop_handler (f : failure) : turn :=
  match f with
  | HTTPError status_code =>
      if Z.eqb status_code 404 then Continue
      else Return ("README not available (HTTP " ++ str_of_int status_code ++ ")")
  | RequestException _ => Return "README not available (network error)"
  | OtherException _ => Continue
  end.

(** One turn of the loop: the requests made and how the turn ends. *)
Definition try_name (readme_name : string) : list string * turn :=
  let url := contents_url readme_name in
  match get_json url with
  | Failed f => ([url], loop_handler f)
  | Ok data =>
      if PyStr.truthy (Py.dict_get (readme_download_url data) "") then
        let content_url := Py.dict_get (readme_download_url data) "" in
        match get_text content_url with
        | Ok content => ([url; content_url], Return (_process_image_paths content owner repo))
        | Failed f => ([url; content_url], loop_handler f)
        end
      else if PyStr.truthy (Py.dict_get (readme_content data) "") then
        match b64decode_utf8 (Py.dict_get (readme_content data) "") with
        | Some decoded_content =>
            ([url], Return (_process_image_paths decoded_content owner repo))
        | None => ([url], Continue)
        end
      else ([url], Continue)
  end.

(** The last resort: the README endpoint of the API. *)
Definition try_endpoint : list string * string :=
  let not_found := "No README file found in this repository" in
  let handler (f : failure) : string :=
    match f with
    | HTTPError status_code =>
        if Z.eqb status_code 404 then not_found
        else "README not available (HTTP " ++ str_of_int status_code ++ ")"
    | _ => not_found
    end in
  match get_json readme_url with
  | Failed f => ([readme_url], handler f)
  | Ok data =>
      if PyStr.truthy (Py.dict_get (readme_download_url data) "") then
        let content_url := Py.dict_get (readme_download_url data) "" in
        match get_text content_url with
        | Ok content => ([readme_url; content_url], _process_image_paths content owner repo)
        | Failed f => ([readme_url; content_url], handler f)
        end
      else ([readme_url], not_found)
  end.

Fixpoint readme_loop (names : list string) : list string * string :=
  match names with
  | [] => try_endpoint
  | readme_name :: names' =>
      match try_name readme_name with
      | (requests, Return text) => (requests, text)
      | (requests, Continue) =>
          let '(requests', text) := readme_loop names' in
          ((requests ++ requests')%list, text)
      end
  end.

(** [GitHubAPI.get_repository_readme]: the addresses requested, in order,
    and the text returned. *)
Definition get_repository_readme : list string * string :=
  readme_loop readme_names.

End Fetch.

End Readme.

(** * Properties *)

(** ** String primitives *)

Section PyStrFacts.
Import PyStr.

Lemma isdigit_value_nonneg (c : ascii) :
  isdigit c = true -> 0 <= digit_value c <= 9.
Proof.
  unfold isdigit, digit_value. intros H.
  apply andb_true_iff in H as [H1 H2].
  apply Nat.leb_le in H1, H2. lia.
Qed.

Definition all_digits (s : string) : Prop :=
  Forall (fun c => isdigit c = true) (list_ascii_of_string s).

Lemma all_digits_of_list (l : list ascii) :
  Forall (fun c => isdigit c = true) l ->
  all_digits (string_of_list_ascii l).
Proof.
  unfold all_digits. now rewrite list_ascii_of_string_of_list_ascii.
Qed.

Lemma findall_digits_from_all_digits (s : string) :
  forall run, Forall (fun c => isdigit c = true) run ->
  Forall all_digits (findall_digits_from run s).
Proof.
  induction s as [|c s IH]; intros run Hrun; simpl.
  - destruct run; constructor; [|constructor].
    apply all_digits_of_list, Forall_rev. exact Hrun.
  - destruct (isdigit c) eqn:Hc.
    + apply IH. constructor; assumption.
    + destruct run.
      * apply IH. constructor.
      * constructor; [|apply IH; constructor].
        apply all_digits_of_list, Forall_rev. exact Hrun.
Qed.

Lemma int_from_nonneg (s : string) :
  forall acc, 0 <= acc -> all_digits s -> 0 <= int_from acc s.
Proof.
  unfold all_digits.
  induction s as [|c s IH]; intros acc Hacc Hs; simpl in *.
  - exact Hacc.
  - inversion Hs as [|? ? Hc Hs']; subst.
    apply IH; [|exact Hs'].
    pose proof (isdigit_value_nonneg c Hc). lia.
Qed.

Lemma int_of_digits_nonneg (s : string) :
  all_digits s -> 0 <= int_of_digits s.
Proof. apply int_from_nonneg. lia. Qed.

(** A string without digits has no digit run. *)
Lemma findall_digits_no_digit (s : string) :
  Forall (fun c => isdigit c = false) (list_ascii_of_string s) ->
  findall_digits s = [].
Proof.
  unfold findall_digits.
  induction s as [|c s IH]; intros H; simpl in *.
  - reflexivity.
  - inversion H as [|? ? Hc Hs]; subst. rewrite Hc. apply IH, Hs.
Qed.

Lemma append_cons (a : ascii) (p s : string) :
  String a p ++ s = String a (p ++ s).
Proof. reflexivity. Qed.

Lemma append_nil_l (s : string) : "" ++ s = s.
Proof. reflexivity. Qed.

Lemma lstrip_suffix (c : ascii) (s : string) :
  exists p, s = p ++ lstrip c s.
Proof.
  induction s as [|a s [p IH]]; simpl.
  - exists "". reflexivity.
  - destruct (Ascii.eqb a c).
    + exists (String a p). rewrite append_cons. congruence.
    + exists "". reflexivity.
Qed.

Lemma list_ascii_app (p s : string) :
  list_ascii_of_string (p ++ s) = (list_ascii_of_string p ++ list_ascii_of_string s)%list.
Proof.
  induction p as [|a p IH]; [reflexivity|].
  rewrite append_cons. simpl. now f_equal.
Qed.

Lemma lstrip_no_digit (c : ascii) (s : string) :
  Forall (fun c => isdigit c = false) (list_ascii_of_string s) ->
  Forall (fun c => isdigit c = false) (list_ascii_of_string (lstrip c s)).
Proof.
  destruct (lstrip_suffix c s) as [p Hp]. intros H.
  rewrite Hp, list_ascii_app in H.
  apply Forall_app in H. apply H.
Qed.

End PyStrFacts.

(** ** Version parsing and comparison *)

Section VersioningFacts.
Import PyStr Versioning.

Lemma pad3_length (t : list Z) : (3 <= List.length (pad3 t))%nat.
Proof. unfold pad3. rewrite length_app, repeat_length. lia. Qed.

Lemma pad3_nonneg (t : list Z) :
  Forall (fun x => 0 <= x) t -> Forall (fun x => 0 <= x) (pad3 t).
Proof.
  intros H. unfold pad3. apply Forall_app. split; [exact H|].
  apply List.Forall_forall. intros x Hx. apply repeat_spec in Hx. lia.
Qed.

Lemma parse_version_length (s : string) : List.length (parse_version s) = 3%nat.
Proof.
  unfold parse_version. destruct (negb (truthy s)); [reflexivity|].
  rewrite length_firstn. pose proof (pad3_length (List.map int_of_digits (findall_digits (lstrip "v" s)))).
  lia.
Qed.

Lemma parse_version_nonneg (s : string) :
  Forall (fun x => 0 <= x) (parse_version s).
Proof.
  unfold parse_version. destruct (negb (truthy s)).
  - repeat constructor; lia.
  - apply Forall_take, pad3_nonneg.
    apply List.Forall_map.
    eapply List.Forall_impl;
      [|apply (findall_digits_from_all_digits (lstrip "v" s) []); constructor].
    intros r Hr. apply int_of_digits_nonneg, Hr.
Qed.

Lemma parse_version_triple (s : string) :
  exists a b c, parse_version s = [a; b; c] /\ 0 <= a /\ 0 <= b /\ 0 <= c.
Proof.
  pose proof (parse_version_length s) as Hl.
  pose proof (parse_version_nonneg s) as Hn.
  destruct (parse_version s) as [|a [|b [|c [|d t]]]]; simpl in Hl; try discriminate.
  exists a, b, c. split; [reflexivity|].
  inversion Hn as [|? ? Ha Hn1]; subst.
  inversion Hn1 as [|? ? Hb Hn2]; subst.
  inversion Hn2 as [|? ? Hc _]; subst.
  auto.
Qed.









Lemma parse_version_no_digit (s : string) :
  Forall (fun c => isdigit c = false) (list_ascii_of_string s) ->
  parse_version s = [0; 0; 0].
Proof.
  intros H. unfold parse_version. destruct (negb (truthy s)); [reflexivity|].
  rewrite (findall_digits_no_digit (lstrip "v" s)); [reflexivity|].
  apply lstrip_no_digit, H.
Qed.

Lemma parse_version_padded (s : string) :
  let nums := List.map int_of_digits (findall_digits (lstrip "v" s)) in
  (List.length nums < 3)%nat ->
  parse_version s = (nums ++ repeat 0 (3 - List.length nums))%list.
Proof.
  intros nums Hlt. unfold parse_version.
  destruct s as [|c s]; simpl negb; cbv iota.
  - reflexivity.
  - fold nums. unfold pad3.
    destruct nums as [|x [|y [|z t]]]; simpl in *; try reflexivity; lia.
Qed.

(** The tuple [parse_version] returns has exactly three non-negative
    integers; the empty string and every string without a digit give
    (0, 0, 0); fewer than three digit runs are padded with zeros. *)
Lemma parse_version_value :
  (forall s : string,
      exists a b c, parse_version s = [a; b; c] /\ 0 <= a /\ 0 <= b /\ 0 <= c)
  /\ parse_version "" = [0; 0; 0]
  /\ (forall s : string,
        Forall (fun c => isdigit c = false) (list_ascii_of_string s) ->
        parse_version s = [0; 0; 0])
  /\ (forall s : string,
        let nums := List.map int_of_digits (findall_digits (lstrip "v" s)) in
        (List.length nums < 3)%nat ->
        parse_version s = (nums ++ repeat 0 (3 - List.length nums))%list).
Proof.
  split; [exact parse_version_triple|].
  split; [reflexivity|].
  split; [exact parse_version_no_digit | exact parse_version_padded].
Qed.


(** *** Parsing with the limit of [int] *)

(** The digit run is longer than [int] accepts. *)
Definition too_long (num : string) : bool :=
  Nat.ltb PyInt.int_max_str_digits (String.length num).

(** [int] refuses one of the digit runs of the version string. *)
Definition int_refuses (s : string) : bool :=
  existsb too_long (findall_digits (lstrip "v" s)).

(** The exception of the first digit run that [int] refuses. *)
Definition refusal (s : string) : option Py.exn :=
  match List.find too_long (findall_digits (lstrip "v" s)) with
  | Some num => Some (PyInt.ValueError_int_limit (String.length num))
  | None => None
  end.

(** A string of [n] nines. *)
Definition nines (n : nat) : string := string_of_list_ascii (repeat "9"%char n).

Lemma ints_spec (numbers : list string) :
  ints numbers =
    match List.find too_long numbers with
    | Some num => Py.Raise (PyInt.ValueError_int_limit (String.length num))
    | None => Py.Ret (List.map int_of_digits numbers)
    end.
Proof.
  induction numbers as [|num numbers IH]; [reflexivity|].
  cbn [ints List.find List.map]. unfold PyInt.int. fold (too_long num).
  destruct (too_long num); [reflexivity|]. rewrite IH.
  destruct (List.find too_long numbers); reflexivity.
Qed.

Lemma parse_version_checked_spec (s : string) :
  parse_version_checked s =
    match refusal s with
    | Some e => Py.Raise e
    | None => Py.Ret (parse_version s)
    end.
Proof.
  unfold parse_version_checked, parse_version, refusal.
  destruct s as [|c s]; [reflexivity|]. cbn [truthy negb].
  rewrite ints_spec. destruct (List.find too_long _); reflexivity.
Qed.

Lemma refusal_int_refuses (s : string) :
  (refusal s = None <-> int_refuses s = false)
  /\ (forall e, refusal s = Some e ->
        exists n, (PyInt.int_max_str_digits < n)%nat /\ e = PyInt.ValueError_int_limit n).
Proof.
  unfold refusal, int_refuses.
  induction (findall_digits (lstrip "v" s)) as [|num l [IH1 IH2]]; simpl.
  - split; [tauto | discriminate].
  - destruct (too_long num) eqn:Hnum; simpl.
    + split; [split; discriminate|]. intros e [= <-]. exists (String.length num).
      split; [|reflexivity]. unfold too_long in Hnum. now apply Nat.ltb_lt in Hnum.
    + split; assumption.
Qed.

Lemma is_newer_version_checked_spec (a b : string) :
  is_newer_version_checked a b =
    match refusal a with
    | Some e => Py.Raise e
    | None =>
        match refusal b with
        | Some e => Py.Raise e
        | None => Py.Ret (is_newer_version a b)
        end
    end.
Proof.
  unfold is_newer_version_checked. rewrite !parse_version_checked_spec.
  destruct (refusal a); [reflexivity|]. destruct (refusal b); reflexivity.
Qed.

Lemma findall_digits_from_length (s : string) :
  forall run,
    Forall (fun num => (String.length num <= List.length run + String.length s)%nat)
      (findall_digits_from run s).
Proof.
  assert (Hlen : forall l : list ascii,
             String.length (string_of_list_ascii (rev l)) = List.length l).
  { intros l. rewrite <- (length_rev l). induction (rev l) as [|c r IH]; simpl; auto. }
  induction s as [|c s IH]; intros run; simpl.
  - destruct run as [|d run]; constructor; [|constructor].
    rewrite Hlen. simpl. lia.
  - destruct (isdigit c).
    + eapply List.Forall_impl; [|apply (IH (c :: run))]. simpl. intros num H. lia.
    + destruct run as [|d run].
      * eapply List.Forall_impl; [|apply (IH [])]. simpl. intros num H. lia.
      * constructor; [rewrite Hlen; simpl; lia|].
        eapply List.Forall_impl; [|apply (IH [])]. simpl. intros num H. lia.
Qed.

Lemma lstrip_length (c : ascii) (s : string) :
  (String.length (lstrip c s) <= String.length s)%nat.
Proof.
  induction s as [|a s IH]; simpl; [lia|].
  destruct (Ascii.eqb a c); simpl; lia.
Qed.

Lemma short_string_accepted (s : string) :
  (String.length s <= PyInt.int_max_str_digits)%nat -> int_refuses s = false.
Proof.
  intros Hs. unfold int_refuses.
  pose proof (findall_digits_from_length (lstrip "v" s) []) as Hruns.
  pose proof (lstrip_length "v" s) as Hstrip.
  fold (findall_digits (lstrip "v" s)) in Hruns.
  induction Hruns as [|num l Hnum _ IH]; [reflexivity|].
  simpl. rewrite IH, orb_false_r. unfold too_long. apply Nat.ltb_ge.
  simpl in Hnum. lia.
Qed.

(** C5. [parse_version] returns exactly three non-negative integers for
    every string none of whose digit runs is longer than the 4300 digits
    [int] accepts, and so for every string of at most 4300 characters; the
    empty string and every string without a digit give (0, 0, 0); fewer than
    three digit runs are padded with zeros.  It raises exactly when a digit
    run is longer, wherever the run stands, and what it raises is the
    [ValueError] of [int]. *)
Theorem parse_version_total_up_to_int_limit :
  (forall s : string,
      int_refuses s = false ->
      exists a b c,
        parse_version_checked s = Py.Ret [a; b; c] /\ 0 <= a /\ 0 <= b /\ 0 <= c)
  /\ (forall s : string,
        (String.length s <= 4300)%nat -> int_refuses s = false)
  /\ parse_version_checked "" = Py.Ret [0; 0; 0]
  /\ (forall s : string,
        Forall (fun c => isdigit c = false) (list_ascii_of_string s) ->
        parse_version_checked s = Py.Ret [0; 0; 0])
  /\ (forall s : string,
        let nums := List.map int_of_digits (findall_digits (lstrip "v" s)) in
        int_refuses s = false ->
        (List.length nums < 3)%nat ->
        parse_version_checked s
        = Py.Ret (nums ++ repeat 0 (3 - List.length nums))%list)
  /\ (forall s : string,
        (exists e, parse_version_checked s = Py.Raise e)
        <-> exists num,
              In num (findall_digits (lstrip "v" s))
              /\ (4300 < String.length num)%nat)
  /\ (forall (s : string) (e : Py.exn),
        parse_version_checked s = Py.Raise e ->
        exists n, (4300 < n)%nat /\ e = PyInt.ValueError_int_limit n).
Proof.
  assert (Hok : forall s, int_refuses s = false ->
                          parse_version_checked s = Py.Ret (parse_version s)).
  { intros s Hs. rewrite parse_version_checked_spec.
    apply (proj1 (refusal_int_refuses s)) in Hs. now rewrite Hs. }
  split; [|split; [|split; [|split; [|split; [|split]]]]].
  - intros s Hs. rewrite (Hok s Hs).
    destruct (parse_version_triple s) as (a & b & c & -> & Hrest). exists a, b, c. auto.
  - exact short_string_accepted.
  - reflexivity.
  - intros s Hs. rewrite Hok.
    + now rewrite parse_version_no_digit.
    + unfold int_refuses. rewrite (findall_digits_no_digit (lstrip "v" s)); [reflexivity|].
      apply lstrip_no_digit, Hs.
  - intros s nums Hs Hlt. rewrite (Hok s Hs). f_equal. now apply parse_version_padded.
  - intros s. rewrite parse_version_checked_spec.
    destruct (refusal_int_refuses s) as [Hnone Hsome].
    assert (Hex : int_refuses s = true <->
                  exists num, In num (findall_digits (lstrip "v" s))
                              /\ (4300 < String.length num)%nat).
    { unfold int_refuses. rewrite existsb_exists. unfold too_long.
      split; intros (num & Hin & Hlen); exists num; split; auto;
        apply Nat.ltb_lt; exact Hlen. }
    rewrite <- Hex. destruct (refusal s) as [e|].
    + split; [|eauto]. intros _. destruct (int_refuses s); [reflexivity|].
      pose proof (proj2 Hnone eq_refl) as E. discriminate.
    + split; [intros [e H]; discriminate|]. intros E.
      rewrite (proj1 Hnone eq_refl) in E. discriminate.
  - intros s e. rewrite parse_version_checked_spec.
    destruct (refusal s) as [e'|] eqn:E; [|discriminate].
    intros [= <-]. exact (proj2 (refusal_int_refuses s) e' E).
Qed.

(** Parsing at a tag without digits and at a two-part version. *)
Lemma parse_version_witness :
  parse_version_checked "nightly" = Py.Ret [0; 0; 0]
  /\ parse_version_checked "v1.2" = Py.Ret [1; 2; 0].
Proof.
  destruct parse_version_total_up_to_int_limit as (_ & _ & _ & Hnone & Hpad & _). split.
  - apply Hnone. repeat constructor.
  - apply (Hpad "v1.2"); [reflexivity | vm_compute; lia].
Defined.

(** A run of 4301 digits is refused, as a version of its own and as the
    fourth segment of a version whose first three segments are short: the
    call raises instead of returning a tuple. *)
Theorem parse_version_raises_on_long_digit_run :
  parse_version_checked (nines 4301) = Py.Raise (PyInt.ValueError_int_limit 4301)
  /\ parse_version_checked ("1.2.3." ++ nines 4301)
     = Py.Raise (PyInt.ValueError_int_limit 4301)
  /\ PyInt.ValueError_int_limit 4301
     = Py.Exn "ValueError"
         "Exceeds the limit (4300 digits) for integer string conversion: value has 4301 digits; use sys.set_int_max_str_digits() to increase the limit"
  /\ exists a, parse_version_checked (nines 4300) = Py.Ret [a; 0; 0].
Proof.
  split; [|split; [|split]].
  - vm_compute. reflexivity.
  - vm_compute. reflexivity.
  - vm_compute. reflexivity.
  - eexists. vm_compute. reflexivity.
Qed.

End VersioningFacts.

(** ** The update resolver *)

Section UpdateFacts.
Import PyStr Py DateTime Versioning GitHub UpdateService Scenarios.

Lemma get_latest_release_spec (w : World) (owner repo : string) :
  get_latest_release w owner repo =
    ([CallLatestRelease owner repo],
     match http_latest_release w owner repo with
     | Ret rel => Ret (Some rel)
     | Raise _ => Ret None
     end).
Proof.
  unfold get_latest_release, try_except, bind, perform, ret.
  destruct (http_latest_release w owner repo); reflexivity.
Qed.

(** Strategy 1 makes one call and returns a dictionary only for a release
    with a non-empty tag that is newer than the installed version. *)
Lemma strategy_release_spec (w : World) (inst : installed_info) (owner repo : string) :
  strategy_release w inst owner repo =
    ([CallLatestRelease owner repo],
     match http_latest_release w owner repo with
     | Ret rel =>
         if (truthy (tag_name rel)
             && is_newer_version (lstrip "v" (dict_get (version inst) ""))
                                 (lstrip "v" (tag_name rel)))%bool
         then match _get_release_download_url rel with
              | Ret url => Ret (Some (release_update rel url))
              | Raise e => Raise e
              end
         else Ret None
     | Raise _ => Ret None
     end).
Proof.
  unfold strategy_release. rewrite get_latest_release_spec.
  destruct (http_latest_release w owner repo) as [rel|e]; simpl; [|reflexivity].
  destruct (truthy (tag_name rel)); simpl; [|reflexivity].
  destruct (is_newer_version _ _); simpl; [|reflexivity].
  destruct (_get_release_download_url rel); reflexivity.
Qed.

(** Case analysis on every answer of the world a computation reads. *)
Ltac world_cases :=
  repeat (simpl in *;
          match goal with
          | |- context [match ?x with _ => _ end] =>
              lazymatch x with
              | context [match _ with _ => _ end] => fail
              | _ => destruct x eqn:?
              end
          end);
  simpl in *.

(** A naive or aware value against the naive installation time. *)
Lemma gt_fromtimestamp (d : datetime) (off t delta : Z) :
  gt d (add (fromtimestamp off t) delta) = Ret true <->
  utcoffset d = None /\ t + off + delta < wall d.
Proof.
  unfold gt, add, fromtimestamp. simpl.
  destruct (utcoffset d) as [o|]; split.
  - discriminate.
  - intros [H _]. discriminate.
  - intros H. injection H as H. apply Z.ltb_lt in H. auto.
  - intros [_ H]. f_equal. apply Z.ltb_lt. exact H.
Qed.

Lemma gt_aware_naive (d : datetime) (off t delta : Z) (o : Z) :
  utcoffset d = Some o ->
  gt d (add (fromtimestamp off t) delta) = Raise TypeError_naive_aware.
Proof. intros H. unfold gt, add, fromtimestamp. simpl. now rewrite H. Qed.

(** Strategy 2 never raises: whatever fails inside it is swallowed. *)
Lemma strategy_commit_swallows (w : World) (inst : installed_info) (owner repo : string) :
  exists r, result (strategy_commit w inst owner repo) = Ret r.
Proof.
  unfold strategy_commit, get_repository_commits, try_except, bind, perform, lift, ret, result.
  world_cases; eauto.
Qed.

(** Strategy 2 returns a dictionary exactly when the metadata file exists,
    its modification time and the commit listing can be read, the date of
    the newest commit parses to a naive value, and that value is later than
    the local modification time by more than one day. *)
Lemma strategy_commit_Some (w : World) (inst : installed_info) (owner repo : string)
    (info : update_info) :
  result (strategy_commit w inst owner repo) = Ret (Some info) <->
  exists p mtime c cs d,
    path inst = Some p /\ truthy p = true /\
    path_exists w (meta_file_of p) = Ret true /\
    st_mtime w (meta_file_of p) = Ret mtime /\
    http_commits w owner repo = Ret (c :: cs) /\
    fromisoformat w (replace "Z" "+00:00" (committer_date c)) = Ret d /\
    gt d (add (fromtimestamp (local_offset w) mtime) (timedelta_days 1)) = Ret true /\
    info = commit_update {| latest_commit := sha c;
                            latest_commit_date := committer_date c;
                            commit_count := List.length (c :: cs) |}.
Proof.
  split.
  - unfold strategy_commit, get_repository_commits, try_except, bind, perform, lift, ret, result.
    destruct (path inst) as [p|] eqn:Hp; simpl; [|discriminate].
    destruct (truthy p) eqn:Ht; [|discriminate].
    destruct (path_exists w (meta_file_of p)) as [[|]|] eqn:He; simpl; try discriminate.
    destruct (st_mtime w (meta_file_of p)) as [mtime|] eqn:Hm; simpl; try discriminate.
    destruct (http_commits w owner repo) as [[|c cs]|] eqn:Hc; simpl; try discriminate.
    destruct (fromisoformat w _) as [d|] eqn:Hd; simpl; try discriminate.
    destruct (gt d _) as [[|]|] eqn:Hg; simpl; try discriminate.
    intros H. injection H as <-.
    exists p, mtime, c, cs, d. repeat split; assumption.
  - intros (p & mtime & c & cs & d & Hp & Ht & He & Hm & Hc & Hd & Hg & ->).
    unfold strategy_commit, get_repository_commits, try_except, bind, perform, lift, ret, result.
    rewrite Hp. simpl. rewrite Ht, He. simpl. rewrite Hm. simpl. rewrite Hc. simpl.
    rewrite Hd. simpl. rewrite Hg. reflexivity.
Qed.

(** With a date that parses to an aware value, the comparison of strategy 2
    raises, the handler swallows it, and the strategy returns nothing. *)
Lemma strategy_commit_aware (w : World) (inst : installed_info) (owner repo : string) :
  (forall text d, fromisoformat w text = Ret d -> utcoffset d <> None) ->
  result (strategy_commit w inst owner repo) = Ret None.
Proof.
  intros Haware.
  destruct (strategy_commit_swallows w inst owner repo) as [[info|] Hr]; [|exact Hr].
  apply strategy_commit_Some in Hr
    as (p & mtime & c & cs & d & _ & _ & _ & _ & _ & Hd & Hg & _).
  apply gt_fromtimestamp in Hg as [Hnaive _].
  now apply Haware in Hd.
Qed.

(** Strategy 3 never raises. *)
Lemma strategy_repository_swallows (w : World) (inst : installed_info) (plug : repository) :
  exists r, result (strategy_repository w inst plug) = Ret r.
Proof.
  unfold strategy_repository, try_except, bind, perform, lift, ret, result.
  world_cases; eauto.
Qed.

(** Comparing a value with the clock of its own zone, seven days back. *)
Lemma gt_now (d : datetime) (utc local delta : Z) :
  gt d (sub (now utc local (utcoffset d)) delta) = Ret (utc - delta <? utc_instant local d).
Proof.
  unfold gt, sub, now, utc_instant. destruct d as [wd [o|]]; simpl; f_equal.
  - apply eq_iff_eq_true. rewrite !Z.ltb_lt. lia.
  - apply eq_iff_eq_true. rewrite !Z.ltb_lt. lia.
Qed.

(** Strategy 3 returns a dictionary exactly when the candidate has a
    last-update text that parses, the installed version is absent or
    "Unknown", and the repository was updated less than seven days ago. *)
Lemma strategy_repository_Some (w : World) (inst : installed_info) (plug : repository)
    (info : update_info) :
  result (strategy_repository w inst plug) = Ret (Some info) <->
  exists d,
    truthy (updated_at plug) = true /\
    fromisoformat w (replace "Z" "+00:00" (updated_at plug)) = Ret d /\
    dict_get (version inst) "Unknown" = "Unknown" /\
    utc_now w - timedelta_days 7 < utc_instant (local_offset w) d /\
    info = repository_update (updated_at plug).
Proof.
  unfold strategy_repository, try_except, bind, perform, lift, ret, result.
  destruct (truthy (updated_at plug)) eqn:Ht; simpl.
  2:{ split; [discriminate | intros (d & H & _); discriminate]. }
  destruct (fromisoformat w _) as [d|e] eqn:Hd; simpl.
  2:{ split; [discriminate | intros (d & _ & H & _); discriminate]. }
  destruct (String.eqb_spec (dict_get (version inst) "Unknown") "Unknown") as [Hv|Hv]; simpl.
  2:{ split; [discriminate | intros (d' & _ & _ & H & _); contradiction]. }
  rewrite gt_now. simpl.
  destruct (Z.ltb_spec (utc_now w - timedelta_days 7) (utc_instant (local_offset w) d)) as [Hlt|Hge];
    simpl.
  - split.
    + intros H. injection H as <-. exists d. auto.
    + intros (d' & _ & _ & _ & _ & ->). reflexivity.
  - split; [discriminate|].
    intros (d' & _ & Hd' & _ & Hlt & _). injection Hd' as <-. lia.
Qed.

Lemma result_bind {A B : Type} (m : M A) (k : A -> M B) :
  result (bind m k) =
    match result m with
    | Ret a => result (k a)
    | Raise e => Raise e
    end.
Proof.
  unfold result, bind. destruct m as [log [a|e]]; simpl; [|reflexivity].
  destruct (k a); reflexivity.
Qed.

Lemma calls_bind {A B : Type} (m : M A) (k : A -> M B) :
  calls (bind m k) =
    match result m with
    | Ret a => (calls m ++ calls (k a))%list
    | Raise e => calls m
    end.
Proof.
  unfold calls, result, bind. destruct m as [log [a|e]]; simpl; [|reflexivity].
  destruct (k a); reflexivity.
Qed.

(** The result of the two lower strategies, by the results of each. *)
Lemma fallback_strategies_result (w : World) (inst : installed_info) (plug : repository) :
  result (fallback_strategies w inst plug) =
    match result (strategy_commit w inst (owner_login plug) (name plug)) with
    | Ret (Some info) => Ret info
    | Ret None =>
        match result (strategy_repository w inst plug) with
        | Ret (Some info) => Ret info
        | Ret None => Ret no_update
        | Raise e => Raise e
        end
    | Raise e => Raise e
    end.
Proof.
  unfold fallback_strategies. rewrite result_bind.
  destruct (result (strategy_commit _ _ _ _)) as [[info|]|e]; try reflexivity.
  rewrite result_bind.
  destruct (result (strategy_repository _ _ _)) as [[info|]|e]; reflexivity.
Qed.




(** C2, at an input the code receives from the platform.  The newest commit
    (2024-01-10T00:00:00Z) is nine days later than the modification time of
    the metadata file (2024-01-01), far beyond the one-day grace window, yet
    no "commit" update is declared: the parsed commit date is aware, the
    installation time is naive, their comparison raises [TypeError], the
    handler swallows it, and the resolver ends with "no update". *)
Theorem commit_strategy_misses_platform_timestamps :
  st_mtime world_commit_only "/mnt/onboard/.adds/koreader/plugins/demo.koplugin/_meta.lua"
    = Ret jan_01
  /\ fromisoformat world_commit_only (replace "Z" "+00:00" (committer_date commit_jan_10))
    = Ret {| wall := jan_10; utcoffset := Some 0 |}
  /\ jan_01 + timedelta_days 1 < jan_10
  /\ gt {| wall := jan_10; utcoffset := Some 0 |}
        (add (fromtimestamp (local_offset world_commit_only) jan_01) (timedelta_days 1))
     = Raise TypeError_naive_aware
  /\ result (strategy_commit world_commit_only (installed_with "1.0") "alice" "demo.koplugin")
     = Ret None
  /\ _check_plugin_update world_commit_only (installed_with "1.0") demo_plugin =
       ([ CallLatestRelease "alice" "demo.koplugin";
          CallExists "/mnt/onboard/.adds/koreader/plugins/demo.koplugin/_meta.lua";
          CallStat "/mnt/onboard/.adds/koreader/plugins/demo.koplugin/_meta.lua";
          CallCommits "alice" "demo.koplugin";
          CallFromIsoFormat "2024-01-10T00:00:00+00:00";
          CallFromIsoFormat "2024-01-10T00:00:00+00:00" ],
        Ret no_update).
Proof.
  repeat split; vm_compute; reflexivity.
Qed.

(** A page address without a "/" makes [_get_release_download_url] raise
    when no asset ends in ".zip". *)
Lemma release_download_url_raises (rel : release) :
  first_zip_asset (assets rel) = None ->
  html_url rel = "" ->
  _get_release_download_url rel = Raise IndexError.
Proof.
  intros Hz Hu. unfold _get_release_download_url. rewrite Hz, Hu. reflexivity.
Qed.

(** C3, at the input the claim names.  The latest release is newer than the
    installed version, none of its assets ends in ".zip" and its [html_url]
    is empty: [_get_release_download_url] raises [IndexError], nothing
    between it and the caller of [check_for_updates] catches it, and the
    update check ends with the exception instead of a result. *)
Theorem check_for_updates_raises :
  first_zip_asset (assets release_bare) = None
  /\ html_url release_bare = ""
  /\ _get_release_download_url release_bare = Raise IndexError
  /\ result (_check_plugin_update world_bare_release (installed_with "1.0") demo_plugin)
     = Raise IndexError
  /\ check_for_updates world_bare_release
       [("demo.koplugin", installed_with "1.0")] [demo_plugin]
     = ([CallLatestRelease "alice" "demo.koplugin"], Raise IndexError).
Proof.
  repeat split; vm_compute; reflexivity.
Qed.

Lemma update_type_release (rel : release) (url : option string) :
  update_type (release_update rel url) <> Some "repository".
Proof. discriminate. Qed.

(** Whatever [_check_plugin_update] returns with type "repository" was
    built by strategy 3. *)
Lemma repository_update_only_from_strategy_3 (w : World) (inst : installed_info)
    (plug : repository) (info : update_info) :
  result (_check_plugin_update w inst plug) = Ret info ->
  update_type info = Some "repository" ->
  result (strategy_repository w inst plug) = Ret (Some info).
Proof.
  intros Hres Hty. unfold _check_plugin_update in Hres.
  rewrite result_bind, strategy_release_spec in Hres. unfold result at 1 in Hres. simpl in Hres.
  assert (Hfall : result (fallback_strategies w inst plug) = Ret info ->
                  result (strategy_repository w inst plug) = Ret (Some info)).
  { rewrite fallback_strategies_result.
    destruct (result (strategy_commit _ _ _ _)) as [[info2|]|e] eqn:H2; try discriminate.
    - intros H. injection H as ->.
      apply strategy_commit_Some in H2 as (p & mt & c & cs & d & _ & _ & _ & _ & _ & _ & _ & ->).
      discriminate.
    - destruct (result (strategy_repository _ _ _)) as [[info3|]|e]; try discriminate.
      + intros H. injection H as ->. reflexivity.
      + intros H. injection H as <-. discriminate. }
  destruct (http_latest_release w _ _) as [rel|e]; [|exact (Hfall Hres)].
  destruct (truthy (tag_name rel) && _)%bool; [|exact (Hfall Hres)].
  destruct (_get_release_download_url rel) as [url|e]; [|discriminate].
  simpl in Hres. injection Hres as <-. discriminate.
Qed.

(** C8.  An update of type "repository" is declared only when the installed
    version is absent or literally "Unknown" and the candidate was updated
    less than seven days before the present instant; it carries the fixed
    label "Recent Update".  In scenario B (version "Unknown", no release, no
    commit listing, repository updated two days ago) that update is
    declared. *)
Theorem repository_recency_fallback :
  (forall (w : World) (inst : installed_info) (plug : repository) (info : update_info),
      result (_check_plugin_update w inst plug) = Ret info ->
      update_type info = Some "repository" ->
      dict_get (version inst) "Unknown" = "Unknown"
      /\ has_update info = true
      /\ latest_version info = Some "Recent Update"
      /\ exists d,
           fromisoformat w (replace "Z" "+00:00" (updated_at plug)) = Ret d
           /\ utc_now w - timedelta_days 7 < utc_instant (local_offset w) d)
  /\ utc_instant (local_offset world_B) {| wall := jan_10; utcoffset := Some 0 |}
       = utc_now world_B - timedelta_days 2
  /\ result (_check_plugin_update world_B (installed_with "Unknown") demo_plugin)
       = Ret {| has_update := true;
                latest_version := Some "Recent Update";
                update_type := Some "repository";
                download_url := None;
                release_notes := None;
                published_at := Some "2024-01-10T00:00:00Z" |}.
Proof.
  split; [|split; vm_compute; reflexivity].
  intros w inst plug info Hres Hty.
  apply repository_update_only_from_strategy_3 in Hres; [|exact Hty].
  apply strategy_repository_Some in Hres as (d & _ & Hd & Hv & Hlt & ->).
  repeat split; eauto.
Qed.

(** The theorem at scenario B. *)
Lemma repository_recency_fallback_witness :
  dict_get (version (installed_with "Unknown")) "Unknown" = "Unknown"
  /\ exists d,
       fromisoformat world_B (replace "Z" "+00:00" (updated_at demo_plugin)) = Ret d
       /\ utc_now world_B - timedelta_days 7 < utc_instant (local_offset world_B) d.
Proof.
  destruct repository_recency_fallback as (Honly & _ & Hscenario).
  destruct (Honly world_B (installed_with "Unknown") demo_plugin _ Hscenario eq_refl)
    as (Hversion & _ & _ & Hrecent).
  split; [exact Hversion | exact Hrecent].
Defined.

End UpdateFacts.

(** ** Search, classification and the catalog *)

Section SearchFacts.
Import PyStr Py GitHub.

(** *** What the string tests mean *)

Lemma startswith_spec (p s : string) :
  startswith p s = true <-> exists b, s = p ++ b.
Proof.
  revert s. induction p as [|a p IH]; intros s; simpl.
  - split; [intros _; exists s; reflexivity | reflexivity].
  - destruct s as [|c s].
    + split; [discriminate | intros [b Hb]; discriminate].
    + destruct (Ascii.eqb_spec a c) as [->|Hne].
      * rewrite IH. split; intros [b Hb]; exists b.
        -- rewrite append_cons. now f_equal.
        -- rewrite append_cons in Hb. now injection Hb.
      * split; [discriminate|]. intros [b Hb]. rewrite append_cons in Hb.
        injection Hb as Hc _. congruence.
Qed.

Lemma contains_spec (p s : string) :
  contains p s = true <-> exists a b, s = a ++ p ++ b.
Proof.
  induction s as [|c s IH]; simpl.
  - destruct (startswith p "") eqn:Hs.
    + apply startswith_spec in Hs as [b Hb].
      split; [intros _; exists "", b; exact Hb | reflexivity].
    + split; [discriminate|]. intros (a & b & H).
      destruct a as [|x a]; [|discriminate].
      rewrite append_nil_l in H.
      assert (startswith p "" = true) by (apply startswith_spec; eauto). congruence.
  - destruct (startswith p (String c s)) eqn:Hs.
    + apply startswith_spec in Hs as [b Hb].
      split; [intros _; exists "", b; exact Hb | reflexivity].
    + rewrite IH. split.
      * intros (a & b & ->). exists (String c a), b. reflexivity.
      * intros (a & b & H). destruct a as [|x a].
        -- rewrite append_nil_l in H.
           assert (startswith p (String c s) = true) by (apply startswith_spec; eauto).
           congruence.
        -- rewrite append_cons in H. injection H as _ ->. eauto.
Qed.

Lemma endswith_spec (p s : string) :
  endswith p s = true <-> exists a, s = a ++ p.
Proof.
  induction s as [|c s IH]; simpl.
  - destruct (String.eqb_spec p "") as [->|Hne].
    + split; [intros _; exists ""; reflexivity | reflexivity].
    + split; [discriminate|]. intros [a H].
      destruct a as [|x a]; [|discriminate]. rewrite append_nil_l in H. congruence.
  - destruct (String.eqb_spec p (String c s)) as [->|Hne].
    + split; [intros _; exists ""; reflexivity | reflexivity].
    + rewrite IH. split.
      * intros [a ->]. exists (String c a). reflexivity.
      * intros [a H]. destruct a as [|x a].
        -- rewrite append_nil_l in H. congruence.
        -- rewrite append_cons in H. injection H as _ ->. eauto.
Qed.

Lemma append_assoc (a b c : string) : (a ++ b) ++ c = a ++ b ++ c.
Proof.
  induction a as [|x a IH]; [reflexivity|].
  rewrite !append_cons. now f_equal.
Qed.

(** A name that contains "koreader.patches" contains "koreader". *)
Lemma contains_prefix (p q s : string) :
  contains (p ++ q) s = true -> contains p s = true.
Proof.
  rewrite !contains_spec. intros (a & b & ->).
  exists a, (q ++ b). now rewrite append_assoc.
Qed.

Lemma lower_idempotent (s : string) : lower (lower s) = lower s.
Proof.
  induction s as [|c s IH]; simpl; [reflexivity|]. f_equal; [|exact IH].
  destruct c as [[] [] [] [] [] [] [] []]; reflexivity.
Qed.

(** *** The cheap acceptance filter *)

(** Rule 1: the lower-cased name ends with ".koplugin", contains "koplugin",
    ends with ".patch" or contains "koreader". *)
Definition name_rule (r : repository) : Prop :=
  endswith ".koplugin" (lower (name r)) = true
  \/ contains "koplugin" (lower (name r)) = true
  \/ endswith ".patch" (lower (name r)) = true
  \/ contains "koreader" (lower (name r)) = true.

(** Rule 2: a topic of the repository is in the allow-set. *)
Definition topic_rule (r : repository) : Prop :=
  exists t, In t fast_path_topics /\ In t (topics r).

(** Rule 3: the lower-cased description contains "koreader". *)
Definition description_rule (r : repository) : Prop :=
  exists d, description r = Some d /\ contains "koreader" (lower d) = true.

Lemma name_rule_bool (r : repository) :
  (endswith ".koplugin" (lower (name r))
   || contains "koplugin" (lower (name r))
   || endswith ".patch" (lower (name r))
   || contains "koreader.patches" (lower (lower (name r)))
   || contains "koreader" (lower (name r)))%bool = true <-> name_rule r.
Proof.
  unfold name_rule. rewrite lower_idempotent, !orb_true_iff. split.
  - intros [[[[H|H]|H]|H]|H]; auto.
    right; right; right. exact (contains_prefix "koreader" ".patches" _ H).
  - intros [H|[H|[H|H]]]; auto.
Qed.

Lemma any_topic_in_spec (allowed topics : list string) :
  any_topic_in allowed topics = true <-> exists t, In t allowed /\ In t topics.
Proof.
  unfold any_topic_in. rewrite existsb_exists. split.
  - intros (t & Ht & Hex). apply existsb_exists in Hex as (t' & Ht' & Heq).
    apply String.eqb_eq in Heq as ->. eauto.
  - intros (t & Ht & Ht'). exists t. split; [exact Ht|].
    apply existsb_exists. exists t. split; [exact Ht' | apply String.eqb_refl].
Qed.

Lemma description_rule_bool (r : repository) :
  contains "koreader" (lower (dict_get (description r) "")) = true <-> description_rule r.
Proof.
  unfold description_rule, dict_get. destruct (description r) as [d|].
  - split; [eauto|]. intros (d' & Hd & H). now injection Hd as ->.
  - split; [discriminate|]. intros (d' & Hd & _). discriminate.
Qed.

(** The verdict and the logged rule, by the three rules in their order. *)
Lemma is_fast_path_valid_plugin_cases (r : repository) :
  (name_rule r /\ is_fast_path_valid_plugin r = (true, Some NamePattern))
  \/ (~ name_rule r /\ topic_rule r
      /\ is_fast_path_valid_plugin r = (true, Some TopicTag))
  \/ (~ name_rule r /\ ~ topic_rule r /\ description_rule r
      /\ is_fast_path_valid_plugin r = (true, Some DescriptionMention))
  \/ (~ name_rule r /\ ~ topic_rule r /\ ~ description_rule r
      /\ is_fast_path_valid_plugin r = (false, None)).
Proof.
  unfold is_fast_path_valid_plugin.
  pose proof (name_rule_bool r) as Hn.
  pose proof (any_topic_in_spec fast_path_topics (topics r)) as Ht.
  pose proof (description_rule_bool r) as Hd.
  fold (topic_rule r) in Ht.
  destruct (_ || _ || _ || _ || _)%bool.
  - left. split; [apply Hn|]; reflexivity.
  - assert (~ name_rule r) by (intros H; apply Hn in H; discriminate).
    destruct (any_topic_in _ _).
    + right; left. repeat split; [assumption | apply Ht; reflexivity].
    + assert (~ topic_rule r) by (intros H'; apply Ht in H'; discriminate).
      destruct (contains "koreader" _).
      * right; right; left. repeat split; [assumption.. | apply Hd; reflexivity].
      * right; right; right. repeat split; try assumption.
        intros H'; apply Hd in H'; discriminate.
Qed.

(** The filter does not read [repo_type]. *)
Lemma is_fast_path_valid_plugin_retyped (r : repository) (t : string) :
  is_fast_path_valid_plugin (set_repo_type r t) = is_fast_path_valid_plugin r.
Proof. reflexivity. Qed.

(** *** The catalog as a function of the answers *)

(** The repositories a query answers with; none when the request fails. *)
Definition answer (w : World) (q : string) : list repository :=
  match http_search w q with
  | Ret items => items
  | Raise _ => []
  end.

(** All answers, in the order of the queries. *)
Definition stream (w : World) (queries : list string) : list repository :=
  flat_map (answer w) queries.

(** The repositories whose id occurs neither in [seen] nor earlier in the
    list. *)
Fixpoint first_seen (seen : gset Z) (l : list repository) : list repository :=
  match l with
  | [] => []
  | r :: l' =>
      if decide (id r ∈ seen) then first_seen seen l'
      else r :: first_seen ({[id r]} ∪ seen) l'
  end.

(** What the loop keeps of a repository it sees for the first time. *)
Definition keep (r : repository) : option repository :=
  match classify (lower (name r)) with
  | None => None
  | Some t =>
      if (String.eqb t "plugin" && negb (fst (is_fast_path_valid_plugin r)))%bool
      then None
      else Some (set_repo_type r t)
  end.

Lemma visit_spec (all_results : list repository) (seen : gset Z) (r : repository) :
  visit (all_results, seen) r =
    ((all_results ++ omap keep (first_seen seen [r]))%list, {[id r]} ∪ seen).
Proof.
  unfold visit, keep. simpl.
  destruct (decide (id r ∈ seen)) as [Hin|Hout]; simpl.
  - rewrite app_nil_r. f_equal. set_solver.
  - destruct (classify (lower (name r))) as [t|]; simpl.
    + destruct (String.eqb t "plugin" && _)%bool; simpl; [|reflexivity].
      now rewrite app_nil_r.
    + now rewrite app_nil_r.
Qed.

Lemma first_seen_cons (seen : gset Z) (r : repository) (l : list repository) :
  first_seen seen (r :: l) =
    (first_seen seen [r] ++ first_seen ({[id r]} ∪ seen) l)%list.
Proof.
  simpl. destruct (decide (id r ∈ seen)) as [Hin|Hout]; simpl; [|reflexivity].
  f_equal. set_solver.
Qed.

Lemma first_seen_app (l1 l2 : list repository) :
  forall seen,
    first_seen seen (l1 ++ l2) =
      (first_seen seen l1 ++ first_seen (list_to_set (List.map id l1) ∪ seen) l2)%list.
Proof.
  induction l1 as [|r l1 IH]; intros seen.
  - simpl. f_equal. set_solver.
  - rewrite <- app_comm_cons, (first_seen_cons seen r (l1 ++ l2)), IH.
    rewrite (first_seen_cons seen r l1), <- app_assoc. do 3 f_equal.
    simpl. set_solver.
Qed.

Lemma fold_visit_spec (items : list repository) :
  forall (all_results : list repository) (seen : gset Z),
    fold_left visit items (all_results, seen) =
      ((all_results ++ omap keep (first_seen seen items))%list,
       list_to_set (List.map id items) ∪ seen).
Proof.
  induction items as [|r items IH]; intros all_results seen.
  - simpl. rewrite app_nil_r. f_equal. set_solver.
  - cbn [fold_left]. rewrite visit_spec, IH, (first_seen_cons seen r items).
    rewrite omap_app, <- app_assoc. f_equal. simpl. set_solver.
Qed.

Lemma run_query_spec (w : World) (q : string) (all_results : list repository) (seen : gset Z) :
  run_query w (all_results, seen) q =
    ([CallSearch q],
     Ret ((all_results ++ omap keep (first_seen seen (answer w q)))%list,
          list_to_set (List.map id (answer w q)) ∪ seen)).
Proof.
  unfold run_query, answer, try_except, bind, perform, ret.
  destruct (http_search w q) as [items|e]; simpl.
  - now rewrite fold_visit_spec.
  - rewrite app_nil_r. do 3 f_equal. set_solver.
Qed.

Lemma run_queries_spec (w : World) (queries : list string) :
  forall (all_results : list repository) (seen : gset Z),
    run_queries w (all_results, seen) queries =
      (List.map CallSearch queries,
       Ret ((all_results ++ omap keep (first_seen seen (stream w queries)))%list,
            list_to_set (List.map id (stream w queries)) ∪ seen)).
Proof.
  induction queries as [|q queries IH]; intros all_results seen.
  - simpl. unfold ret. rewrite app_nil_r. do 3 f_equal. set_solver.
  - cbn [run_queries]. rewrite run_query_spec. unfold bind. rewrite IH.
    cbn [stream flat_map List.map]. fold (stream w queries).
    rewrite first_seen_app, omap_app, <- app_assoc, map_app.
    simpl. do 3 f_equal. set_solver.
Qed.

(** The search is one request per query, in order, and the catalog is what
    [keep] retains of the first occurrences in the answers. *)
Lemma search_repositories_spec (w : World) (topic : option string)
    (name_patterns : option (list string)) :
  search_repositories w topic name_patterns =
    (List.map CallSearch (build_queries topic name_patterns),
     Ret (omap keep (first_seen ∅ (stream w (build_queries topic name_patterns))))).
Proof.
  unfold search_repositories. rewrite run_queries_spec. unfold bind, ret.
  simpl. now rewrite app_nil_r.
Qed.

Lemma first_seen_In (l : list repository) :
  forall (seen : gset Z) (r : repository),
    In r (first_seen seen l) -> (id r ∉ seen) /\ In r l.
Proof.
  induction l as [|h l IH]; intros seen r Hr; simpl in *; [contradiction|].
  destruct (decide (id h ∈ seen)) as [Hin|Hout].
  - apply IH in Hr as [H1 H2]. auto.
  - destruct Hr as [<-|Hr]; [auto|].
    apply IH in Hr as [H1 H2]. split; [set_solver | auto].
Qed.

Lemma first_seen_NoDup (l : list repository) :
  forall seen : gset Z, List.NoDup (List.map id (first_seen seen l)).
Proof.
  induction l as [|h l IH]; intros seen; simpl; [constructor|].
  destruct (decide (id h ∈ seen)) as [Hin|Hout]; [apply IH|].
  simpl. constructor; [|apply IH].
  intros Hmem. apply in_map_iff in Hmem as (r & Hid & Hr).
  apply first_seen_In in Hr as [Hr _]. set_solver.
Qed.

(** The first occurrence of an id is the one [first_seen] keeps. *)
Lemma first_seen_find (l : list repository) :
  forall (seen : gset Z) (r : repository),
    In r (first_seen seen l) ->
    List.find (fun x => id x =? id r) l = Some r.
Proof.
  induction l as [|h l IH]; intros seen r Hr; simpl in *; [contradiction|].
  destruct (decide (id h ∈ seen)) as [Hin|Hout].
  - pose proof (first_seen_In _ _ _ Hr) as [Hfresh _].
    destruct (Z.eqb_spec (id h) (id r)) as [E|_]; [|eauto].
    rewrite E in Hin. contradiction.
  - destruct Hr as [<-|Hr]; [now rewrite Z.eqb_refl|].
    pose proof (first_seen_In _ _ _ Hr) as [Hfresh _].
    destruct (Z.eqb_spec (id h) (id r)) as [E|_]; [|eauto].
    rewrite E in Hfresh. set_solver.
Qed.

Lemma find_over_app {A : Type} (p : A -> bool) (l1 l2 : list A) :
  List.find p (l1 ++ l2) =
    match List.find p l1 with
    | Some x => Some x
    | None => List.find p l2
    end.
Proof.
  induction l1 as [|h l1 IH]; simpl; [reflexivity|].
  destruct (p h); [reflexivity | exact IH].
Qed.

Lemma find_flat_map {A B : Type} (p : B -> bool) (f : A -> list B) (qs : list A) (r : B) :
  List.find p (flat_map f qs) = Some r ->
  exists qs1 q qs2,
    qs = (qs1 ++ q :: qs2)%list
    /\ (forall q' x, In q' qs1 -> In x (f q') -> p x = false)
    /\ List.find p (f q) = Some r.
Proof.
  induction qs as [|q qs IH]; simpl; [discriminate|].
  intros H. destruct (List.find p (f q)) as [x|] eqn:Hq.
  - exists [], q, qs. split; [reflexivity|]. split; [intros ? ? []|].
    rewrite find_over_app, Hq in H. congruence.
  - rewrite find_over_app, Hq in H. destruct (IH H) as (qs1 & q0 & qs2 & -> & Hbefore & Hfind).
    exists (q :: qs1), q0, qs2. split; [reflexivity|]. split; [|exact Hfind].
    intros q' x [<-|Hq'] Hx; [|eauto].
    exact (find_none _ _ Hq x Hx).
Qed.

Lemma keep_Some (r e : repository) :
  keep r = Some e ->
  exists t, classify (lower (name r)) = Some t /\ e = set_repo_type r t
            /\ (t = "plugin" -> fst (is_fast_path_valid_plugin r) = true).
Proof.
  unfold keep. destruct (classify (lower (name r))) as [t|]; [|discriminate].
  destruct (String.eqb_spec t "plugin") as [->|Hne]; simpl.
  - destruct (fst (is_fast_path_valid_plugin r)); simpl; [|discriminate].
    intros H. injection H as <-. eauto.
  - intros H. injection H as <-. exists t. repeat split. intros; contradiction.
Qed.

Lemma keep_id (r e : repository) : keep r = Some e -> id e = id r.
Proof. intros H. apply keep_Some in H as (t & _ & -> & _). reflexivity. Qed.

Lemma omap_keep_NoDup (l : list repository) :
  List.NoDup (List.map id l) -> List.NoDup (List.map id (omap keep l)).
Proof.
  induction l as [|r l IH]; simpl; [constructor|].
  intros H. inversion H as [|? ? Hnotin Hnd]; subst.
  destruct (keep r) as [e|] eqn:He; simpl; [|auto].
  constructor; [|auto].
  rewrite (keep_id _ _ He). intros Hmem. apply Hnotin.
  apply in_map_iff in Hmem as (e' & Hid & He').
  apply list_elem_of_In, list_elem_of_omap in He' as (r' & Hr' & Hadm).
  apply in_map_iff. exists r'. split; [|now apply list_elem_of_In].
  rewrite <- Hid. symmetry. exact (keep_id _ _ Hadm).
Qed.

Lemma NoDup_map_injective {A B : Type} (f : A -> B) (l : list A) (x y : A) :
  List.NoDup (List.map f l) -> In x l -> In y l -> f x = f y -> x = y.
Proof.
  induction l as [|h l IH]; simpl; [contradiction|].
  intros H Hx Hy Hf. inversion H as [|? ? Hnotin Hnd]; subst.
  destruct Hx as [->|Hx], Hy as [->|Hy]; auto.
  - exfalso. apply Hnotin. rewrite Hf. now apply in_map.
  - exfalso. apply Hnotin. rewrite <- Hf. now apply in_map.
Qed.

(** The first occurrence of an id in the answers, query by query, is what
    [first_seen] keeps. *)
Lemma first_seen_of_find (l : list repository) :
  forall (seen : gset Z) (r : repository),
    id r ∉ seen ->
    List.find (fun x => id x =? id r) l = Some r ->
    In r (first_seen seen l).
Proof.
  induction l as [|h l IH]; intros seen r Hfresh; simpl; [discriminate|].
  destruct (Z.eqb_spec (id h) (id r)) as [E|Hne].
  - intros [= ->]. destruct (decide (id r ∈ seen)); [contradiction | now left].
  - intros Hfind. destruct (decide (id h ∈ seen)).
    + apply IH; assumption.
    + right. apply IH; [set_solver | assumption].
Qed.

Lemma find_of_flat_map {A B : Type} (p : B -> bool) (f : A -> list B)
    (qs1 qs2 : list A) (q : A) (r : B) :
  (forall q' x, In q' qs1 -> In x (f q') -> p x = false) ->
  List.find p (f q) = Some r ->
  List.find p (flat_map f (qs1 ++ q :: qs2)) = Some r.
Proof.
  intros Hbefore Hfind. induction qs1 as [|q0 qs1 IH]; simpl.
  - now rewrite find_over_app, Hfind.
  - rewrite find_over_app.
    assert (Hnone : List.find p (f q0) = None).
    { destruct (List.find p (f q0)) as [x|] eqn:E; [|reflexivity].
      apply find_some in E as [Hin Hp].
      rewrite (Hbefore q0 x (or_introl eq_refl) Hin) in Hp. discriminate. }
    rewrite Hnone. apply IH. intros q' x Hq'. apply Hbefore. now right.
Qed.

(** C7.  The search always returns a catalog, and the catalog is what the
    loop keeps, in order, of the repositories that stand first under their
    id in the answers taken query by query.  So no id occurs in it twice;
    every entry is the repository, with its type assigned, that stands first
    under its id in the answer of the first query that returned that id; and
    conversely, for the repository that stands first under an id in the
    first query that returned it, the catalog holds under that id exactly
    what the loop keeps of it: that repository with its type when its name
    and the filter let it pass, nothing otherwise, and never a later
    duplicate. *)
Theorem catalog_deduplication (w : World) (topic : option string)
    (name_patterns : option (list string)) :
  exists catalog : list repository,
    result (search_repositories w topic name_patterns) = Ret catalog
    /\ catalog = omap keep (first_seen ∅ (stream w (build_queries topic name_patterns)))
    /\ List.NoDup (List.map id catalog)
    /\ (forall e : repository, In e catalog ->
         exists qs1 q qs2 raw t,
           build_queries topic name_patterns = (qs1 ++ q :: qs2)%list
           /\ (forall q' r', In q' qs1 -> In r' (answer w q') -> id r' <> id e)
           /\ List.find (fun r => id r =? id e) (answer w q) = Some raw
           /\ e = set_repo_type raw t)
    /\ (forall qs1 q qs2 raw,
          build_queries topic name_patterns = (qs1 ++ q :: qs2)%list ->
          (forall q' r', In q' qs1 -> In r' (answer w q') -> id r' <> id raw) ->
          List.find (fun r => id r =? id raw) (answer w q) = Some raw ->
          forall e : repository,
            (In e catalog /\ id e = id raw) <-> keep raw = Some e)
    /\ (forall raw e : repository,
          keep raw = Some e
          <-> exists t,
                classify (lower (name raw)) = Some t
                /\ e = set_repo_type raw t
                /\ (t = "plugin" -> fst (is_fast_path_valid_plugin raw) = true)).
Proof.
  rewrite search_repositories_spec. eexists. split; [reflexivity|].
  split; [reflexivity|]. split; [|split; [|split]].
  - apply omap_keep_NoDup, first_seen_NoDup.
  - intros e He.
    apply list_elem_of_In, list_elem_of_omap in He as (raw & Hraw & Hadm).
    apply list_elem_of_In in Hraw.
    pose proof (keep_id _ _ Hadm) as Hid.
    apply keep_Some in Hadm as (t & _ & -> & _).
    apply first_seen_find in Hraw. unfold stream in Hraw.
    apply find_flat_map in Hraw as (qs1 & q & qs2 & Hqs & Hbefore & Hfind).
    exists qs1, q, qs2, raw, t. repeat split; try assumption.
    intros q' r' Hq' Hr' E. specialize (Hbefore q' r' Hq' Hr').
    simpl in E. rewrite E, Z.eqb_refl in Hbefore. discriminate.
  - intros qs1 q qs2 raw Hqs Hbefore Hfind e.
    assert (Hfirst : In raw (first_seen ∅ (stream w (build_queries topic name_patterns)))).
    { apply first_seen_of_find; [set_solver|]. unfold stream. rewrite Hqs.
      apply find_of_flat_map; [|exact Hfind].
      intros q' x Hq' Hx. apply Z.eqb_neq. exact (Hbefore q' x Hq' Hx). }
    split.
    + intros [He Hid].
      apply list_elem_of_In, list_elem_of_omap in He as (r' & Hr' & Hadm).
      apply list_elem_of_In in Hr'.
      assert (r' = raw) as ->; [|exact Hadm].
      apply (NoDup_map_injective id _ _ _ (first_seen_NoDup _ ∅) Hr' Hfirst).
      rewrite <- (keep_id _ _ Hadm). exact Hid.
    + intros Hadm. split; [|exact (keep_id _ _ Hadm)].
      apply list_elem_of_In, list_elem_of_omap. exists raw.
      split; [now apply list_elem_of_In | exact Hadm].
  - intros raw e. split; [apply keep_Some|].
    intros (t & Hclass & -> & Hfast). unfold keep. rewrite Hclass.
    destruct (String.eqb_spec t "plugin") as [->|Hne]; simpl; [|reflexivity].
    now rewrite (Hfast eq_refl).
Qed.

(** Two queries whose answers overlap: the repository returned by both is
    kept once, as the first query returned it; the third query fails and
    changes nothing. *)
Example catalog_deduplication_example :
  search_repositories Scenarios.world_two_queries
    (Some "koreader-plugin") (Some ["koplugin"; "plugin"]) =
    ([CallSearch "topic:koreader-plugin"; CallSearch "koplugin in:name";
      CallSearch "plugin in:name"],
     Ret [set_repo_type Scenarios.reader_first "plugin";
          set_repo_type Scenarios.patches_repo "patch"]).
Proof. vm_compute. reflexivity. Qed.

(** The theorem at the two overlapping answers: the catalog is the two
    first occurrences; repository 7 is there as the first query returned it
    and not as the second did. *)
Lemma catalog_deduplication_witness :
  exists catalog : list repository,
    result (search_repositories Scenarios.world_two_queries
              (Some "koreader-plugin") (Some ["koplugin"; "plugin"])) = Ret catalog
    /\ catalog = [set_repo_type Scenarios.reader_first "plugin";
                  set_repo_type Scenarios.patches_repo "patch"]
    /\ List.NoDup (List.map id catalog)
    /\ id Scenarios.reader_again = id Scenarios.reader_first
    /\ Scenarios.reader_again <> Scenarios.reader_first
    /\ In (set_repo_type Scenarios.reader_first "plugin") catalog
    /\ ~ In (set_repo_type Scenarios.reader_again "plugin") catalog.
Proof.
  destruct (catalog_deduplication Scenarios.world_two_queries
              (Some "koreader-plugin") (Some ["koplugin"; "plugin"]))
    as (catalog & Hres & Hcat & Hnodup & _).
  exists catalog. split; [exact Hres|].
  assert (Hlist : catalog = [set_repo_type Scenarios.reader_first "plugin";
                             set_repo_type Scenarios.patches_repo "patch"]).
  { rewrite Hcat. vm_compute. reflexivity. }
  split; [exact Hlist|]. split; [exact Hnodup|].
  split; [reflexivity|]. split; [discriminate|].
  rewrite Hlist. split; [now left|].
  intros [H|[H|[]]]; discriminate.
Defined.

(** C6.  [is_fast_path_valid_plugin] accepts exactly when one of the three
    rules holds, and names the first of them that does, in the order name,
    topics, description.  A search result that stands first under its id and
    whose name makes it a plugin enters the catalog exactly when the filter
    accepts it; when the filter rejects it, no entry of the catalog carries
    its id. *)
Theorem fast_path_acceptance :
  (forall r : repository,
      fst (is_fast_path_valid_plugin r) = true <->
      name_rule r \/ topic_rule r \/ description_rule r)
  /\ (forall r : repository,
        snd (is_fast_path_valid_plugin r) = Some NamePattern <-> name_rule r)
  /\ (forall r : repository,
        snd (is_fast_path_valid_plugin r) = Some TopicTag <->
        ~ name_rule r /\ topic_rule r)
  /\ (forall r : repository,
        snd (is_fast_path_valid_plugin r) = Some DescriptionMention <->
        ~ name_rule r /\ ~ topic_rule r /\ description_rule r)
  /\ (forall (w : World) (topic : option string) (name_patterns : option (list string))
             (r : repository),
        In r (first_seen ∅ (stream w (build_queries topic name_patterns))) ->
        classify (lower (name r)) = Some "plugin" ->
        exists catalog : list repository,
          result (search_repositories w topic name_patterns) = Ret catalog
          /\ (In (set_repo_type r "plugin") catalog <->
              name_rule r \/ topic_rule r \/ description_rule r)
          /\ (~ (name_rule r \/ topic_rule r \/ description_rule r) ->
              forall e : repository, In e catalog -> id e <> id r)).
Proof.
  assert (Hverdict : forall r : repository,
             fst (is_fast_path_valid_plugin r) = true <->
             name_rule r \/ topic_rule r \/ description_rule r).
  { intros r.
    destruct (is_fast_path_valid_plugin_cases r)
      as [(H1 & ->)|[(H1 & H2 & ->)|[(H1 & H2 & H3 & ->)|(H1 & H2 & H3 & ->)]]];
      simpl; split; auto; try discriminate.
    intros [H|[H|H]]; contradiction. }
  split; [exact Hverdict|].
  split; [|split; [|split]].
  - intros r.
    destruct (is_fast_path_valid_plugin_cases r)
      as [(H1 & ->)|[(H1 & H2 & ->)|[(H1 & H2 & H3 & ->)|(H1 & H2 & H3 & ->)]]];
      simpl; split; auto; try discriminate; intros; contradiction.
  - intros r.
    destruct (is_fast_path_valid_plugin_cases r)
      as [(H1 & ->)|[(H1 & H2 & ->)|[(H1 & H2 & H3 & ->)|(H1 & H2 & H3 & ->)]]];
      simpl; split; auto; try discriminate; intros [? ?]; contradiction.
  - intros r.
    destruct (is_fast_path_valid_plugin_cases r)
      as [(H1 & ->)|[(H1 & H2 & ->)|[(H1 & H2 & H3 & ->)|(H1 & H2 & H3 & ->)]]];
      simpl; split; auto; try discriminate; intros (? & ? & ?); contradiction.
  - intros w topic name_patterns r Hfirst Hplugin.
    rewrite search_repositories_spec. eexists. split; [reflexivity|].
    assert (Hkeep : keep r =
                     if fst (is_fast_path_valid_plugin r)
                     then Some (set_repo_type r "plugin") else None).
    { unfold keep. rewrite Hplugin. simpl.
      destruct (fst (is_fast_path_valid_plugin r)); reflexivity. }
    split; [split|].
    + intros He. apply list_elem_of_In, list_elem_of_omap in He as (r' & _ & Hadm).
      apply keep_Some in Hadm as (t & _ & Heq & Hfast).
      assert (t = "plugin") as -> by (now injection Heq).
      apply Hverdict.
      rewrite <- (is_fast_path_valid_plugin_retyped r "plugin"), Heq.
      rewrite is_fast_path_valid_plugin_retyped. now apply Hfast.
    + intros Hrules. apply Hverdict in Hrules.
      apply list_elem_of_In, list_elem_of_omap. exists r.
      split; [now apply list_elem_of_In|]. now rewrite Hkeep, Hrules.
    + intros Hnone e He Hid.
      apply list_elem_of_In, list_elem_of_omap in He as (r' & Hr' & Hadm).
      apply list_elem_of_In in Hr'.
      assert (r' = r) as ->.
      { apply (NoDup_map_injective id _ _ _ (first_seen_NoDup _ ∅) Hr' Hfirst).
        rewrite <- (keep_id _ _ Hadm). exact Hid. }
      rewrite Hkeep in Hadm.
      destruct (fst (is_fast_path_valid_plugin r)) eqn:Hfast; [|discriminate].
      apply Hnone, Hverdict, Hfast.
Qed.

(** The theorem at the first answer of the overlapping queries: the name of
    repository 7 ends in ".koplugin", so it is in the catalog. *)
Lemma fast_path_acceptance_witness :
  exists catalog : list repository,
    result (search_repositories Scenarios.world_two_queries
              (Some "koreader-plugin") (Some ["koplugin"; "plugin"])) = Ret catalog
    /\ In (set_repo_type Scenarios.reader_first "plugin") catalog.
Proof.
  destruct fast_path_acceptance as (_ & _ & _ & _ & Hsearch).
  destruct (Hsearch Scenarios.world_two_queries (Some "koreader-plugin")
              (Some ["koplugin"; "plugin"]) Scenarios.reader_first)
    as (catalog & Hres & Hin & _).
  - vm_compute. left. reflexivity.
  - vm_compute. reflexivity.
  - exists catalog. split; [exact Hres|]. apply Hin.
    left. unfold name_rule. left. vm_compute. reflexivity.
Defined.

End SearchFacts.

(** ** Archive download, patch listing and the install worker *)

Section InstallFacts.
Import PyStr Py GitHub FS DownloadWorker.

(** [first_zip_asset] returns the first asset of the list whose name ends
    in ".zip". *)
Lemma first_zip_asset_Some (l : list asset) (a : asset) :
  first_zip_asset l = Some a <->
  exists l1 l2,
    l = (l1 ++ a :: l2)%list
    /\ endswith ".zip" (asset_name a) = true
    /\ forall x, In x l1 -> endswith ".zip" (asset_name x) = false.
Proof.
  induction l as [|h l IH]; simpl.
  - split; [discriminate|]. intros (l1 & l2 & H & _). now destruct l1.
  - destruct (endswith ".zip" (asset_name h)) eqn:Hh.
    + split.
      * intros H. injection H as ->. exists [], l. repeat split; [assumption|intros ? []].
      * intros (l1 & l2 & H & Ha & Hbefore). destruct l1 as [|x l1].
        -- simpl in H. now injection H as ->.
        -- simpl in H. injection H as -> _.
           rewrite (Hbefore x (or_introl eq_refl)) in Hh. discriminate.
    + rewrite IH. split.
      * intros (l1 & l2 & -> & Ha & Hbefore). exists (h :: l1), l2.
        repeat split; [assumption|]. intros x [<-|Hx]; auto.
      * intros (l1 & l2 & H & Ha & Hbefore). destruct l1 as [|x l1].
        -- simpl in H. injection H as -> _. congruence.
        -- simpl in H. injection H as -> ->. exists l1, l2.
           repeat split; [assumption|]. intros y Hy. apply Hbefore. now right.
Qed.

(** The address the first attempt downloads: that of the first ".zip" asset
    of the first release listed, if there is one. *)
Definition release_zip_url (w : World) (owner repo : string) : option string :=
  match http_releases w owner repo with
  | Ret (latest_release :: _) =>
      match first_zip_asset (assets latest_release) with
      | Some a => browser_download_url a
      | None => None
      end
  | _ => None
  end.

(** The content a download produces; [None] when it fails. *)
Definition fetched (w : World) (url : string) : option string :=
  match http_download w url with
  | Ret content => Some content
  | Raise _ => None
  end.

Lemma download_release_zip_spec (w : World) (owner repo : string) :
  download_release_zip w owner repo =
    match release_zip_url w owner repo with
    | Some url => ([CallReleases owner repo; CallDownload url], Ret (fetched w url))
    | None => ([CallReleases owner repo], Ret None)
    end.
Proof.
  unfold download_release_zip, release_zip_url, fetched, try_except, bind, perform, lift, ret.
  destruct (http_releases w owner repo) as [[|rel rest]|e]; simpl; try reflexivity.
  destruct (first_zip_asset (assets rel)) as [a|]; simpl; [|reflexivity].
  destruct (browser_download_url a) as [url|]; simpl; [|reflexivity].
  destruct (http_download w url); reflexivity.
Qed.

Lemma download_branch_zip_spec (w : World) (owner repo branch : string) :
  download_branch_zip w owner repo branch =
    ([CallDownload (archive_url owner repo branch)],
     Ret (fetched w (archive_url owner repo branch))).
Proof.
  unfold download_branch_zip, fetched, try_except, bind, perform, ret.
  destruct (http_download w _); reflexivity.
Qed.

(** The calls of the first attempt. *)
Definition release_calls (w : World) (owner repo : string) : list call :=
  CallReleases owner repo ::
  match release_zip_url w owner repo with
  | Some url => [CallDownload url]
  | None => []
  end.

(** The content of the first attempt. *)
Definition release_content (w : World) (owner repo : string) : option string :=
  match release_zip_url w owner repo with
  | Some url => fetched w url
  | None => None
  end.

(** The three attempts in their order: each next request is made only when
    the attempts before it produced nothing. *)
Lemma download_repository_zip_spec (w : World) (owner repo branch : string) :
  download_repository_zip w owner repo branch =
    match release_content w owner repo with
    | Some content => (release_calls w owner repo, Ret (Some content))
    | None =>
        match fetched w (archive_url owner repo branch) with
        | Some content =>
            ((release_calls w owner repo
              ++ [CallDownload (archive_url owner repo branch)])%list,
             Ret (Some content))
        | None =>
            ((release_calls w owner repo
              ++ [CallDownload (archive_url owner repo branch);
                  CallDownload (archive_url owner repo "master")])%list,
             Ret (fetched w (archive_url owner repo "master")))
        end
    end.
Proof.
  unfold download_repository_zip, release_content, release_calls.
  rewrite download_release_zip_spec, !download_branch_zip_spec.
  destruct (release_zip_url w owner repo) as [url|]; unfold bind, ret; simpl.
  - destruct (fetched w url); simpl; [reflexivity|].
    destruct (fetched w (archive_url owner repo branch)); simpl; [reflexivity|].
    destruct (fetched w (archive_url owner repo "master")); reflexivity.
  - destruct (fetched w (archive_url owner repo branch)); simpl; [reflexivity|].
    destruct (fetched w (archive_url owner repo "master")); reflexivity.
Qed.

(** When the download yields nothing the worker reports the failure and
    leaves the file system as it was. *)
Lemma run_plugin_without_archive (w : World) (self : worker) (st : wstate) :
  item_type self = "plugin" ->
  result (download_repository_zip w (owner_login (item_data self))
            (name (item_data self)) "main") = Ret None ->
  run w self st =
    ({| fs := fs st;
        emitted := (emitted st
                    ++ [Progress ("Downloading " ++ name (item_data self) ++ "...");
                        Finished false "Failed to download repository"])%list;
        log := (log st ++ calls (download_repository_zip w (owner_login (item_data self))
                                   (name (item_data self)) "main"))%list |},
     Ret tt).
Proof.
  intros Htype Hnone. unfold run, wtry, wbind, emit, api. rewrite Htype. simpl.
  unfold result in Hnone. unfold calls.
  destruct (download_repository_zip w _ _ "main") as [l r]. simpl in *. subst r.
  simpl. now rewrite <- app_assoc.
Qed.

(** C9.  [download_repository_zip] tries the first ".zip" asset of the
    latest release, then the archive of the named branch, then the archive of
    "master"; a request is made only when every attempt before it produced
    nothing; when all three fail it returns [None].  The worker then emits
    one failure signal and the file system is what it was: no directory has
    been created or removed. *)
Theorem archive_acquisition_order :
  (forall (w : World) (owner repo branch : string),
      download_repository_zip w owner repo branch =
        match release_content w owner repo with
        | Some content => (release_calls w owner repo, Ret (Some content))
        | None =>
            match fetched w (archive_url owner repo branch) with
            | Some content =>
                ((release_calls w owner repo
                  ++ [CallDownload (archive_url owner repo branch)])%list,
                 Ret (Some content))
            | None =>
                ((release_calls w owner repo
                  ++ [CallDownload (archive_url owner repo branch);
                      CallDownload (archive_url owner repo "master")])%list,
                 Ret (fetched w (archive_url owner repo "master")))
            end
        end)
  /\ (forall (w : World) (owner repo url : string),
        release_zip_url w owner repo = Some url <->
        exists latest rest a l1 l2,
          http_releases w owner repo = Ret (latest :: rest)
          /\ assets latest = (l1 ++ a :: l2)%list
          /\ endswith ".zip" (asset_name a) = true
          /\ (forall x, In x l1 -> endswith ".zip" (asset_name x) = false)
          /\ browser_download_url a = Some url)
  /\ (forall (w : World) (self : worker) (st : wstate),
        item_type self = "plugin" ->
        release_content w (owner_login (item_data self)) (name (item_data self)) = None ->
        fetched w (archive_url (owner_login (item_data self)) (name (item_data self)) "main")
          = None ->
        fetched w (archive_url (owner_login (item_data self)) (name (item_data self)) "master")
          = None ->
        result (download_repository_zip w (owner_login (item_data self))
                  (name (item_data self)) "main") = Ret None
        /\ fs (fst (run w self st)) = fs st
        /\ emitted (fst (run w self st)) =
             (emitted st
              ++ [Progress ("Downloading " ++ name (item_data self) ++ "...");
                  Finished false "Failed to download repository"])%list
        /\ snd (run w self st) = Ret tt)
  /\ run Scenarios.world_offline (Scenarios.worker_for "plugin") Scenarios.fresh_state =
       ({| fs := Scenarios.device;
           emitted := [Progress "Downloading demo.koplugin...";
                       Finished false "Failed to download repository"];
           log := [CallReleases "alice" "demo.koplugin";
                   CallDownload
                     "https://github.com/alice/demo.koplugin/archive/refs/heads/main.zip";
                   CallDownload
                     "https://github.com/alice/demo.koplugin/archive/refs/heads/master.zip"] |},
        Ret tt).
Proof.
  split; [exact download_repository_zip_spec|].
  split; [|split; [|vm_compute; reflexivity]].
  - intros w owner repo url. unfold release_zip_url. split.
    + destruct (http_releases w owner repo) as [[|latest rest]|e]; try discriminate.
      destruct (first_zip_asset (assets latest)) as [a|] eqn:Ha; [|discriminate].
      intros Hurl. apply first_zip_asset_Some in Ha as (l1 & l2 & Hl & Hzip & Hbefore).
      exists latest, rest, a, l1, l2. auto.
    + intros (latest & rest & a & l1 & l2 & -> & Hl & Hzip & Hbefore & Hurl).
      assert (Ha : first_zip_asset (assets latest) = Some a)
        by (apply first_zip_asset_Some; eauto).
      now rewrite Ha.
  - intros w self st Htype H1 H2 H3.
    assert (Hnone : result (download_repository_zip w (owner_login (item_data self))
                              (name (item_data self)) "main") = Ret None).
    { rewrite download_repository_zip_spec, H1, H2, H3. reflexivity. }
    rewrite (run_plugin_without_archive w self st Htype Hnone). auto.
Qed.

(** The theorem at the unreachable platform. *)
Lemma archive_acquisition_order_witness :
  fs (fst (run Scenarios.world_offline (Scenarios.worker_for "plugin") Scenarios.fresh_state))
    = Scenarios.device
  /\ snd (run Scenarios.world_offline (Scenarios.worker_for "plugin") Scenarios.fresh_state)
    = Ret tt.
Proof.
  destruct archive_acquisition_order as (_ & _ & Hfail & _).
  destruct (Hfail Scenarios.world_offline (Scenarios.worker_for "plugin")
              Scenarios.fresh_state eq_refl eq_refl eq_refl eq_refl)
    as (_ & Hfs & _ & Hret).
  split; [exact Hfs | exact Hret].
Defined.

(** Scenario C of the specification: the archive unpacks to
    myrepo-main/mypatch.koplugin/{main.lua,_meta.lua}; the nested directory
    is found and replaces the installed copy. *)
Example install_nested_koplugin :
  let members :=
    [ {| member_path := ["myrepo-main"]; member_data := None |};
      {| member_path := ["myrepo-main"; "README.md"]; member_data := Some "about" |};
      {| member_path := ["myrepo-main"; "demo.koplugin"]; member_data := None |};
      {| member_path := ["myrepo-main"; "demo.koplugin"; "main.lua"];
         member_data := Some "return { new = true }" |};
      {| member_path := ["myrepo-main"; "demo.koplugin"; "_meta.lua"];
         member_data := Some "version = '2.0'" |} ] in
  let w :=
    {| http_latest_release := fun _ _ => Raise Scenarios.http_404;
       http_commits := fun _ _ => Raise Scenarios.http_404;
       http_search := fun _ => Raise Scenarios.http_404;
       http_releases := fun _ _ => Ret [];
       http_contents := fun _ _ => Raise Scenarios.http_404;
       http_download := fun url =>
         if String.eqb url "https://github.com/alice/demo.koplugin/archive/refs/heads/main.zip"
         then Ret "PK-archive" else Raise Scenarios.http_404;
       http_text := fun _ => Raise Scenarios.http_404;
       unzip := fun _ => Ret members;
       path_exists := fun _ => Ret false;
       st_mtime := fun _ => Raise Scenarios.no_such_file;
       fromisoformat := DateTime.fromisoformat_seconds;
       utc_now := Scenarios.jan_12;
       local_offset := 0 |} in
  let after := fst (run w (Scenarios.worker_for "plugin") Scenarios.fresh_state) in
  lookup ["mnt"; "koreader"; "plugins"; "demo.koplugin"] (fs after) =
    Some (Dir [ ("main.lua", File "return { new = true }");
                ("_meta.lua", File "version = '2.0'") ])
  /\ lookup ["home"; "temp_download"] (fs after) = None
  /\ emitted after =
       [ Progress "Downloading demo.koplugin..."; Progress "Extracting...";
         Progress "Analyzing plugin structure..."; Progress "Installing...";
         Finished true "demo.koplugin installed successfully!" ].
Proof. vm_compute. repeat split; reflexivity. Qed.

(** *** The patch list *)

(** The test of [get_patch_files] on a name. *)
Definition digit_prefixed_lua (n : string) : bool :=
  (endswith ".lua" n
   && match n with
      | EmptyString => false
      | String c _ => str_isdigit c
      end)%bool.

(** The characters [str.isdigit] accepts: the decimal digits and the three
    superscript digits. *)
Lemma str_isdigit_spec (c : ascii) :
  str_isdigit c = true
  <-> isdigit c = true \/ c = "178"%char \/ c = "179"%char \/ c = "185"%char.
Proof.
  unfold str_isdigit. rewrite !orb_true_iff, !Nat.eqb_eq.
  assert (Hcode : forall k, (k < 256)%nat -> nat_of_ascii c = k <-> c = ascii_of_nat k).
  { intros k Hk. split.
    - intros <-. now rewrite ascii_nat_embedding.
    - intros ->. now rewrite nat_ascii_embedding. }
  rewrite (Hcode 178%nat), (Hcode 179%nat), (Hcode 185%nat) by lia.
  change (ascii_of_nat 178) with "178"%char. change (ascii_of_nat 179) with "179"%char.
  change (ascii_of_nat 185) with "185"%char. tauto.
Qed.

Definition patch_of (file : content_entry) : patch :=
  {| patch_name := entry_name file;
     patch_download_url := entry_download_url file;
     patch_sha := entry_sha file |}.

Lemma is_patch_file_spec (file : content_entry) :
  is_patch_file file = Ret (digit_prefixed_lua (entry_name file)).
Proof.
  unfold is_patch_file, digit_prefixed_lua.
  destruct (entry_name file) as [|c n]; [reflexivity|].
  destruct (endswith ".lua" (String c n)); reflexivity.
Qed.

Lemma collect_patches_spec (files : list content_entry) :
  forall patches : list patch,
    collect_patches files patches =
      Ret (patches
           ++ List.map patch_of
                (List.filter (fun file => digit_prefixed_lua (entry_name file)) files))%list.
Proof.
  induction files as [|file files IH]; intros patches; simpl.
  - now rewrite app_nil_r.
  - rewrite is_patch_file_spec.
    destruct (digit_prefixed_lua (entry_name file)); simpl; [|apply IH].
    rewrite IH, <- app_assoc. reflexivity.
Qed.

(** The patches listed for the answer of the contents request. *)
Definition listed_patches (w : World) (owner repo : string) : list patch :=
  match http_contents w owner repo with
  | Ret files =>
      List.map patch_of
        (List.filter (fun file => digit_prefixed_lua (entry_name file)) files)
  | Raise _ => []
  end.

Lemma get_patch_files_spec (w : World) (owner repo : string) :
  get_patch_files w owner repo =
    ([CallContents owner repo], Ret (listed_patches w owner repo)).
Proof.
  unfold get_patch_files, listed_patches, try_except, bind, perform, lift, ret.
  destruct (http_contents w owner repo) as [files|e]; simpl; [|reflexivity].
  rewrite collect_patches_spec. reflexivity.
Qed.

Lemma run_patch_without_patches (w : World) (self : worker) (st : wstate) :
  item_type self = "patch" ->
  listed_patches w (owner_login (item_data self)) (name (item_data self)) = [] ->
  run w self st =
    ({| fs := fs st;
        emitted := (emitted st ++ [Finished false "No patches found"])%list;
        log := (log st ++ [CallContents (owner_login (item_data self))
                             (name (item_data self))])%list |},
     Ret tt).
Proof.
  intros Htype Hnone. unfold run, wtry, wbind, emit, api.
  rewrite Htype, get_patch_files_spec, Hnone. reflexivity.
Qed.

(** C10.  The patch list holds exactly the entries of the root listing
    whose name ends in ".lua" and whose first character passes
    [str.isdigit], in their order, and nothing else.  The characters that
    pass are the decimal digits and the digits that are not decimal, here
    the superscripts two, three and one.  When no entry passes the test the
    list is empty, the worker emits the failure "No patches found" and
    writes nothing.  A repository whose ".lua" files start with letters is
    such a case. *)
Theorem patch_files_digit_prefixed_lua :
  (forall c : ascii,
      str_isdigit c = true
      <-> isdigit c = true \/ c = "178"%char \/ c = "179"%char \/ c = "185"%char)
  /\ (forall (w : World) (owner repo : string),
      exists patches : list patch,
        result (get_patch_files w owner repo) = Ret patches
        /\ (forall files, http_contents w owner repo = Ret files ->
              patches = List.map patch_of
                          (List.filter (fun file => digit_prefixed_lua (entry_name file)) files))
        /\ (forall p : patch, In p patches ->
              endswith ".lua" (patch_name p) = true
              /\ exists c rest, patch_name p = String c rest /\ str_isdigit c = true))
  /\ (forall (w : World) (self : worker) (st : wstate) (files : list content_entry),
        item_type self = "patch" ->
        http_contents w (owner_login (item_data self)) (name (item_data self)) = Ret files ->
        (forall file, In file files ->
           forall c rest, entry_name file = String c rest -> str_isdigit c = false) ->
        result (get_patch_files w (owner_login (item_data self)) (name (item_data self)))
          = Ret []
        /\ fs (fst (run w self st)) = fs st
        /\ emitted (fst (run w self st)) =
             (emitted st ++ [Finished false "No patches found"])%list
        /\ snd (run w self st) = Ret tt)
  /\ run (Scenarios.world_patches Scenarios.listing_without_digits)
         (Scenarios.worker_for "patch") Scenarios.fresh_state =
       ({| fs := Scenarios.device;
           emitted := [Finished false "No patches found"];
           log := [CallContents "alice" "demo.koplugin"] |},
        Ret tt).
Proof.
  split; [exact str_isdigit_spec|].
  split; [|split; [|vm_compute; reflexivity]].
  - intros w owner repo. rewrite get_patch_files_spec. eexists.
    split; [reflexivity|]. unfold listed_patches. split.
    + intros files ->. reflexivity.
    + intros p Hp. destruct (http_contents w owner repo) as [files|e]; [|contradiction].
      apply in_map_iff in Hp as (file & <- & Hfile).
      apply filter_In in Hfile as [_ Htest]. unfold digit_prefixed_lua in Htest.
      apply andb_true_iff in Htest as [Hlua Hdigit]. simpl. split; [exact Hlua|].
      destruct (entry_name file) as [|c rest]; [discriminate|]. eauto.
  - intros w self st files Htype Hfiles Hnodigit.
    assert (Hnone : listed_patches w (owner_login (item_data self)) (name (item_data self)) = []).
    { unfold listed_patches. rewrite Hfiles.
      replace (List.filter (fun file => digit_prefixed_lua (entry_name file)) files)
        with (@nil content_entry); [reflexivity|].
      symmetry. clear Hfiles. induction files as [|file files IH]; [reflexivity|].
      simpl. unfold digit_prefixed_lua at 1.
      destruct (entry_name file) as [|c rest] eqn:Hname.
      - rewrite andb_false_r. apply IH. intros f Hf. apply Hnodigit. now right.
      - rewrite (Hnodigit file (or_introl eq_refl) c rest Hname), andb_false_r.
        apply IH. intros f Hf. apply Hnodigit. now right. }
    rewrite (run_patch_without_patches w self st Htype Hnone), get_patch_files_spec, Hnone.
    auto.
Qed.

(** The theorem at the listing whose ".lua" files start with a letter. *)
Lemma patch_files_digit_prefixed_lua_witness :
  result (get_patch_files (Scenarios.world_patches Scenarios.listing_without_digits)
            "alice" "demo.koplugin") = Ret []
  /\ fs (fst (run (Scenarios.world_patches Scenarios.listing_without_digits)
                (Scenarios.worker_for "patch") Scenarios.fresh_state))
     = Scenarios.device.
Proof.
  destruct patch_files_digit_prefixed_lua as (_ & _ & Hnone & _).
  destruct (Hnone (Scenarios.world_patches Scenarios.listing_without_digits)
              (Scenarios.worker_for "patch") Scenarios.fresh_state
              Scenarios.listing_without_digits eq_refl eq_refl)
    as (Hlist & Hfs & _).
  - intros file [<-|[<-|[<-|[]]]] c rest Hname; injection Hname as <- _; reflexivity.
  - split; [exact Hlist | exact Hfs].
Defined.

(** A listing whose one ".lua" file starts with the superscript two
    (U+00B2), which [str.isdigit] accepts and which is no decimal digit: the
    file is listed, fetched and written, and the worker reports success. *)
Theorem superscript_prefixed_patch_is_installed :
  let patch_file := String "178" "-sup.lua" in
  let files :=
    [ {| entry_name := patch_file; entry_type := "file";
         entry_download_url := Some "https://raw.example.org/sup.lua";
         entry_sha := "e5" |} ] in
  let after := fst (run (Scenarios.world_patches files) (Scenarios.worker_for "patch")
                      Scenarios.fresh_state) in
  isdigit "178" = false
  /\ str_isdigit "178" = true
  /\ result (get_patch_files (Scenarios.world_patches files) "alice" "demo.koplugin")
     = Ret [ {| patch_name := patch_file;
                patch_download_url := Some "https://raw.example.org/sup.lua";
                patch_sha := "e5" |} ]
  /\ lookup ["mnt"; "koreader"; "patches"] (fs after)
     = Some (Dir [(patch_file, File "-- https://raw.example.org/sup.lua")])
  /\ emitted after =
       [Progress "Downloading patches..."; Finished true "1 patch(es) installed!"].
Proof. vm_compute. repeat split; reflexivity. Qed.

(** A listing with one digit-prefixed patch: it alone is installed. *)
Example install_digit_prefixed_patch :
  let files :=
    ({| entry_name := "2-statusbar.lua"; entry_type := "file";
        entry_download_url := Some "https://raw.example.org/2-statusbar.lua";
        entry_sha := "d4" |} :: Scenarios.listing_without_digits)%list in
  let after := fst (run (Scenarios.world_patches files) (Scenarios.worker_for "patch")
                      Scenarios.fresh_state) in
  lookup ["mnt"; "koreader"; "patches"] (fs after) =
    Some (Dir [("2-statusbar.lua", File "-- https://raw.example.org/2-statusbar.lua")])
  /\ emitted after =
       [Progress "Downloading patches..."; Finished true "1 patch(es) installed!"].
Proof. vm_compute. repeat split; reflexivity. Qed.

End InstallFacts.

(** * Further properties of the code *)

(** ** Versions *)

Section VersioningMore.
Import PyStr Versioning.

Lemma lstrip_idempotent (c : ascii) (s : string) :
  lstrip c (lstrip c s) = lstrip c s.
Proof.
  induction s as [|a s IH]; simpl; [reflexivity|].
  destruct (Ascii.eqb a c) eqn:E; [exact IH|].
  simpl. now rewrite E.
Qed.

Lemma lstrip_not_leading (c a : ascii) (s : string) :
  Ascii.eqb a c = false -> lstrip c (String a s) = String a s.
Proof. intros E. simpl. now rewrite E. Qed.

Lemma parse_version_lstrip (s : string) :
  parse_version (lstrip "v" s) = parse_version s.
Proof.
  unfold parse_version.
  destruct s as [|a s]; [reflexivity|].
  change (negb (truthy (String a s))) with false. cbv iota.
  destruct (lstrip "v" (String a s)) as [|b t] eqn:E.
  - reflexivity.
  - change (negb (truthy (String b t))) with false. cbv iota.
    rewrite <- E, lstrip_idempotent. reflexivity.
Qed.

Lemma format_version_display_cons (a : ascii) (s : string) :
  format_version_display (String a s) =
    if startswith "v" (String a s) then String a s else String "v" (String a s).
Proof.
  unfold format_version_display.
  change (negb (truthy (String a s))) with false. cbv iota.
  destruct (startswith "v" (String a s)); reflexivity.
Qed.

Lemma parse_version_cons_v (s : string) :
  parse_version (String "v" s) = parse_version s.
Proof.
  rewrite <- (parse_version_lstrip (String "v" s)).
  change (lstrip "v" (String "v" s)) with (lstrip "v" s).
  apply parse_version_lstrip.
Qed.

(** X1. The display form denotes the same version, and is "Unknown" or starts
    with "v". *)
Theorem format_version_display_keeps_version (s : string) :
  parse_version (format_version_display s) = parse_version s
  /\ (format_version_display s = "Unknown"
      \/ startswith "v" (format_version_display s) = true)
  /\ (forall t : string,
        is_newer_version (format_version_display s) t = is_newer_version s t
        /\ is_newer_version t (format_version_display s) = is_newer_version t s).
Proof.
  assert (Hparse : parse_version (format_version_display s) = parse_version s).
  { destruct s as [|a s]; [reflexivity|].
    rewrite format_version_display_cons.
    destruct (startswith "v" (String a s)); [reflexivity | apply parse_version_cons_v]. }
  split; [exact Hparse|]. split.
  - destruct s as [|a s]; [left; reflexivity|].
    right. rewrite format_version_display_cons.
    destruct (startswith "v" (String a s)) eqn:E; [exact E | reflexivity].
  - intros t. unfold is_newer_version. rewrite Hparse. split; reflexivity.
Qed.

(** X2. Leading "v"s never matter to the comparison: cleaning the two versions
    before comparing them, as the update check does, changes nothing. *)
Theorem is_newer_version_ignores_v_prefix (a b : string) :
  is_newer_version (lstrip "v" a) (lstrip "v" b) = is_newer_version a b
  /\ is_newer_version (String "v" a) b = is_newer_version a b
  /\ is_newer_version a (String "v" b) = is_newer_version a b.
Proof.
  unfold is_newer_version. rewrite !parse_version_lstrip, !parse_version_cons_v. auto.
Qed.

End VersioningMore.

(** ** The update service *)

Section UpdateServiceMore.
Import PyStr Py DateTime Versioning GitHub UpdateService.

(** *** Matching an installed plugin to the catalog *)

Lemma find_by_name_Some (same : string -> bool) (l : list repository) (p : repository) :
  find_by_name same l = Some p ->
  exists l1 l2, l = (l1 ++ p :: l2)%list /\ same (name p) = true
                /\ forall q, In q l1 -> same (name q) = false.
Proof.
  induction l as [|h l IH]; simpl; [discriminate|].
  destruct (same (name h)) eqn:E.
  - intros H. injection H as <-. exists [], l. repeat split; [exact E | intros ? []].
  - intros H. destruct (IH H) as (l1 & l2 & -> & Hp & Hbefore).
    exists (h :: l1), l2. repeat split; [exact Hp|].
    intros q [<-|Hq]; auto.
Qed.

Lemma find_by_name_None (same : string -> bool) (l : list repository) :
  find_by_name same l = None <-> forall q, In q l -> same (name q) = false.
Proof.
  induction l as [|h l IH]; simpl.
  - split; [intros _ ? [] | reflexivity].
  - destruct (same (name h)) eqn:E.
    + split; [discriminate|]. intros H. rewrite (H h (or_introl eq_refl)) in E. discriminate.
    + rewrite IH. split.
      * intros H q [<-|Hq]; auto.
      * intros H q Hq. apply H. now right.
Qed.

(** X3. [_find_available_plugin] returns an entry of the catalog that matches
    by one of its three tests; an entry with exactly the installed name is
    preferred to every other match; and nothing is returned exactly when no
    entry has the installed name or, case folded, the name without
    ".koplugin". *)
Theorem find_available_plugin_matches (plugin_name : string) (available : list repository) :
  let clean_name := replace ".koplugin" "" plugin_name in
  (forall p, _find_available_plugin plugin_name available = Some p ->
     In p available
     /\ (name p = plugin_name \/ name p = clean_name
         \/ lower (name p) = lower clean_name))
  /\ (forall q, In q available -> name q = plugin_name ->
        exists p, _find_available_plugin plugin_name available = Some p
                  /\ name p = plugin_name)
  /\ (_find_available_plugin plugin_name available = None <->
      forall q, In q available ->
        name q <> plugin_name /\ lower (name q) <> lower clean_name).
Proof.
  intros clean_name. unfold _find_available_plugin. fold clean_name.
  split; [|split].
  - intros p.
    destruct (find_by_name (String.eqb plugin_name) available) as [p1|] eqn:H1.
    { intros H. injection H as <-.
      apply find_by_name_Some in H1 as (l1 & l2 & -> & Hp & _).
      apply String.eqb_eq in Hp. split; [apply in_elt | auto]. }
    destruct (find_by_name (String.eqb clean_name) available) as [p2|] eqn:H2.
    { intros H. injection H as <-.
      apply find_by_name_Some in H2 as (l1 & l2 & -> & Hp & _).
      apply String.eqb_eq in Hp. split; [apply in_elt | auto]. }
    intros H3. apply find_by_name_Some in H3 as (l1 & l2 & -> & Hp & _).
    apply String.eqb_eq in Hp. split; [apply in_elt | auto].
  - intros q Hq Hname.
    destruct (find_by_name (String.eqb plugin_name) available) as [p1|] eqn:H1.
    + exists p1. split; [reflexivity|].
      apply find_by_name_Some in H1 as (_ & _ & _ & Hp & _).
      apply String.eqb_eq in Hp. auto.
    + rewrite find_by_name_None in H1. specialize (H1 q Hq).
      rewrite Hname, String.eqb_refl in H1. discriminate.
  - split.
    + destruct (find_by_name (String.eqb plugin_name) available) eqn:H1; [discriminate|].
      destruct (find_by_name (String.eqb clean_name) available) eqn:H2; [discriminate|].
      intros H3 q Hq.
      rewrite find_by_name_None in H1, H3.
      specialize (H1 q Hq). specialize (H3 q Hq). simpl in H3.
      apply String.eqb_neq in H1, H3. auto.
    + intros H.
      assert (H1 : find_by_name (String.eqb plugin_name) available = None).
      { apply find_by_name_None. intros q Hq. apply String.eqb_neq.
        destruct (H q Hq) as [Hn _]. auto. }
      assert (H3 : find_by_name (fun n => String.eqb (lower n) (lower clean_name)) available
                   = None).
      { apply find_by_name_None. intros q Hq. apply String.eqb_neq. apply (H q Hq). }
      assert (H2 : find_by_name (String.eqb clean_name) available = None).
      { apply find_by_name_None. intros q Hq. apply String.eqb_neq.
        intros E. destruct (H q Hq) as [_ Hl]. apply Hl. now rewrite <- E. }
      now rewrite H1, H2.
Qed.

(** *** The download address of a release *)

Lemma split_from_app (sep : ascii) (s t : string) :
  forall cur,
    split_from sep cur (s ++ String sep t) =
      (split_from sep cur s ++ split_from sep [] t)%list.
Proof.
  induction s as [|c s IH]; intros cur.
  - simpl. now rewrite Ascii.eqb_refl.
  - rewrite append_cons. simpl. destruct (Ascii.eqb c sep); [|apply IH].
    rewrite IH. reflexivity.
Qed.

Lemma split_from_length (sep : ascii) (s : string) :
  forall cur, (1 <= List.length (split_from sep cur s))%nat.
Proof.
  induction s as [|c s IH]; intros cur; simpl; [lia|].
  destruct (Ascii.eqb c sep); [simpl; lia | apply IH].
Qed.

(** The character occurs in the string. *)
Fixpoint occurs (c : ascii) (s : string) : bool :=
  match s with
  | EmptyString => false
  | String a s' => (Ascii.eqb a c || occurs c s')%bool
  end.

Lemma split_from_without (sep : ascii) (s : string) :
  forall cur,
    occurs sep s = false ->
    split_from sep cur s = [string_of_list_ascii (rev cur ++ list_ascii_of_string s)].
Proof.
  induction s as [|c s IH]; intros cur H; simpl in *.
  - now rewrite app_nil_r.
  - apply orb_false_iff in H as [Hc Hs]. rewrite Hc, (IH _ Hs). simpl.
    now rewrite <- app_assoc.
Qed.

Lemma split_without (sep : ascii) (s : string) :
  occurs sep s = false -> split sep s = [s].
Proof.
  intros H. unfold split. rewrite (split_from_without sep s [] H). simpl.
  now rewrite string_of_list_ascii_of_string.
Qed.

Lemma split_from_with (sep : ascii) (s : string) :
  forall cur, occurs sep s = true -> (2 <= List.length (split_from sep cur s))%nat.
Proof.
  induction s as [|c s IH]; intros cur H; simpl in *; [discriminate|].
  destruct (Ascii.eqb c sep); simpl in *.
  - pose proof (split_from_length sep s []). lia.
  - apply IH, H.
Qed.

Lemma index_from_end_last_two {A : Type} (l : list A) (a b : A) :
  index_from_end (l ++ [a; b]) 2 = Ret a /\ index_from_end (l ++ [a; b]) 1 = Ret b.
Proof.
  unfold index_from_end. rewrite length_app. simpl List.length.
  replace (Nat.leb 2 (List.length l + 2)) with true by (symmetry; apply Nat.leb_le; lia).
  replace (Nat.leb 1 (List.length l + 2)) with true by (symmetry; apply Nat.leb_le; lia).
  simpl andb. cbv iota.
  replace (List.length l + 2 - 2)%nat with (List.length l + 0)%nat by lia.
  replace (List.length l + 2 - 1)%nat with (List.length l + 1)%nat by lia.
  rewrite !nth_error_app2 by lia.
  replace (List.length l + 0 - List.length l)%nat with 0%nat by lia.
  replace (List.length l + 1 - List.length l)%nat with 1%nat by lia.
  split; reflexivity.
Qed.

Lemma index_from_end_short {A : Type} (l : list A) (k : nat) :
  (List.length l < k)%nat -> index_from_end l k = Raise IndexError.
Proof.
  intros H. unfold index_from_end.
  replace (Nat.leb k (List.length l)) with false by (symmetry; apply Nat.leb_gt; lia).
  now rewrite andb_false_r.
Qed.

Lemma index_from_end_in_range {A : Type} (l : list A) (k : nat) :
  (1 <= k <= List.length l)%nat -> exists x, index_from_end l k = Ret x.
Proof.
  intros [H1 H2]. unfold index_from_end.
  replace (Nat.leb 1 k) with true by (symmetry; apply Nat.leb_le; lia).
  replace (Nat.leb k (List.length l)) with true by (symmetry; apply Nat.leb_le; lia).
  simpl. destruct (nth_error l (List.length l - k)) as [x|] eqn:E; [eauto|].
  apply nth_error_None in E. lia.
Qed.

(** X4. When an asset of the release ends in ".zip", the address returned is
    that of the first such asset, whatever the page address of the release
    is; the call does not raise. *)
Theorem release_download_url_prefers_zip_asset (rel : release) (l1 l2 : list asset) (a : asset) :
  assets rel = (l1 ++ a :: l2)%list ->
  endswith ".zip" (asset_name a) = true ->
  (forall x, In x l1 -> endswith ".zip" (asset_name x) = false) ->
  _get_release_download_url rel = Ret (browser_download_url a).
Proof.
  intros Hassets Hzip Hbefore. unfold _get_release_download_url.
  assert (H : first_zip_asset (assets rel) = Some a).
  { rewrite Hassets. clear Hassets. induction l1 as [|x l1 IH]; simpl.
    - now rewrite Hzip.
    - rewrite (Hbefore x (or_introl eq_refl)). apply IH.
      intros y Hy. apply Hbefore. now right. }
  now rewrite H.
Qed.

Lemma release_download_url_prefers_zip_asset_witness :
  _get_release_download_url Scenarios.release_A =
    Ret (Some "https://github.com/alice/demo.koplugin/releases/download/v1.0.0/demo.koplugin.zip").
Proof.
  apply (release_download_url_prefers_zip_asset Scenarios.release_A [] []
           {| asset_name := "demo.koplugin.zip";
              browser_download_url :=
                Some "https://github.com/alice/demo.koplugin/releases/download/v1.0.0/demo.koplugin.zip" |}).
  - reflexivity.
  - reflexivity.
  - intros x [].
Defined.

(** X5. Without a ".zip" asset the address is put together from the last two
    segments of the page address of the release, whatever they are, and the
    tag. *)
Theorem release_download_url_from_last_segments
    (rel : release) (front owner repo : string) :
  first_zip_asset (assets rel) = None ->
  html_url rel = front ++ String "/" (owner ++ String "/" repo) ->
  occurs "/" owner = false ->
  occurs "/" repo = false ->
  _get_release_download_url rel =
    Ret (if (truthy owner && truthy repo)%bool
         then Some ("https://github.com/" ++ owner ++ "/" ++ repo
                    ++ "/archive/" ++ tag_name rel ++ ".zip")
         else None).
Proof.
  intros Hzip Hurl Howner Hrepo. unfold _get_release_download_url.
  rewrite Hzip, Hurl. unfold split.
  rewrite split_from_app, split_from_app.
  fold (split "/" owner). fold (split "/" repo).
  rewrite (split_without _ _ Howner), (split_without _ _ Hrepo).
  change ([owner] ++ [repo])%list with [owner; repo].
  destruct (index_from_end_last_two (split_from "/" [] front) owner repo) as [H2 H1].
  rewrite H2, H1. destruct (truthy owner && truthy repo)%bool; reflexivity.
Qed.

(** The page address of a release on the platform ends in
    "/releases/tag/<tag>": the address built from it names neither the owner
    nor the repository. *)
Lemma release_download_url_from_last_segments_witness :
  _get_release_download_url Scenarios.release_old =
    Ret (Some "https://github.com/tag/v0.0.0/archive/v0.0.0.zip").
Proof.
  apply (release_download_url_from_last_segments Scenarios.release_old
           "https://github.com/alice/demo.koplugin/releases" "tag" "v0.0.0");
    reflexivity.
Defined.

Lemma get_release_download_url_failure (rel : release) :
  (forall e, _get_release_download_url rel = Raise e -> e = IndexError)
  /\ ((exists e, _get_release_download_url rel = Raise e) <->
      first_zip_asset (assets rel) = None /\ occurs "/" (html_url rel) = false).
Proof.
  unfold _get_release_download_url.
  destruct (first_zip_asset (assets rel)) as [a|] eqn:Hzip.
  { split; [discriminate|]. split; [intros [e H]; discriminate | intros [H _]; discriminate]. }
  destruct (occurs "/" (html_url rel)) eqn:Hslash.
  - pose proof (split_from_with "/" (html_url rel) [] Hslash) as Hlen.
    fold (split "/" (html_url rel)) in Hlen.
    destruct (index_from_end_in_range (split "/" (html_url rel)) 2) as [o Ho]; [lia|].
    destruct (index_from_end_in_range (split "/" (html_url rel)) 1) as [r Hr]; [lia|].
    rewrite Ho, Hr.
    split; [destruct (truthy o && truthy r)%bool; discriminate|].
    split; [|intros [_ H]; discriminate].
    intros [e H]. destruct (truthy o && truthy r)%bool; discriminate.
  - rewrite (split_without _ _ Hslash), index_from_end_short by (simpl; lia).
    split; [intros e H; now injection H|].
    split; [auto | eauto].
Qed.

(** X6. [_get_release_download_url] raises exactly when no asset ends in ".zip"
    and the page address contains no "/"; what it raises is [IndexError]. *)
Theorem release_download_url_raises_iff (rel : release) :
  (forall e, _get_release_download_url rel = Raise e -> e = IndexError)
  /\ ((exists e, _get_release_download_url rel = Raise e) <->
      first_zip_asset (assets rel) = None /\ occurs "/" (html_url rel) = false).
Proof. exact (get_release_download_url_failure rel). Qed.

End UpdateServiceMore.

(** *** What the update check returns and raises *)

Section UpdateCheckMore.
Import PyStr Py DateTime Versioning GitHub UpdateService.

Lemma fallback_strategies_returns (w : World) (inst : installed_info) (plug : repository) :
  exists info,
    result (fallback_strategies w inst plug) = Ret info
    /\ ((exists ci, info = commit_update ci
                    /\ result (strategy_commit w inst (owner_login plug) (name plug))
                       = Ret (Some info))
        \/ (info = repository_update (updated_at plug)
            /\ result (strategy_commit w inst (owner_login plug) (name plug)) = Ret None
            /\ result (strategy_repository w inst plug) = Ret (Some info))
        \/ (info = no_update
            /\ result (strategy_commit w inst (owner_login plug) (name plug)) = Ret None
            /\ result (strategy_repository w inst plug) = Ret None)).
Proof.
  rewrite fallback_strategies_result.
  destruct (strategy_commit_swallows w inst (owner_login plug) (name plug)) as [[i2|] H2];
    rewrite H2.
  - exists i2. split; [reflexivity|]. left.
    pose proof H2 as H. apply strategy_commit_Some in H
      as (p & mt & c & cs & d & _ & _ & _ & _ & _ & _ & _ & ->). eauto.
  - destruct (strategy_repository_swallows w inst plug) as [[i3|] H3]; rewrite H3.
    + exists i3. split; [reflexivity|]. right; left.
      pose proof H3 as H. apply strategy_repository_Some in H as (d & _ & _ & _ & _ & ->).
      auto.
    + exists no_update. split; [reflexivity|]. right; right. auto.
Qed.

(** The result of the resolver, by the answer to the release request. *)
Lemma check_plugin_update_result (w : World) (inst : installed_info) (plug : repository) :
  result (_check_plugin_update w inst plug) =
    match http_latest_release w (owner_login plug) (name plug) with
    | Ret rel =>
        if (truthy (tag_name rel)
            && is_newer_version (lstrip "v" (dict_get (version inst) ""))
                                (lstrip "v" (tag_name rel)))%bool
        then match _get_release_download_url rel with
             | Ret url => Ret (release_update rel url)
             | Raise e => Raise e
             end
        else result (fallback_strategies w inst plug)
    | Raise _ => result (fallback_strategies w inst plug)
    end.
Proof.
  unfold _check_plugin_update. rewrite result_bind, strategy_release_spec.
  unfold result at 1. simpl.
  destruct (http_latest_release w _ _) as [rel|e]; [|reflexivity].
  destruct (truthy (tag_name rel) && _)%bool; [|reflexivity].
  destruct (_get_release_download_url rel); reflexivity.
Qed.

Lemma check_plugin_update_failure (w : World) (inst : installed_info) (plug : repository) :
  (forall e, result (_check_plugin_update w inst plug) = Raise e -> e = IndexError)
  /\ ((exists e, result (_check_plugin_update w inst plug) = Raise e) <->
      exists rel,
        http_latest_release w (owner_login plug) (name plug) = Ret rel
        /\ truthy (tag_name rel) = true
        /\ is_newer_version (lstrip "v" (dict_get (version inst) ""))
                            (lstrip "v" (tag_name rel)) = true
        /\ first_zip_asset (assets rel) = None
        /\ occurs "/" (html_url rel) = false).
Proof.
  rewrite check_plugin_update_result.
  destruct (fallback_strategies_returns w inst plug) as (info & Hinfo & _).
  destruct (http_latest_release w _ _) as [rel|e0].
  2:{ rewrite Hinfo. split; [discriminate|].
      split; [intros [e H]; discriminate | intros (rel & H & _); discriminate]. }
  destruct (truthy (tag_name rel)) eqn:Htag; simpl.
  2:{ rewrite Hinfo. split; [discriminate|].
      split; [intros [e H]; discriminate|].
      intros (rel' & H & Ht & _). injection H as <-. congruence. }
  destruct (is_newer_version _ _) eqn:Hnew.
  2:{ rewrite Hinfo. split; [discriminate|].
      split; [intros [e H]; discriminate|].
      intros (rel' & H & _ & Hn & _). injection H as <-. congruence. }
  destruct (get_release_download_url_failure rel) as [Honly Hiff].
  destruct (_get_release_download_url rel) as [url|e1] eqn:Hurl.
  - split; [discriminate|]. split; [intros [e H]; discriminate|].
    intros (rel' & H & _ & _ & Hz & Hs). injection H as <-.
    destruct (proj2 Hiff (conj Hz Hs)) as [e He]. discriminate.
  - split.
    + intros e H. injection H as <-. now apply Honly.
    + split; [|eauto]. intros _. exists rel.
      destruct (proj1 Hiff (ex_intro _ e1 eq_refl)) as [Hz Hs]. auto.
Qed.

(** *** The resolver with the failure of [int] *)

Lemma is_newer_version_checked_cases (a b : string) :
  (int_refuses a = false /\ int_refuses b = false
   /\ is_newer_version_checked a b = Ret (is_newer_version a b))
  \/ ((int_refuses a = true \/ int_refuses b = true)
      /\ exists n, (4300 < n)%nat
                   /\ is_newer_version_checked a b = Raise (PyInt.ValueError_int_limit n)).
Proof.
  rewrite is_newer_version_checked_spec.
  destruct (refusal_int_refuses a) as [Ha1 Ha2], (refusal_int_refuses b) as [Hb1 Hb2].
  destruct (refusal a) as [ea|].
  - right. split.
    + left. destruct (int_refuses a); [reflexivity|].
      pose proof (proj2 Ha1 eq_refl). discriminate.
    + destruct (Ha2 ea eq_refl) as (n & Hn & ->). eauto.
  - destruct (refusal b) as [eb|].
    + right. split.
      * right. destruct (int_refuses b); [reflexivity|].
        pose proof (proj2 Hb1 eq_refl). discriminate.
      * destruct (Hb2 eb eq_refl) as (n & Hn & ->). eauto.
    + left. split; [apply Ha1; reflexivity|]. split; [apply Hb1; reflexivity | reflexivity].
Qed.

Lemma strategy_release_checked_spec (w : World) (inst : installed_info) (owner repo : string) :
  strategy_release_checked w inst owner repo =
    ([CallLatestRelease owner repo],
     match http_latest_release w owner repo with
     | Ret rel =>
         if truthy (tag_name rel) then
           match is_newer_version_checked (lstrip "v" (dict_get (version inst) ""))
                                          (lstrip "v" (tag_name rel)) with
           | Raise e => Raise e
           | Ret true =>
               match _get_release_download_url rel with
               | Ret url => Ret (Some (release_update rel url))
               | Raise e => Raise e
               end
           | Ret false => Ret None
           end
         else Ret None
     | Raise _ => Ret None
     end).
Proof.
  unfold strategy_release_checked. rewrite get_latest_release_spec.
  destruct (http_latest_release w owner repo) as [rel|e]; simpl; [|reflexivity].
  destruct (truthy (tag_name rel)); simpl; [|reflexivity].
  destruct (is_newer_version_checked _ _) as [[|]|e]; simpl; try reflexivity.
  destruct (_get_release_download_url rel); reflexivity.
Qed.

(** Where [int] accepts the installed version and the tag of the release,
    the two forms of the resolver are the same computation. *)
Lemma check_plugin_update_checked_agrees (w : World) (inst : installed_info)
    (plug : repository) :
  (forall rel,
     http_latest_release w (owner_login plug) (name plug) = Ret rel ->
     truthy (tag_name rel) = true ->
     int_refuses (lstrip "v" (dict_get (version inst) "")) = false
     /\ int_refuses (lstrip "v" (tag_name rel)) = false) ->
  _check_plugin_update_checked w inst plug = _check_plugin_update w inst plug.
Proof.
  intros Hok. unfold _check_plugin_update_checked, _check_plugin_update.
  rewrite strategy_release_checked_spec, strategy_release_spec.
  destruct (http_latest_release w _ _) as [rel|e]; [|reflexivity].
  destruct (truthy (tag_name rel)) eqn:Htag; [|reflexivity].
  destruct (Hok rel eq_refl Htag) as [Ha Hb].
  destruct (is_newer_version_checked_cases (lstrip "v" (dict_get (version inst) ""))
              (lstrip "v" (tag_name rel)))
    as [(_ & _ & ->)|([E|E] & _)]; [|congruence|congruence].
  simpl. destruct (is_newer_version _ _); reflexivity.
Qed.

Lemma check_plugin_update_checked_result (w : World) (inst : installed_info)
    (plug : repository) :
  result (_check_plugin_update_checked w inst plug) =
    match http_latest_release w (owner_login plug) (name plug) with
    | Ret rel =>
        if truthy (tag_name rel) then
          match is_newer_version_checked (lstrip "v" (dict_get (version inst) ""))
                                         (lstrip "v" (tag_name rel)) with
          | Raise e => Raise e
          | Ret true =>
              match _get_release_download_url rel with
              | Ret url => Ret (release_update rel url)
              | Raise e => Raise e
              end
          | Ret false => result (fallback_strategies w inst plug)
          end
        else result (fallback_strategies w inst plug)
    | Raise _ => result (fallback_strategies w inst plug)
    end.
Proof.
  unfold _check_plugin_update_checked. rewrite result_bind, strategy_release_checked_spec.
  unfold result at 1. simpl.
  destruct (http_latest_release w _ _) as [rel|e]; [|reflexivity].
  destruct (truthy (tag_name rel)); [|reflexivity].
  destruct (is_newer_version_checked _ _) as [[|]|e]; try reflexivity.
  destruct (_get_release_download_url rel); reflexivity.
Qed.

Lemma check_plugin_update_checked_failure (w : World) (inst : installed_info)
    (plug : repository) :
  (forall e, result (_check_plugin_update_checked w inst plug) = Raise e ->
     e = IndexError
     \/ exists n, (4300 < n)%nat /\ e = PyInt.ValueError_int_limit n)
  /\ ((exists e, result (_check_plugin_update_checked w inst plug) = Raise e) <->
      exists rel,
        http_latest_release w (owner_login plug) (name plug) = Ret rel
        /\ truthy (tag_name rel) = true
        /\ ((int_refuses (lstrip "v" (dict_get (version inst) "")) = true
             \/ int_refuses (lstrip "v" (tag_name rel)) = true)
            \/ (is_newer_version (lstrip "v" (dict_get (version inst) ""))
                                 (lstrip "v" (tag_name rel)) = true
                /\ first_zip_asset (assets rel) = None
                /\ occurs "/" (html_url rel) = false))).
Proof.
  rewrite check_plugin_update_checked_result.
  destruct (fallback_strategies_returns w inst plug) as (info & Hinfo & _).
  destruct (http_latest_release w _ _) as [rel|e0].
  2:{ rewrite Hinfo. split; [discriminate|].
      split; [intros [e H]; discriminate | intros (rel & H & _); discriminate]. }
  destruct (truthy (tag_name rel)) eqn:Htag.
  2:{ rewrite Hinfo. split; [discriminate|].
      split; [intros [e H]; discriminate|].
      intros (rel' & H & Ht & _). injection H as <-. congruence. }
  destruct (is_newer_version_checked_cases (lstrip "v" (dict_get (version inst) ""))
              (lstrip "v" (tag_name rel)))
    as [(Ha & Hb & ->)|(Hrefused & n & Hn & ->)].
  2:{ split; [intros e [= <-]; eauto|].
      split; [intros _; exists rel; auto | eauto]. }
  destruct (is_newer_version _ _) eqn:Hnew.
  2:{ rewrite Hinfo. split; [discriminate|].
      split; [intros [e H]; discriminate|].
      intros (rel' & H & _ & [[E|E]|(Hn & _)]); injection H as <-; congruence. }
  destruct (get_release_download_url_failure rel) as [Honly Hiff].
  destruct (_get_release_download_url rel) as [url|e1] eqn:Hurl.
  - split; [discriminate|]. split; [intros [e H]; discriminate|].
    intros (rel' & H & _ & [[E|E]|(_ & Hz & Hs)]); injection H as <-; try congruence.
    destruct (proj2 Hiff (conj Hz Hs)) as [e He]. discriminate.
  - split.
    + intros e [= <-]. left. exact (Honly e1 eq_refl).
    + split; [|eauto]. intros _. exists rel.
      destruct (proj1 Hiff (ex_intro _ e1 eq_refl)) as [Hz Hs]. auto 6.
Qed.

(** X7. The resolver raises in exactly two cases, both in strategy 1, once
    the latest release is fetched with a non-empty tag: [int] refuses a digit
    run of more than 4300 characters in the installed version or in the tag,
    and the resolver raises its [ValueError]; or the release is newer than
    the installed version, none of its assets ends in ".zip" and its page
    address contains no "/", and the resolver raises [IndexError].
    Everything that fails in the two lower strategies is swallowed. *)
Theorem check_plugin_update_raises_iff (w : World) (inst : installed_info) (plug : repository) :
  (forall e, result (_check_plugin_update_checked w inst plug) = Raise e ->
     e = IndexError
     \/ exists n, (4300 < n)%nat /\ e = PyInt.ValueError_int_limit n)
  /\ ((exists e, result (_check_plugin_update_checked w inst plug) = Raise e) <->
      exists rel,
        http_latest_release w (owner_login plug) (name plug) = Ret rel
        /\ truthy (tag_name rel) = true
        /\ ((int_refuses (lstrip "v" (dict_get (version inst) "")) = true
             \/ int_refuses (lstrip "v" (tag_name rel)) = true)
            \/ (is_newer_version (lstrip "v" (dict_get (version inst) ""))
                                 (lstrip "v" (tag_name rel)) = true
                /\ first_zip_asset (assets rel) = None
                /\ occurs "/" (html_url rel) = false))).
Proof. exact (check_plugin_update_checked_failure w inst plug). Qed.

(** What the resolver returns is one of four dictionaries; the three that
    announce an update carry a version label and a type. *)
Lemma check_plugin_update_shapes (w : World) (inst : installed_info) (plug : repository)
    (info : update_info) :
  result (_check_plugin_update w inst plug) = Ret info ->
  (exists rel url, info = release_update rel url)
  \/ (exists ci, info = commit_update ci)
  \/ info = repository_update (updated_at plug)
  \/ info = no_update.
Proof.
  rewrite check_plugin_update_result.
  destruct (fallback_strategies_returns w inst plug)
    as (i & Hi & [(ci & -> & _)|[(-> & _)|(-> & _)]]).
  all: destruct (http_latest_release w _ _) as [rel|e0];
    [destruct (truthy (tag_name rel) && _)%bool;
       [destruct (_get_release_download_url rel) as [url|e1]; [|discriminate];
        intros H; injection H as <-; eauto|]|];
    rewrite Hi; intros H; injection H as <-; eauto 6.
Qed.

Lemma check_one_result (w : World) (available : list repository)
    (updates : gmap string update_entry) (item : string * installed_info) :
  result (check_one w available updates item) = Raise IndexError
  \/ result (check_one w available updates item) = Ret updates
  \/ exists p info latest type,
       _find_available_plugin (fst item) available = Some p
       /\ result (_check_plugin_update w (snd item) p) = Ret info
       /\ has_update info = true
       /\ latest_version info = Some latest
       /\ update_type info = Some type
       /\ In type ["release"; "commit"; "repository"]
       /\ result (check_one w available updates item) =
            Ret (<[fst item :=
                     {| u_installed_version := dict_get (version (snd item)) "Unknown";
                        u_latest_version := latest;
                        u_update_type := type;
                        u_download_url := download_url info;
                        u_release_notes := dict_get (release_notes info) "";
                        u_published_at := dict_get (published_at info) "" |}]> updates).
Proof.
  destruct item as [plugin_name inst]. unfold check_one. simpl fst. simpl snd.
  destruct (_find_available_plugin plugin_name available) as [p|] eqn:Hfind;
    [|right; left; reflexivity].
  rewrite result_bind.
  destruct (result (_check_plugin_update w inst p)) as [info|e] eqn:Hres.
  - destruct (check_plugin_update_shapes _ _ _ _ Hres)
      as [(rel & url & ->)|[(ci & ->)|[->| ->]]].
    + right; right. exists p. eexists. exists (tag_name rel), "release".
      repeat split; try reflexivity; simpl; auto.
    + right; right. exists p. eexists. exists (take_str 8 (latest_commit ci)), "commit".
      repeat split; try reflexivity; simpl; auto.
    + right; right. exists p. eexists. exists "Recent Update", "repository".
      repeat split; try reflexivity; simpl; auto.
    + right; left. reflexivity.
  - left. destruct (check_plugin_update_failure w inst p) as [Honly _].
    now rewrite (Honly e Hres).
Qed.

Lemma check_plugin_update_checked_shapes (w : World) (inst : installed_info)
    (plug : repository) (info : update_info) :
  result (_check_plugin_update_checked w inst plug) = Ret info ->
  (exists rel url, info = release_update rel url)
  \/ (exists ci, info = commit_update ci)
  \/ info = repository_update (updated_at plug)
  \/ info = no_update.
Proof.
  rewrite check_plugin_update_checked_result.
  assert (Hfall : result (fallback_strategies w inst plug) = Ret info ->
                  (exists rel url, info = release_update rel url)
                  \/ (exists ci, info = commit_update ci)
                  \/ info = repository_update (updated_at plug)
                  \/ info = no_update).
  { destruct (fallback_strategies_returns w inst plug)
      as (i & Hi & [(ci & -> & _)|[(-> & _)|(-> & _)]]);
      rewrite Hi; intros H; injection H as <-; eauto 6. }
  destruct (http_latest_release w _ _) as [rel|e0]; [|exact Hfall].
  destruct (truthy (tag_name rel)); [|exact Hfall].
  destruct (is_newer_version_checked _ _) as [[|]|e]; [|exact Hfall|discriminate].
  destruct (_get_release_download_url rel) as [url|e1]; [|discriminate].
  intros H. injection H as <-. eauto.
Qed.

Lemma check_one_checked_raises (w : World) (available : list repository)
    (updates : gmap string update_entry) (item : string * installed_info) (e : exn) :
  result (check_one_checked w available updates item) = Raise e ->
  e = IndexError \/ exists n, (4300 < n)%nat /\ e = PyInt.ValueError_int_limit n.
Proof.
  destruct item as [plugin_name inst]. unfold check_one_checked.
  destruct (_find_available_plugin plugin_name available) as [p|]; [|discriminate].
  rewrite result_bind.
  destruct (result (_check_plugin_update_checked w inst p)) as [info|e'] eqn:Hres.
  - destruct (check_plugin_update_checked_shapes _ _ _ _ Hres)
      as [(rel & url & ->)|[(ci & ->)|[->| ->]]]; discriminate.
  - intros [= <-]. exact (proj1 (check_plugin_update_checked_failure w inst p) e' Hres).
Qed.

(** X8. The only exceptions that leave [check_for_updates] are the
    [IndexError] of [_get_release_download_url] and the [ValueError] of
    [int] on a digit run of more than 4300 characters: the lookups of
    "latest_version" and "update_type" in the dictionary of the resolver
    never fail. *)
Theorem check_for_updates_raises_index_or_value_error (w : World)
    (installed : list (string * installed_info)) (available : list repository) (e : exn) :
  result (check_for_updates_checked w installed available) = Raise e ->
  e = IndexError \/ exists n, (4300 < n)%nat /\ e = PyInt.ValueError_int_limit n.
Proof.
  unfold check_for_updates_checked. generalize (∅ : gmap string update_entry).
  induction installed as [|item items IH]; intros updates; simpl.
  - discriminate.
  - rewrite result_bind.
    destruct (result (check_one_checked w available updates item)) as [updates'|e'] eqn:Hone.
    + apply IH.
    + intros [= <-]. exact (check_one_checked_raises w available updates item e' Hone).
Qed.

(** The theorem at a release whose tag is a run of 4301 digits, where the
    check raises [ValueError], and at the release without archive and
    without page address, where it raises [IndexError]. *)
Lemma check_for_updates_raises_index_or_value_error_witness :
  let long_tag :=
    Scenarios.world_of
      (Ret (Scenarios.release_tagged (nines 4301)
              "https://github.com/alice/demo.koplugin/releases/tag/9" []))
      (Raise Scenarios.http_404) None in
  let installed := [("demo.koplugin", Scenarios.installed_with "1.0")] in
  (result (check_for_updates_checked long_tag installed [Scenarios.demo_plugin])
   = Raise (PyInt.ValueError_int_limit 4301)
   /\ (PyInt.ValueError_int_limit 4301 = IndexError
       \/ exists n, (4300 < n)%nat
                    /\ PyInt.ValueError_int_limit 4301 = PyInt.ValueError_int_limit n))
  /\ (result (check_for_updates_checked Scenarios.world_bare_release installed
                [Scenarios.demo_plugin])
      = Raise IndexError
      /\ (IndexError = IndexError
          \/ exists n, (4300 < n)%nat /\ IndexError = PyInt.ValueError_int_limit n)).
Proof.
  intros long_tag installed. split.
  - split; [vm_compute; reflexivity|].
    apply (check_for_updates_raises_index_or_value_error long_tag installed
             [Scenarios.demo_plugin]).
    vm_compute. reflexivity.
  - split; [vm_compute; reflexivity|].
    apply (check_for_updates_raises_index_or_value_error Scenarios.world_bare_release
             installed [Scenarios.demo_plugin]).
    vm_compute. reflexivity.
Defined.

Lemma check_loop_entries (w : World) (available : list repository)
    (items : list (string * installed_info)) :
  forall updates updates' : gmap string update_entry,
    result (check_loop w available items updates) = Ret updates' ->
    forall (k : string) (entry : update_entry),
      updates' !! k = Some entry ->
      updates !! k = Some entry
      \/ exists inst p,
           In (k, inst) items
           /\ _find_available_plugin k available = Some p
           /\ u_installed_version entry = dict_get (version inst) "Unknown"
           /\ In (u_update_type entry) ["release"; "commit"; "repository"].
Proof.
  induction items as [|item items IH]; intros updates updates'; simpl.
  - intros H. injection H as <-. auto.
  - rewrite result_bind.
    destruct (check_one_result w available updates item)
      as [H|[H|(p & info & latest & type & Hfind & _ & _ & _ & _ & Htype & H)]];
      rewrite H; [discriminate| |].
    + intros Hloop k entry Hk.
      destruct (IH _ _ Hloop k entry Hk) as [Hold|(inst & q & Hin & Hrest)]; [auto|].
      right. exists inst, q. split; [now right | exact Hrest].
    + intros Hloop k entry Hk.
      destruct (IH _ _ Hloop k entry Hk) as [Hnew|(inst & q & Hin & Hrest)].
      * destruct (decide (fst item = k)) as [<-|Hne].
        -- rewrite lookup_insert_eq in Hnew. injection Hnew as <-.
           right. exists (snd item), p. destruct item. simpl in *. auto.
        -- rewrite lookup_insert_ne in Hnew by exact Hne. auto.
      * right. exists inst, q. split; [now right | exact Hrest].
Qed.

(** X9. Every entry of the dictionary [check_for_updates] returns belongs to an
    installed plugin that has a match in the catalog, records the installed
    version of such a plugin, and has one of the three update types. *)
Theorem check_for_updates_entries (w : World)
    (installed : list (string * installed_info)) (available : list repository)
    (updates : gmap string update_entry) (k : string) (entry : update_entry) :
  result (check_for_updates w installed available) = Ret updates ->
  updates !! k = Some entry ->
  exists inst p,
    In (k, inst) installed
    /\ _find_available_plugin k available = Some p
    /\ u_installed_version entry = dict_get (version inst) "Unknown"
    /\ In (u_update_type entry) ["release"; "commit"; "repository"].
Proof.
  intros Hres Hk. unfold check_for_updates in Hres.
  destruct (check_loop_entries w available installed ∅ updates Hres k entry Hk) as [H|H].
  - rewrite lookup_empty in H. discriminate.
  - exact H.
Qed.

End UpdateCheckMore.

Section UpdateTiersMore.
Import PyStr Py DateTime Versioning GitHub UpdateService.

(** The theorem at scenario A: the one entry belongs to the installed
    plugin and has type "release". *)
Lemma check_for_updates_entries_witness :
  exists inst p,
    In ("demo.koplugin", inst) [("demo.koplugin", Scenarios.installed_with "0.9")]
    /\ _find_available_plugin "demo.koplugin" [Scenarios.demo_plugin] = Some p
    /\ "0.9" = dict_get (version inst) "Unknown"
    /\ In "release" ["release"; "commit"; "repository"].
Proof.
  apply (check_for_updates_entries Scenarios.world_A
           [("demo.koplugin", Scenarios.installed_with "0.9")] [Scenarios.demo_plugin]
           (<["demo.koplugin" :=
                {| u_installed_version := "0.9";
                   u_latest_version := "v1.0.0";
                   u_update_type := "release";
                   u_download_url :=
                     Some "https://github.com/alice/demo.koplugin/releases/download/v1.0.0/demo.koplugin.zip";
                   u_release_notes := "notes";
                   u_published_at := "2024-01-09T12:00:00Z" |}]> ∅)
           "demo.koplugin"
           {| u_installed_version := "0.9";
              u_latest_version := "v1.0.0";
              u_update_type := "release";
              u_download_url :=
                Some "https://github.com/alice/demo.koplugin/releases/download/v1.0.0/demo.koplugin.zip";
              u_release_notes := "notes";
              u_published_at := "2024-01-09T12:00:00Z" |}).
  - vm_compute. reflexivity.
  - apply lookup_insert_eq.
Defined.

(** X10. When the date of the newest commit parses to an aware value, as every
    date with an offset or a "Z" does, strategy 2 returns nothing and the
    resolver never returns an update of type "commit", however old the
    installed copy is. *)
Theorem aware_commit_date_never_updates (w : World) (inst : installed_info) (plug : repository) :
  (forall c cs d,
      http_commits w (owner_login plug) (name plug) = Ret (c :: cs) ->
      fromisoformat w (replace "Z" "+00:00" (committer_date c)) = Ret d ->
      utcoffset d <> None) ->
  result (strategy_commit w inst (owner_login plug) (name plug)) = Ret None
  /\ forall info, result (_check_plugin_update w inst plug) = Ret info ->
                  update_type info <> Some "commit".
Proof.
  intros Haware.
  assert (Hnone : result (strategy_commit w inst (owner_login plug) (name plug)) = Ret None).
  { destruct (strategy_commit_swallows w inst (owner_login plug) (name plug)) as [[i|] Hr];
      [|exact Hr].
    apply strategy_commit_Some in Hr
      as (p & mtime & c & cs & d & _ & _ & _ & _ & Hc & Hd & Hg & _).
    apply gt_fromtimestamp in Hg as [Hnaive _].
    destruct (Haware c cs d Hc Hd Hnaive). }
  split; [exact Hnone|].
  intros info. rewrite check_plugin_update_result.
  destruct (fallback_strategies_returns w inst plug)
    as (i & Hi & [(ci & -> & Hc)|[(-> & _)|(-> & _)]]); [congruence| |].
  all: destruct (http_latest_release w _ _) as [rel|e0];
    [destruct (truthy (tag_name rel) && _)%bool;
       [destruct (_get_release_download_url rel) as [url|e1]; [|discriminate];
        intros H; injection H as <-; discriminate|]|];
    rewrite Hi; intros H; injection H as <-; discriminate.
Qed.

Lemma aware_commit_date_never_updates_witness :
  result (strategy_commit Scenarios.world_commit_only (Scenarios.installed_with "1.0")
            "alice" "demo.koplugin") = Ret None.
Proof.
  refine (proj1 (aware_commit_date_never_updates Scenarios.world_commit_only
                   (Scenarios.installed_with "1.0") Scenarios.demo_plugin _)).
  intros c cs d Hc Hd. simpl in Hc. injection Hc as <- <-.
  vm_compute in Hd. injection Hd as <-. discriminate.
Defined.



(** X12. The methods of the API layer swallow every failure of a request: each
    makes its request and returns a value.  The commit summary is [None]
    exactly when the listing fails or is empty, and otherwise names the
    first commit of the listing. *)
Theorem api_layer_never_raises (w : World) (owner repo branch : string)
    (topic : option string) (name_patterns : option (list string)) :
  (exists r, get_latest_release w owner repo = ([CallLatestRelease owner repo], Ret r))
  /\ (exists r, get_repository_commits w owner repo = ([CallCommits owner repo], Ret r)
                /\ (r = None <->
                    (exists e, http_commits w owner repo = Raise e)
                    \/ http_commits w owner repo = Ret [])
                /\ (forall ci, r = Some ci ->
                      exists c cs, http_commits w owner repo = Ret (c :: cs)
                                   /\ latest_commit ci = sha c
                                   /\ latest_commit_date ci = committer_date c
                                   /\ commit_count ci = List.length (c :: cs)))
  /\ (exists r, result (search_repositories w topic name_patterns) = Ret r)
  /\ (exists r, result (download_repository_zip w owner repo branch) = Ret r)
  /\ (exists r, get_patch_files w owner repo = ([CallContents owner repo], Ret r)).
Proof.
  split; [|split; [|split; [|split]]].
  - rewrite get_latest_release_spec.
    destruct (http_latest_release w owner repo); eauto.
  - unfold get_repository_commits, try_except, bind, perform, ret.
    destruct (http_commits w owner repo) as [[|c cs]|e]; simpl; eexists;
      (split; [reflexivity|]); split.
    + split; auto.
    + discriminate.
    + split; [discriminate|]. intros [[e H]|H]; discriminate.
    + intros ci H. injection H as <-. exists c, cs. auto.
    + split; eauto.
    + discriminate.
  - rewrite search_repositories_spec. eauto.
  - rewrite download_repository_zip_spec.
    destruct (release_content w owner repo); [eauto|].
    destruct (fetched w (archive_url owner repo branch)); eauto.
  - rewrite get_patch_files_spec. eauto.
Qed.

End UpdateTiersMore.

(** ** The catalog *)

Section CatalogMore.
Import PyStr Py GitHub.

Lemma classify_plugin (n : string) :
  classify n = Some "plugin" <->
  contains "koplugin" n = true \/ endswith "plugin" n = true \/ endswith "plugins" n = true.
Proof.
  unfold classify.
  destruct (contains "koplugin" n); [split; auto|].
  destruct (endswith "plugin" n); [split; auto|].
  destruct (endswith "plugins" n); [split; auto|]. simpl.
  destruct (contains "patch" n || contains "patches" n)%bool;
    (split; [discriminate | intros [H|[H|H]]; discriminate]).
Qed.

Lemma classify_patch (n : string) :
  classify n = Some "patch" <->
  contains "patch" n = true
  /\ contains "koplugin" n = false /\ endswith "plugin" n = false
  /\ endswith "plugins" n = false.
Proof.
  unfold classify.
  destruct (contains "koplugin" n);
    [split; [discriminate | intros (_ & H & _); discriminate]|].
  destruct (endswith "plugin" n);
    [split; [discriminate | intros (_ & _ & H & _); discriminate]|].
  destruct (endswith "plugins" n);
    [split; [discriminate | intros (_ & _ & _ & H); discriminate]|].
  simpl. destruct (contains "patch" n) eqn:Hp; simpl; [split; auto|].
  destruct (contains "patches" n) eqn:Hps.
  - apply (contains_prefix "patch" "es") in Hps. congruence.
  - split; [discriminate | intros (H & _); discriminate].
Qed.

Lemma classify_values (n t : string) :
  classify n = Some t -> t = "plugin" \/ t = "patch".
Proof.
  unfold classify.
  destruct (_ || _ || _)%bool; [intros H; injection H as <-; auto|].
  destruct (_ || _)%bool; [intros H; injection H as <-; auto | discriminate].
Qed.

(** X13. Every entry of the catalog carries the type its lower-cased name gives
    it: "plugin" when the name contains "koplugin" or ends in "plugin" or
    "plugins", and then the entry has passed the cheap filter; "patch" when
    the name contains "patch" and is no plugin name.  A name that is both is
    a plugin. *)
Theorem catalog_entries_are_classified (w : World) (topic : option string)
    (name_patterns : option (list string)) (catalog : list repository) (e : repository) :
  result (search_repositories w topic name_patterns) = Ret catalog ->
  In e catalog ->
  (repo_type e = Some "plugin"
   /\ (contains "koplugin" (lower (name e)) = true
       \/ endswith "plugin" (lower (name e)) = true
       \/ endswith "plugins" (lower (name e)) = true)
   /\ fst (is_fast_path_valid_plugin e) = true)
  \/ (repo_type e = Some "patch"
      /\ contains "patch" (lower (name e)) = true
      /\ contains "koplugin" (lower (name e)) = false
      /\ endswith "plugin" (lower (name e)) = false
      /\ endswith "plugins" (lower (name e)) = false).
Proof.
  rewrite search_repositories_spec. intros H He. injection H as <-.
  apply list_elem_of_In, list_elem_of_omap in He as (r & _ & Hkeep).
  apply keep_Some in Hkeep as (t & Hclass & -> & Hfast).
  destruct (classify_values _ _ Hclass) as [-> | ->].
  - left. split; [reflexivity|]. split; [now apply classify_plugin|].
    rewrite is_fast_path_valid_plugin_retyped. now apply Hfast.
  - right. split; [reflexivity|]. now apply classify_patch.
Qed.

Lemma catalog_entries_are_classified_witness :
  (repo_type (set_repo_type Scenarios.patches_repo "patch") = Some "plugin"
   /\ (contains "koplugin" (lower (name (set_repo_type Scenarios.patches_repo "patch"))) = true
       \/ endswith "plugin" (lower (name (set_repo_type Scenarios.patches_repo "patch"))) = true
       \/ endswith "plugins" (lower (name (set_repo_type Scenarios.patches_repo "patch"))) = true)
   /\ fst (is_fast_path_valid_plugin (set_repo_type Scenarios.patches_repo "patch")) = true)
  \/ (repo_type (set_repo_type Scenarios.patches_repo "patch") = Some "patch"
      /\ contains "patch" (lower (name (set_repo_type Scenarios.patches_repo "patch"))) = true
      /\ contains "koplugin" (lower (name (set_repo_type Scenarios.patches_repo "patch"))) = false
      /\ endswith "plugin" (lower (name (set_repo_type Scenarios.patches_repo "patch"))) = false
      /\ endswith "plugins" (lower (name (set_repo_type Scenarios.patches_repo "patch"))) = false).
Proof.
  apply (catalog_entries_are_classified Scenarios.world_two_queries
           (Some "koreader-plugin") (Some ["koplugin"; "plugin"])
           [set_repo_type Scenarios.reader_first "plugin";
            set_repo_type Scenarios.patches_repo "patch"]).
  - vm_compute. reflexivity.
  - right. left. reflexivity.
Defined.

(** X14. A repository seen for the first time whose name makes it a patch is
    kept, whatever its topics and description are: the cheap filter is not
    applied to it. *)
Theorem patch_repositories_bypass_filter (w : World) (topic : option string)
    (name_patterns : option (list string)) (r : repository) :
  In r (first_seen ∅ (stream w (build_queries topic name_patterns))) ->
  classify (lower (name r)) = Some "patch" ->
  exists catalog,
    result (search_repositories w topic name_patterns) = Ret catalog
    /\ In (set_repo_type r "patch") catalog.
Proof.
  intros Hfirst Hclass. rewrite search_repositories_spec. eexists.
  split; [reflexivity|].
  apply list_elem_of_In, list_elem_of_omap. exists r.
  split; [now apply list_elem_of_In|].
  unfold keep. now rewrite Hclass.
Qed.

(** A repository named "Monkey-Patch-Utils" with no topic and no
    description is kept as a patch. *)
Lemma patch_repositories_bypass_filter_witness :
  let unrelated := {| id := 99; name := "Monkey-Patch-Utils"; owner_login := "carol";
                      description := None; topics := [];
                      updated_at := "2024-01-10T00:00:00Z"; repo_type := None |} in
  let w := {| http_latest_release := fun _ _ => Raise Scenarios.http_404;
              http_commits := fun _ _ => Raise Scenarios.http_404;
              http_search := fun _ => Ret [unrelated];
              http_releases := fun _ _ => Raise Scenarios.http_404;
              http_contents := fun _ _ => Raise Scenarios.http_404;
              http_download := fun _ => Raise Scenarios.http_404;
              http_text := fun _ => Raise Scenarios.http_404;
              unzip := fun _ => Raise Scenarios.http_404;
              path_exists := fun _ => Ret false;
              st_mtime := fun _ => Raise Scenarios.no_such_file;
              fromisoformat := DateTime.fromisoformat_seconds;
              utc_now := Scenarios.jan_12;
              local_offset := 0 |} in
  exists catalog,
    result (search_repositories w None (Some ["patch"])) = Ret catalog
    /\ In (set_repo_type unrelated "patch") catalog.
Proof.
  intros unrelated w.
  apply (patch_repositories_bypass_filter w None (Some ["patch"]) unrelated).
  - vm_compute. left. reflexivity.
  - vm_compute. reflexivity.
Defined.

(** X15. The search makes one request per query, in the order topic first, then
    the name patterns, whether or not earlier requests failed; a query whose
    request fails changes nothing: the catalog is the one of the same search
    with that query answered by the empty list. *)
Theorem search_requests_every_query (w : World) (topic : option string)
    (name_patterns : option (list string)) :
  calls (search_repositories w topic name_patterns) =
    List.map CallSearch (build_queries topic name_patterns)
  /\ List.length (build_queries topic name_patterns) =
       ((match topic with
         | Some (String _ _) => 1
         | _ => 0
         end)
        + List.length (dict_get name_patterns []))%nat
  /\ forall w' : World,
       (forall q, http_search w' q =
                  match http_search w q with
                  | Ret items => Ret items
                  | Raise _ => Ret []
                  end) ->
       result (search_repositories w' topic name_patterns) =
       result (search_repositories w topic name_patterns).
Proof.
  rewrite search_repositories_spec. split; [reflexivity|]. split.
  - unfold build_queries. rewrite length_app.
    destruct topic as [[|c t]|], name_patterns as [ps|]; simpl;
      rewrite ?length_map; reflexivity.
  - intros w' Hw'. rewrite search_repositories_spec. unfold result. simpl.
    do 3 f_equal. unfold stream.
    induction (build_queries topic name_patterns) as [|q qs IH]; [reflexivity|].
    simpl. rewrite IH. f_equal. unfold answer. rewrite Hw'.
    destruct (http_search w q); reflexivity.
Qed.

End CatalogMore.

(** ** The install worker *)

Section WorkerMore.
Import PyStr Py GitHub FS DownloadWorker.

(** *** Signals *)

Definition is_progress (s : signal) : bool :=
  match s with
  | Progress _ => true
  | Finished _ _ => false
  end.

(** A step that emits progress messages at most. *)
Definition quiet {A : Type} (m : W A) : Prop :=
  forall st, exists messages,
    forallb is_progress messages = true
    /\ emitted (fst (m st)) = (emitted st ++ messages)%list.

(** A step that, when it returns, has emitted progress messages and then
    one terminal signal, and when it raises, progress messages only. *)
Definition terminal {A : Type} (m : W A) : Prop :=
  forall st, exists messages,
    forallb is_progress messages = true
    /\ match snd (m st) with
       | Ret _ => exists ok text,
           emitted (fst (m st)) = (emitted st ++ messages ++ [Finished ok text])%list
       | Raise _ => emitted (fst (m st)) = (emitted st ++ messages)%list
       end.

Lemma quiet_wret {A : Type} (a : A) : quiet (wret a).
Proof. intros st. exists []. split; [reflexivity|]. simpl. now rewrite app_nil_r. Qed.

Lemma quiet_api {A : Type} (m : M A) : quiet (api m).
Proof. intros st. exists []. split; [reflexivity|]. simpl. now rewrite app_nil_r. Qed.

Lemma quiet_fs_read {A : Type} (f : node -> A) : quiet (fs_read f).
Proof. intros st. exists []. split; [reflexivity|]. simpl. now rewrite app_nil_r. Qed.

Lemma quiet_fs_op (op : node -> outcome node) : quiet (fs_op op).
Proof.
  intros st. exists []. split; [reflexivity|]. unfold fs_op.
  destruct (op (fs st)); simpl; now rewrite app_nil_r.
Qed.

Lemma quiet_progress (text : string) : quiet (emit (Progress text)).
Proof. intros st. exists [Progress text]. split; reflexivity. Qed.

Lemma quiet_wbind {A B : Type} (m : W A) (k : A -> W B) :
  quiet m -> (forall a, quiet (k a)) -> quiet (wbind m k).
Proof.
  intros Hm Hk st. unfold wbind. destruct (Hm st) as (m1 & H1 & E1).
  destruct (m st) as [st1 [a|e]]; simpl in *.
  - destruct (Hk a st1) as (m2 & H2 & E2). exists (m1 ++ m2)%list. split.
    + rewrite forallb_app, H1, H2. reflexivity.
    + rewrite E2, E1, app_assoc. reflexivity.
  - exists m1. auto.
Qed.

Lemma terminal_finished (ok : bool) (text : string) : terminal (emit (Finished ok text)).
Proof. intros st. exists []. split; [reflexivity|]. simpl. eauto. Qed.

Lemma terminal_wbind {A B : Type} (m : W A) (k : A -> W B) :
  quiet m -> (forall a, terminal (k a)) -> terminal (wbind m k).
Proof.
  intros Hm Hk st. unfold wbind. destruct (Hm st) as (m1 & H1 & E1).
  destruct (m st) as [st1 [a|e]]; simpl in *.
  - destruct (Hk a st1) as (m2 & H2 & E2). exists (m1 ++ m2)%list. split.
    + rewrite forallb_app, H1, H2. reflexivity.
    + destruct (snd (k a st1)).
      * destruct E2 as (ok & text & E2). exists ok, text.
        rewrite E2, E1, <- !app_assoc. reflexivity.
      * rewrite E2, E1, app_assoc. reflexivity.
  - exists m1. auto.
Qed.

Lemma quiet_write_patches (w : World) (patch_dir : path) (patches : list patch) :
  quiet (write_patches w patch_dir patches).
Proof.
  induction patches as [|p patches IH]; simpl.
  - apply quiet_wret.
  - apply quiet_wbind; [apply quiet_api|]. intros text.
    apply quiet_wbind; [apply quiet_fs_op|]. intros _. exact IH.
Qed.

Lemma terminal_install_plugin (w : World) (self : worker) (repo content : string) :
  terminal (install_plugin w self repo content).
Proof.
  unfold install_plugin.
  apply terminal_wbind; [apply quiet_fs_op|]. intros _.
  apply terminal_wbind; [apply quiet_fs_op|]. intros _.
  apply terminal_wbind; [apply quiet_progress|]. intros _.
  apply terminal_wbind; [apply quiet_api|]. intros members.
  apply terminal_wbind; [apply quiet_fs_op|]. intros _.
  apply terminal_wbind; [apply quiet_progress|]. intros _.
  apply terminal_wbind; [apply quiet_fs_read|]. intros [plugin_dir|].
  - apply terminal_wbind; [apply quiet_progress|]. intros _.
    apply terminal_wbind; [apply quiet_fs_read|]. intros present.
    apply terminal_wbind.
    { destruct present; [apply quiet_fs_op | apply quiet_wret]. }
    intros _.
    apply terminal_wbind; [apply quiet_fs_op|]. intros _.
    apply terminal_wbind; [apply quiet_fs_op|]. intros _.
    destruct (is_update self); apply terminal_finished.
  - apply terminal_finished.
Qed.

(** X20. A run of the worker never raises.  For a plugin or a patch it emits
    progress messages followed by exactly one terminal signal, which is its
    last signal; for any other item type it emits nothing and changes
    nothing. *)
Theorem run_emits_one_terminal_signal (w : World) (self : worker) (st : wstate) :
  snd (run w self st) = Ret tt
  /\ (item_type self = "plugin" \/ item_type self = "patch" ->
      exists messages ok text,
        forallb is_progress messages = true
        /\ emitted (fst (run w self st)) =
             (emitted st ++ messages ++ [Finished ok text])%list)
  /\ (item_type self <> "plugin" -> item_type self <> "patch" ->
      fst (run w self st) = st).
Proof.
  assert (Hbody : forall body : W unit,
             terminal body ->
             snd (wtry body (fun e => emit (Finished false ("Error: " ++ exn_msg e))) st)
               = Ret tt
             /\ exists messages ok text,
                  forallb is_progress messages = true
                  /\ emitted (fst (wtry body
                                     (fun e => emit (Finished false ("Error: " ++ exn_msg e)))
                                     st)) =
                       (emitted st ++ messages ++ [Finished ok text])%list).
  { intros body Hterm. unfold wtry. destruct (Hterm st) as (messages & Hm & E).
    destruct (body st) as [st1 [[]|e]]; simpl in *.
    - split; [reflexivity|]. destruct E as (ok & text & E). eauto.
    - split; [reflexivity|]. exists messages. do 2 eexists. split; [exact Hm|].
      rewrite E, <- app_assoc. reflexivity. }
  unfold run.
  destruct (String.eqb_spec (item_type self) "plugin") as [Hplugin|Hplugin].
  - edestruct Hbody as [Hret Hsig]; [|split; [exact Hret|split; [intros _; exact Hsig|]]].
    + apply terminal_wbind; [apply quiet_progress|]. intros _.
      apply terminal_wbind; [apply quiet_api|]. intros [[|c rest]|].
      * apply terminal_finished.
      * apply terminal_install_plugin.
      * apply terminal_finished.
    + intros H. contradiction.
  - destruct (String.eqb_spec (item_type self) "patch") as [Hpatch|Hpatch].
    + edestruct Hbody as [Hret Hsig]; [|split; [exact Hret|split; [intros _; exact Hsig|]]].
      * apply terminal_wbind; [apply quiet_api|]. intros [|p patches].
        -- apply terminal_finished.
        -- apply terminal_wbind; [apply quiet_progress|]. intros _.
           apply terminal_wbind; [apply quiet_fs_op|]. intros _.
           apply terminal_wbind; [apply quiet_write_patches|]. intros _.
           apply terminal_finished.
      * intros _ H. contradiction.
    + split; [reflexivity|]. split; [intros [H|H]; contradiction|]. reflexivity.
Qed.

End WorkerMore.

(** *** Looking up what an operation wrote *)

Section FileSystemFacts.
Import Py FS.

Lemma assoc_set_entry_same (name : string) (c : node) (es : list (string * node)) :
  assoc name (set_entry name c es) = Some c.
Proof.
  induction es as [|[n c'] es IH]; simpl.
  - now rewrite String.eqb_refl.
  - destruct (String.eqb n name) eqn:E; simpl; rewrite E; [reflexivity | exact IH].
Qed.

Lemma assoc_set_entry_other (a b : string) (c : node) (es : list (string * node)) :
  a <> b -> assoc b (set_entry a c es) = assoc b es.
Proof.
  intros Hne. induction es as [|[n c'] es IH]; simpl.
  - destruct (String.eqb_spec a b); [contradiction | reflexivity].
  - destruct (String.eqb_spec n a) as [->|Hna]; simpl.
    + destruct (String.eqb_spec a b); [contradiction | reflexivity].
    + destruct (String.eqb n b); [reflexivity | exact IH].
Qed.

Lemma assoc_remove_entry_other (a b : string) (es : list (string * node)) :
  a <> b -> assoc b (remove_entry a es) = assoc b es.
Proof.
  intros Hne. induction es as [|[n c'] es IH]; simpl; [reflexivity|].
  destruct (String.eqb_spec n a) as [->|Hna]; simpl.
  - destruct (String.eqb_spec a b); [contradiction | reflexivity].
  - destruct (String.eqb n b); [reflexivity | exact IH].
Qed.

Lemma lookup_nil_dir (p : path) : p <> [] -> lookup p (Dir []) = None.
Proof. destruct p; [contradiction | reflexivity]. Qed.

(** What [f] put at [p] is found there afterwards. *)
Lemma lookup_alter_at_same (parents : bool) (whole : path)
    (f : option node -> outcome (option node)) (p : path) :
  forall root root',
    alter_at parents whole p f root = Ret root' ->
    exists r, f (lookup p root) = Ret r
              /\ forall n, r = Some n -> lookup p root' = Some n.
Proof.
  induction p as [|name p IH]; intros root root'; simpl.
  - destruct (f (Some root)) as [[n|]|e] eqn:Hf; try discriminate.
    intros H. injection H as <-. exists (Some n). split; [reflexivity|].
    intros n' E. exact E.
  - destruct root as [content|es]; [discriminate|].
    destruct p as [|name' p'].
    + destruct (f (assoc name es)) as [[n|]|e] eqn:Hf; try discriminate.
      * intros H. injection H as <-. exists (Some n). simpl.
        destruct (assoc name es); (split; [exact Hf|]);
          intros n' E; injection E as <-; now rewrite assoc_set_entry_same.
      * intros H. injection H as <-. exists None. simpl.
        destruct (assoc name es); (split; [exact Hf | discriminate]).
    + destruct (assoc name es) as [c|] eqn:Hc.
      * destruct (alter_at parents whole (name' :: p') f c) as [c'|e] eqn:Hrec;
          [|discriminate].
        intros H. injection H as <-.
        destruct (IH _ _ Hrec) as (r & Hf & Hr). exists r. split; [exact Hf|].
        intros n E. cbn [lookup]. rewrite assoc_set_entry_same. now apply Hr.
      * destruct parents; [|discriminate].
        destruct (alter_at true whole (name' :: p') f (Dir [])) as [c'|e] eqn:Hrec;
          [|discriminate].
        intros H. injection H as <-.
        destruct (IH _ _ Hrec) as (r & Hf & Hr).
        rewrite lookup_nil_dir in Hf by discriminate.
        exists r. split; [exact Hf|].
        intros n E. cbn [lookup]. rewrite assoc_set_entry_same. now apply Hr.
Qed.

(** A path that leaves the altered one at some component is not affected. *)
Lemma lookup_alter_at_diverge (parents : bool) (whole : path)
    (f : option node -> outcome (option node)) (common : path) :
  forall (a b : string) (p1 q1 : path) (root root' : node),
    a <> b ->
    alter_at parents whole (common ++ a :: p1)%list f root = Ret root' ->
    lookup (common ++ b :: q1)%list root' = lookup (common ++ b :: q1)%list root.
Proof.
  induction common as [|x common IH]; intros a b p1 q1 root root' Hne.
  - simpl. destruct root as [content|es]; [discriminate|].
    destruct p1 as [|name' p'].
    + destruct (f (assoc a es)) as [[n|]|e]; try discriminate;
        intros H; injection H as <-.
      * now rewrite assoc_set_entry_other.
      * now rewrite assoc_remove_entry_other.
    + destruct (assoc a es) as [c|].
      * destruct (alter_at parents whole (name' :: p') f c); [|discriminate].
        intros H. injection H as <-. now rewrite assoc_set_entry_other.
      * destruct parents; [|discriminate].
        destruct (alter_at true whole (name' :: p') f (Dir [])); [|discriminate].
        intros H. injection H as <-. now rewrite assoc_set_entry_other.
  - rewrite <- !app_comm_cons. cbn [alter_at lookup].
    destruct root as [content|es]; [discriminate|].
    destruct (common ++ a :: p1)%list as [|y rest] eqn:Hrest.
    { destruct common; discriminate. }
    rewrite <- Hrest.
    destruct (assoc x es) as [c|] eqn:Hc.
    + destruct (alter_at parents whole (common ++ a :: p1)%list f c) as [c'|e] eqn:Hrec;
        [|discriminate].
      intros H. injection H as <-. rewrite assoc_set_entry_same.
      exact (IH a b p1 q1 c c' Hne Hrec).
    + destruct parents; [|discriminate].
      destruct (alter_at true whole (common ++ a :: p1)%list f (Dir [])) as [c'|e] eqn:Hrec;
        [|discriminate].
      intros H. injection H as <-. rewrite assoc_set_entry_same.
      rewrite (IH a b p1 q1 (Dir []) c' Hne Hrec).
      apply lookup_nil_dir. destruct common; discriminate.
Qed.

Lemma write_file_lookup (p : path) (content : string) (root root' : node) :
  write_file p content root = Ret root' -> lookup p root' = Some (File content).
Proof.
  intros H. apply lookup_alter_at_same in H as (r & Hf & Hr).
  apply Hr. destruct (lookup p root) as [[c|es]|]; try discriminate; now injection Hf.
Qed.

Lemma write_file_sibling (d : path) (a b content : string) (root root' : node) :
  a <> b ->
  write_file (d ++ [a])%list content root = Ret root' ->
  lookup (d ++ [b])%list root' = lookup (d ++ [b])%list root.
Proof. intros Hne H. exact (lookup_alter_at_diverge _ _ _ d a b [] [] root root' Hne H). Qed.

End FileSystemFacts.

Section WorkerWrites.
Import PyStr Py GitHub FS DownloadWorker.





End WorkerWrites.

Section WorkerLocate.
Import PyStr Py GitHub FS DownloadWorker.


Example write_patches_stops_at_failure :
  let first := {| patch_name := "1-margins.lua";
                  patch_download_url := Some "https://raw.example.org/1-margins.lua";
                  patch_sha := "a1" |} in
  let second := {| patch_name := "2-statusbar.lua";
                   patch_download_url := None;
                   patch_sha := "b2" |} in
  let st := {| fs := Dir [("patches", Dir [])]; emitted := []; log := [] |} in
  fs (fst (write_patches (Scenarios.world_patches []) ["patches"] [first; second] st)) =
    Dir [("patches",
          Dir [("1-margins.lua", File "-- https://raw.example.org/1-margins.lua")])]
  /\ exists e, snd (write_patches (Scenarios.world_patches []) ["patches"] [first; second] st)
               = Raise e.
Proof. vm_compute. split; [reflexivity | eauto]. Qed.

(** *** Locating the plugin in the unpacked archive *)

Lemma first_koplugin_dir_Some (root_dir d : path) (n : node) :
  first_koplugin_dir root_dir n = Some d ->
  exists x, In (d, x) (rglob_suffix ".koplugin" root_dir n)
            /\ is_dir_node x = true /\ has_main_and_meta x = true.
Proof.
  unfold first_koplugin_dir.
  destruct (List.find _ _) as [[d' x]|] eqn:Hfind; [|discriminate].
  intros H. injection H as <-. apply find_some in Hfind as [Hin Htest].
  apply andb_true_iff in Htest as [H1 H2]. exists x. auto.
Qed.

Lemma first_koplugin_dir_None (root_dir : path) (n : node) :
  first_koplugin_dir root_dir n = None <->
  forall d x, In (d, x) (rglob_suffix ".koplugin" root_dir n) ->
              is_dir_node x = true -> has_main_and_meta x = false.
Proof.
  unfold first_koplugin_dir. split.
  - destruct (List.find _ _) eqn:Hfind; [discriminate|]. intros _ d x Hin Hdir.
    pose proof (find_none _ _ Hfind (d, x) Hin) as H. simpl in H.
    now rewrite Hdir in H.
  - intros H. destruct (List.find _ _) as [[d x]|] eqn:Hfind; [|reflexivity].
    apply find_some in Hfind as [Hin Htest]. simpl in Htest.
    apply andb_true_iff in Htest as [H1 H2]. rewrite (H d x Hin H1) in H2. discriminate.
Qed.

Lemma find_plugin_dir_Some (roots : list (path * node)) (d : path) :
  find_plugin_dir roots = Some d ->
  exists r rn,
    In (r, rn) roots /\ is_dir_node rn = true
    /\ ((d = r /\ has_main_and_meta rn = true)
        \/ exists x, In (d, x) (rglob_suffix ".koplugin" r rn)
                     /\ is_dir_node x = true /\ has_main_and_meta x = true).
Proof.
  induction roots as [|[r rn] roots IH]; simpl; [discriminate|].
  destruct (is_dir_node rn) eqn:Hdir; simpl.
  - destruct (has_main_and_meta rn) eqn:Hmm.
    + intros H. injection H as <-. exists r, rn. auto.
    + destruct (first_koplugin_dir r rn) as [k|] eqn:Hk.
      * intros H. injection H as <-. apply first_koplugin_dir_Some in Hk.
        exists r, rn. auto.
      * intros H. destruct (IH H) as (r' & rn' & Hin & Hrest). exists r', rn'. auto.
  - intros H. destruct (IH H) as (r' & rn' & Hin & Hrest). exists r', rn'. auto.
Qed.

Lemma find_plugin_dir_None (roots : list (path * node)) :
  find_plugin_dir roots = None <->
  forall r rn, In (r, rn) roots -> is_dir_node rn = true ->
    has_main_and_meta rn = false /\ first_koplugin_dir r rn = None.
Proof.
  induction roots as [|[r rn] roots IH]; simpl.
  - split; [intros _ ? ? [] | reflexivity].
  - destruct (is_dir_node rn) eqn:Hdir; simpl.
    + destruct (has_main_and_meta rn) eqn:Hmm.
      * split; [discriminate|]. intros H.
        destruct (H r rn (or_introl eq_refl) Hdir) as [E _]. congruence.
      * destruct (first_koplugin_dir r rn) as [k|] eqn:Hk.
        -- split; [discriminate|]. intros H.
           destruct (H r rn (or_introl eq_refl) Hdir) as [_ E]. congruence.
        -- rewrite IH. split.
           ++ intros H r' rn' [E|Hin] Hd; [injection E as <- <-; auto | auto].
           ++ intros H r' rn' Hin. apply H. now right.
    + rewrite IH. split.
      * intros H r' rn' [E|Hin] Hd; [injection E as <- <-; congruence | auto].
      * intros H r' rn' Hin. apply H. now right.
Qed.

Lemma find_main_lua_dir_Some (roots : list (path * node)) (d : path) :
  find_main_lua_dir roots = Some d ->
  exists rn, In (d, rn) roots /\ is_dir_node rn = true /\ has_entry "main.lua" rn = true.
Proof.
  induction roots as [|[r rn] roots IH]; simpl; [discriminate|].
  destruct (is_dir_node rn) eqn:Hdir; simpl.
  - destruct (has_entry "main.lua" rn) eqn:Hmain.
    + intros H. injection H as <-. exists rn. auto.
    + intros H. destruct (IH H) as (rn' & Hin & Hrest). exists rn'. auto.
  - intros H. destruct (IH H) as (rn' & Hin & Hrest). exists rn'. auto.
Qed.

Lemma find_main_lua_dir_None (roots : list (path * node)) :
  find_main_lua_dir roots = None <->
  forall r rn, In (r, rn) roots -> is_dir_node rn = true -> has_entry "main.lua" rn = false.
Proof.
  induction roots as [|[r rn] roots IH]; simpl.
  - split; [intros _ ? ? [] | reflexivity].
  - destruct (is_dir_node rn) eqn:Hdir; simpl.
    + destruct (has_entry "main.lua" rn) eqn:Hmain.
      * split; [discriminate|]. intros H.
        pose proof (H r rn (or_introl eq_refl) Hdir). congruence.
      * rewrite IH. split.
        -- intros H r' rn' [E|Hin] Hd; [injection E as <- <-; auto | eauto].
        -- intros H r' rn' Hin. apply (H r' rn'). now right.
    + rewrite IH. split.
      * intros H r' rn' [E|Hin] Hd; [injection E as <- <-; congruence | eauto].
      * intros H r' rn' Hin. apply (H r' rn'). now right.
Qed.

(** What [rglob] yields lies below the directory searched and has a name
    with the suffix. *)
Lemma rglob_suffix_below (suffix : string) :
  forall (n : node) (p d : path) (x : node),
    In (d, x) (rglob_suffix suffix p n) ->
    exists middle last,
      d = (p ++ middle ++ [last])%list /\ endswith suffix last = true.
Proof.
  fix IH 1. intros [content|es] p d x; simpl; [contradiction|].
  intros H. apply in_app_or in H as [H|H].
  - apply in_map_iff in H as ([nm c] & E & Hin). apply filter_In in Hin as [_ Hs].
    simpl in *. injection E as <- <-. exists [], nm. auto.
  - induction es as [|[nm c] es IHes]; simpl in H; [contradiction|].
    apply in_app_or in H as [H|H].
    + apply IH in H as (middle & last & -> & Hs). exists (nm :: middle), last.
      split; [|exact Hs]. now rewrite <- app_assoc.
    + exact (IHes H).
Qed.

Lemma glob_star_below (p d : path) (root x : node) :
  In (d, x) (glob_star p root) -> exists last, d = (p ++ [last])%list.
Proof.
  unfold glob_star. destruct (lookup p root) as [[c|es]|]; try contradiction.
  intros H. apply in_map_iff in H as ([nm c] & E & _). injection E as <- _. eauto.
Qed.

(** X22. The directory located in the unpacked archive is a directory entry of
    the scratch directory that has main.lua, or a directory below one whose
    name ends in ".koplugin" and that has main.lua and _meta.lua.  Nothing
    is located exactly when no directory entry of the scratch directory has
    main.lua and no ".koplugin" directory below one has both files. *)
Theorem locate_plugin_characterised (temp_dir : path) (root : node) :
  (forall d, locate_plugin temp_dir root = Some d ->
     exists r rn last,
       In (r, rn) (glob_star temp_dir root)
       /\ r = (temp_dir ++ [last])%list
       /\ is_dir_node rn = true
       /\ ((d = r /\ has_entry "main.lua" rn = true)
           \/ exists x middle name,
                In (d, x) (rglob_suffix ".koplugin" r rn)
                /\ d = (r ++ middle ++ [name])%list
                /\ endswith ".koplugin" name = true
                /\ is_dir_node x = true
                /\ has_entry "main.lua" x = true
                /\ has_entry "_meta.lua" x = true))
  /\ (locate_plugin temp_dir root = None <->
      forall r rn, In (r, rn) (glob_star temp_dir root) -> is_dir_node rn = true ->
        has_entry "main.lua" rn = false
        /\ forall d x, In (d, x) (rglob_suffix ".koplugin" r rn) ->
                       is_dir_node x = true ->
                       (has_entry "main.lua" x && has_entry "_meta.lua" x)%bool = false).
Proof.
  unfold locate_plugin. split.
  - intros d. destruct (find_plugin_dir (glob_star temp_dir root)) as [d1|] eqn:H1.
    + intros H. injection H as <-.
      apply find_plugin_dir_Some in H1 as (r & rn & Hin & Hdir & Hcase).
      destruct (glob_star_below _ _ _ _ Hin) as [last Hr].
      exists r, rn, last. repeat split; try assumption.
      destruct Hcase as [[-> Hmm]|(x & Hx & Hxd & Hmm)].
      * left. apply andb_true_iff in Hmm as [Hm _]. auto.
      * right. destruct (rglob_suffix_below _ _ _ _ _ Hx) as (middle & name & Hd & Hs).
        apply andb_true_iff in Hmm as [Hm Hmeta].
        exists x, middle, name. auto 8.
    + intros H2. apply find_main_lua_dir_Some in H2 as (rn & Hin & Hdir & Hmain).
      destruct (glob_star_below _ _ _ _ Hin) as [last Hr].
      exists d, rn, last. auto 8.
  - destruct (find_plugin_dir (glob_star temp_dir root)) as [d1|] eqn:H1.
    + split; [discriminate|]. intros H.
      apply find_plugin_dir_Some in H1 as (r & rn & Hin & Hdir & Hcase).
      destruct (H r rn Hin Hdir) as [Hmain Hnested].
      destruct Hcase as [[_ Hmm]|(x & Hx & Hxd & Hmm)].
      * apply andb_true_iff in Hmm as [Hm _]. congruence.
      * unfold has_main_and_meta in Hmm. rewrite (Hnested d1 x Hx Hxd) in Hmm. discriminate.
    + rewrite find_main_lua_dir_None. rewrite find_plugin_dir_None in H1. split.
      * intros H r rn Hin Hdir. split; [eauto|].
        destruct (H1 r rn Hin Hdir) as [_ Hk].
        rewrite first_koplugin_dir_None in Hk. exact Hk.
      * intros H r rn Hin Hdir. apply (H r rn Hin Hdir).
Qed.

End WorkerLocate.


(** ** The structure check of a repository *)

Section StructureCheckFacts.
Import Py GitHub StructureCheck.
Local Open Scope py_scope.

Variable w : World.
Variable http_subdir : string -> string -> string -> outcome (list content_entry).
Variables owner repo : string.

(** The names hold the entry point and a metadata file. *)
Definition plugin_files (names : list string) : bool :=
  (among "main.lua" names && (among "_meta.lua" names || among "manifest.lua" names))%bool.

(** The names hold a metadata file. *)
Definition meta_files (names : list string) : bool :=
  (among "_meta.lua" names || among "manifest.lua" names)%bool.

(** What the listing of a directory shows, [false] when the request fails. *)
Definition subdir_shows (p : list string -> bool) (dir : string) : bool :=
  match http_subdir owner repo dir with
  | Ret sub_files => p (file_names sub_files)
  | Raise _ => false
  end.

Definition is_dir_entry (file : content_entry) : bool :=
  String.eqb (entry_type file) "dir".

Lemma subdir_has_plugin_spec (dir : string) :
  subdir_has_plugin http_subdir owner repo dir
  = ([CallDownload (sub_url owner repo dir)], Ret (subdir_shows plugin_files dir)).
Proof.
  unfold subdir_has_plugin, subdir_shows, perform, try_except, bind, ret.
  destruct (http_subdir owner repo dir); reflexivity.
Qed.

Lemma subdir_has_meta_spec (dir : string) :
  subdir_has_meta http_subdir owner repo dir
  = ([CallDownload (sub_url owner repo dir)], Ret (subdir_shows meta_files dir)).
Proof.
  unfold subdir_has_meta, subdir_shows, perform, try_except, bind, ret.
  destruct (http_subdir owner repo dir); reflexivity.
Qed.

Lemma any_subdir_spec (look : string -> M bool) (ans : string -> bool)
    (Hlook : forall dir, look dir = ([CallDownload (sub_url owner repo dir)], Ret (ans dir)))
    (files : list content_entry) :
  result (any_subdir look files)
  = Ret (existsb (fun f => is_dir_entry f && ans (entry_name f))%bool files)
  /\ (length (calls (any_subdir look files)) <= length (List.filter is_dir_entry files))%nat
  /\ List.Forall (fun c => exists f, In f files /\ is_dir_entry f = true
                            /\ c = CallDownload (sub_url owner repo (entry_name f)))
       (calls (any_subdir look files)).
Proof.
  induction files as [|f files IH]; simpl.
  - repeat split; auto.
  - destruct IH as (IHr & IHn & IHc).
    assert (Hweak : List.Forall (fun c => exists f0, (f = f0 \/ In f0 files) /\ is_dir_entry f0 = true
                            /\ c = CallDownload (sub_url owner repo (entry_name f0)))
       (calls (any_subdir look files))).
    { eapply List.Forall_impl; [|exact IHc]. intros c (f0 & Hin & Hd & Hc). exists f0; auto. }
    unfold is_dir_entry at 1 3. fold (is_dir_entry f).
    destruct (is_dir_entry f) eqn:Hd; simpl.
    + rewrite Hlook. unfold bind at 1 2 3. 
      destruct (ans (entry_name f)) eqn:Ha; simpl.
      * split; [reflexivity|]. split; [lia|]. constructor; [|constructor]. exists f; auto.
      * destruct (any_subdir look files) as [log r] eqn:Hany. simpl in *.
        split; [exact IHr|]. split; [lia|]. constructor; auto. exists f; auto.
    + repeat split; auto.
Qed.

(** The directories listed at the root. *)
Definition root_dirs (files : list content_entry) : list content_entry :=
  List.filter is_dir_entry files.

Lemma existsb_dirs (ans : string -> bool) (files : list content_entry) :
  existsb (fun f => is_dir_entry f && ans (entry_name f))%bool files = true
  <-> exists f, In f files /\ entry_type f = "dir" /\ ans (entry_name f) = true.
Proof.
  rewrite existsb_exists. split; intros (f & Hin & H); exists f; split; auto.
  - apply andb_prop in H as [Hd Ha]. split; auto. apply String.eqb_eq; exact Hd.
  - destruct H as [Hd Ha]. unfold is_dir_entry. rewrite Hd, Ha. reflexivity.
Qed.

(** X16. [has_required_plugin_files owner repo] always returns a boolean. It returns
    [True] exactly when the root listing was obtained and shows one of the
    three layouts: [main.lua] with [_meta.lua] or [manifest.lua] at the root;
    or a first-level directory whose listing was obtained and holds
    [main.lua] with one of the two metadata files; or [main.lua] at the
    root and a first-level directory whose listing holds one of the two
    metadata files. A directory whose listing fails counts as not showing
    anything. *)
Theorem has_required_plugin_files_layouts :
  exists b, result (has_required_plugin_files w http_subdir owner repo) = Ret b
  /\ (b = true <->
      exists files, http_contents w owner repo = Ret files
      /\ (plugin_files (file_names files) = true
          \/ (exists f sub_files, In f files /\ entry_type f = "dir"
                /\ http_subdir owner repo (entry_name f) = Ret sub_files
                /\ plugin_files (file_names sub_files) = true)
          \/ (among "main.lua" (file_names files) = true
              /\ exists f sub_files, In f files /\ entry_type f = "dir"
                /\ http_subdir owner repo (entry_name f) = Ret sub_files
                /\ meta_files (file_names sub_files) = true))).
Proof.
  assert (Hshows : forall p f, subdir_shows p (entry_name f) = true
            <-> exists sub_files, http_subdir owner repo (entry_name f) = Ret sub_files
                 /\ p (file_names sub_files) = true).
  { intros p f. unfold subdir_shows.
    destruct (http_subdir owner repo (entry_name f)) as [s|e].
    - split; [intros H; exists s; auto | intros (s' & Hs & H); congruence].
    - split; [discriminate | intros (s' & Hs & _); discriminate]. }
  unfold has_required_plugin_files, perform.
  destruct (http_contents w owner repo) as [files|e] eqn:Hroot.
  2:{ exists false. split; [reflexivity|]. split; [discriminate|].
      intros (files & Hf & _); discriminate. }
  destruct (any_subdir_spec _ _ subdir_has_plugin_spec files) as (Hr1 & _ & _).
  destruct (any_subdir_spec _ _ subdir_has_meta_spec files) as (Hr2 & _ & _).
  set (e1 := existsb (fun f => is_dir_entry f && subdir_shows plugin_files (entry_name f))%bool files) in *.
  set (e2 := existsb (fun f => is_dir_entry f && subdir_shows meta_files (entry_name f))%bool files) in *.
  assert (He1 : e1 = true <-> exists f sub_files, In f files /\ entry_type f = "dir"
                /\ http_subdir owner repo (entry_name f) = Ret sub_files
                /\ plugin_files (file_names sub_files) = true).
  { unfold e1. rewrite existsb_dirs. split.
    - intros (f & Hin & Hd & Hs). apply Hshows in Hs as (s & Hs & Hp). exists f, s; auto.
    - intros (f & s & Hin & Hd & Hs & Hp). exists f. repeat split; auto.
      apply Hshows. exists s; auto. }
  assert (He2 : e2 = true <-> exists f sub_files, In f files /\ entry_type f = "dir"
                /\ http_subdir owner repo (entry_name f) = Ret sub_files
                /\ meta_files (file_names sub_files) = true).
  { unfold e2. rewrite existsb_dirs. split.
    - intros (f & Hin & Hd & Hs). apply Hshows in Hs as (s & Hs & Hp). exists f, s; auto.
    - intros (f & s & Hin & Hd & Hs & Hp). exists f. repeat split; auto.
      apply Hshows. exists s; auto. }
  exists (plugin_files (file_names files)
          || e1 || (among "main.lua" (file_names files) && e2))%bool.
  split.
  - unfold try_except, bind at 1. simpl.
    fold (plugin_files (file_names files)).
    destruct (plugin_files (file_names files)); [reflexivity|].
    destruct (any_subdir (subdir_has_plugin http_subdir owner repo) files) as [l1 r1].
    simpl in Hr1. subst r1. unfold bind at 1.
    destruct e1; [reflexivity|]. simpl.
    destruct (among "main.lua" (file_names files)); [|reflexivity].
    destruct (any_subdir (subdir_has_meta http_subdir owner repo) files) as [l2 r2].
    simpl in Hr2. subst r2. unfold bind.
    destruct e2; reflexivity.
  - rewrite !orb_true_iff, andb_true_iff, He1, He2. split.
    + intros H. exists files. split; [reflexivity|]. tauto.
    + intros (files' & Hf & H). injection Hf as <-. tauto.
Qed.

(** X17. The requests of the structure check: the root listing is always the
    first and, when it fails or shows the root layout, the only one; in
    every case each later request asks for a directory listed at the root,
    and there are at most two of them for each such directory. *)
Theorem has_required_plugin_files_requests :
  (forall e, http_contents w owner repo = Raise e ->
     has_required_plugin_files w http_subdir owner repo
     = ([CallContents owner repo], Ret false))
  /\ (forall files, http_contents w owner repo = Ret files ->
        (plugin_files (file_names files) = true ->
         has_required_plugin_files w http_subdir owner repo
         = ([CallContents owner repo], Ret true))
        /\ exists later,
             calls (has_required_plugin_files w http_subdir owner repo)
             = CallContents owner repo :: later
             /\ (length later <= 2 * length (root_dirs files))%nat
             /\ List.Forall (fun c => exists f, In f files /\ entry_type f = "dir"
                                  /\ c = CallDownload (sub_url owner repo (entry_name f)))
                  later).
Proof.
  split.
  - intros e He. unfold has_required_plugin_files, perform. rewrite He. reflexivity.
  - intros files Hroot.
    unfold has_required_plugin_files, perform. rewrite Hroot.
    destruct (any_subdir_spec _ _ subdir_has_plugin_spec files) as (Hr1 & Hn1 & Hc1).
    destruct (any_subdir_spec _ _ subdir_has_meta_spec files) as (Hr2 & Hn2 & Hc2).
    assert (Hconv : forall l, List.Forall (fun c => exists f, In f files /\ is_dir_entry f = true
                            /\ c = CallDownload (sub_url owner repo (entry_name f))) l ->
              List.Forall (fun c => exists f, In f files /\ entry_type f = "dir"
                                  /\ c = CallDownload (sub_url owner repo (entry_name f))) l).
    { intros l. apply List.Forall_impl. intros c (f & Hin & Hd & Hc). exists f.
      repeat split; auto. apply String.eqb_eq; exact Hd. }
    apply Hconv in Hc1, Hc2.
    unfold try_except, bind at 1. simpl.
    fold (plugin_files (file_names files)).
    split.
    + intros ->. reflexivity.
    + destruct (plugin_files (file_names files)).
      { exists []. simpl. repeat split; auto. lia. }
      destruct (any_subdir (subdir_has_plugin http_subdir owner repo) files) as [l1 r1].
      simpl in Hr1, Hn1, Hc1. subst r1. unfold bind at 1.
      fold (root_dirs files) in Hn1, Hn2.
      match goal with |- context [if ?b then _ else _] => destruct b end.
      { exists l1. simpl. rewrite app_nil_r. repeat split; auto. lia. }
      destruct (among "main.lua" (file_names files)).
      2:{ exists l1. simpl. rewrite app_nil_r. repeat split; auto. lia. }
      destruct (any_subdir (subdir_has_meta http_subdir owner repo) files) as [l2 r2].
      simpl in Hr2, Hn2, Hc2. subst r2. unfold bind.
      match goal with |- context [if ?b then _ else _] => destruct b end.
      * exists (l1 ++ l2)%list. simpl. rewrite app_nil_r. repeat split; auto.
        -- rewrite length_app. lia.
        -- apply Forall_app; auto.
      * exists (l1 ++ l2)%list. simpl. rewrite app_nil_r. repeat split; auto.
        -- rewrite length_app. lia.
        -- apply Forall_app; auto.
Qed.

End StructureCheckFacts.


(** ** Device detection *)

Section DeviceDetectionFacts.
Import Py PyText DeviceDetection.

Variable h : Host.

Lemma existing_with_koreader_In (paths : list string) (p : string) :
  In p (existing_with_koreader h paths) ->
  In p paths /\ os_exists h p = true /\ _has_koreader h p = true.
Proof.
  unfold existing_with_koreader. rewrite filter_In.
  intros [Hin H]. apply andb_prop in H as [He Hk]. auto.
Qed.

Lemma get_koreader_paths_launcher (p : string) :
  In p (get_koreader_paths h) -> _has_koreader h p = true.
Proof.
  unfold get_koreader_paths.
  destruct (String.eqb (system h) "Windows").
  { unfold windows_paths. rewrite in_app_iff, in_flat_map.
    intros [(drive & _ & Hin) | Hin].
    - destruct (os_exists h drive); [|destruct Hin].
      apply existing_with_koreader_In in Hin. tauto.
    - apply existing_with_koreader_In in Hin. tauto. }
  destruct (String.eqb (system h) "Darwin").
  { unfold mac_paths. intros Hin. apply existing_with_koreader_In in Hin. tauto. }
  destruct (String.eqb (system h) "Linux"); [|intros []].
  unfold linux_paths. rewrite in_flat_map. intros (path & _ & Hin).
  destruct (PyStr.contains "*" path).
  - apply filter_In in Hin. tauto.
  - apply existing_with_koreader_In in Hin. tauto.
Qed.

Lemma validate_koreader_installation_true (p : string) :
  validate_koreader_installation h p = true
  <-> os_exists h p = true
      /\ os_exists h (os_join h p "koreader.sh") = true
      /\ os_exists h (os_join h p "frontend") = true
      /\ os_exists h (os_join h p "plugins") = true
      /\ os_exists h (os_join h p "data") = true.
Proof.
  unfold validate_koreader_installation, essential_items. simpl.
  destruct (os_exists h p); simpl.
  - rewrite !andb_true_iff. tauto.
  - split; [discriminate | tauto].
Qed.

(** Every candidate path of [get_koreader_paths] holds the launcher
    [koreader.sh]; on a system that is neither Windows, Darwin nor Linux
    there is no candidate; on Windows and Darwin every candidate exists. *)
Theorem koreader_paths_hold_launcher :
  (forall p, In p (get_koreader_paths h) ->
     os_exists h (os_join h p "koreader.sh") = true)
  /\ (system h <> "Windows" -> system h <> "Darwin" -> system h <> "Linux" ->
      get_koreader_paths h = [])
  /\ (system h = "Windows" \/ system h = "Darwin" ->
      forall p, In p (get_koreader_paths h) -> os_exists h p = true).
Proof.
  split; [exact get_koreader_paths_launcher|]. split.
  - intros HW HD HL. unfold get_koreader_paths.
    apply String.eqb_neq in HW, HD, HL. rewrite HW, HD, HL. reflexivity.
  - intros Hsys p. unfold get_koreader_paths.
    destruct (String.eqb (system h) "Windows") eqn:HW.
    { unfold windows_paths. rewrite in_app_iff, in_flat_map.
      intros [(drive & _ & Hin) | Hin].
      - destruct (os_exists h drive); [|destruct Hin].
        apply existing_with_koreader_In in Hin. tauto.
      - apply existing_with_koreader_In in Hin. tauto. }
    destruct Hsys as [Hs|Hs]; rewrite Hs in *; [discriminate|]. simpl.
    unfold mac_paths. intros Hin. apply existing_with_koreader_In in Hin. tauto.
Qed.

(** X24. [detect_koreader_device] returns the first candidate of
    [get_koreader_paths] that validates: the candidates before it do not,
    the path itself exists with [koreader.sh], [frontend], [plugins] and
    [data] below it, and [get_device_info] reports it valid, with the key
    [plugins_exist] set to [True]. It returns [None] exactly when no
    candidate validates. *)
Theorem detect_koreader_device_first_valid :
  (forall p, detect_koreader_device h = Some p ->
     (exists before later,
        get_koreader_paths h = (before ++ p :: later)%list
        /\ List.Forall (fun q => validate_koreader_installation h q = false) before)
     /\ os_exists h p = true
     /\ List.Forall (fun item => os_exists h (os_join h p item) = true)
          ["koreader.sh"; "frontend"; "plugins"; "data"]
     /\ info_valid (get_device_info h p) = true
     /\ info_plugins_exist (get_device_info h p) = Some true)
  /\ (detect_koreader_device h = None
      <-> forall p, In p (get_koreader_paths h) -> validate_koreader_installation h p = false).
Proof.
  unfold detect_koreader_device. split.
  - intros p Hfind.
    assert (Hvalid : validate_koreader_installation h p = true).
    { apply List.find_some in Hfind. tauto. }
    split.
    + revert Hfind. induction (get_koreader_paths h) as [|q l IH]; simpl; [discriminate|].
      destruct (validate_koreader_installation h q) eqn:Hq.
      * intros [= ->]. exists [], l. split; [reflexivity | constructor].
      * intros Hfind. destruct (IH Hfind) as (before & later & -> & Hb).
        exists (q :: before), later. split; [reflexivity | constructor; auto].
    + pose proof (proj1 (validate_koreader_installation_true p) Hvalid) as (He & H1 & H2 & H3 & H4).
      split; [exact He|]. split.
      * repeat constructor; assumption.
      * unfold get_device_info. rewrite Hvalid. cbn. now rewrite H3.
  - split.
    + intros Hnone p Hin. apply (List.find_none _ _ Hnone p Hin).
    + intros Hall. induction (get_koreader_paths h) as [|q l IH]; simpl; [reflexivity|].
      rewrite (Hall q (or_introl eq_refl)). apply IH. intros p Hin. apply Hall. right; exact Hin.
Qed.

(** [get_device_info] echoes the path and the platform and reports
    [valid] as [validate_koreader_installation] decides. For a valid
    installation the key [plugins_exist] is always [True], since validation
    already requires the [plugins] directory, and [patches_exist] tells
    whether [patches] exists; for an invalid one the version stays
    ["Unknown"] and neither key is set. *)
Theorem get_device_info_shape (koreader_path : string) :
  let info := get_device_info h koreader_path in
  info_path info = koreader_path
  /\ info_platform info = system h
  /\ info_valid info = validate_koreader_installation h koreader_path
  /\ (info_valid info = true ->
        info_plugins_exist info = Some true
        /\ info_patches_exist info = Some (os_exists h (os_join h koreader_path "patches")))
  /\ (info_valid info = false ->
        info_version info = "Unknown"
        /\ info_plugins_exist info = None /\ info_patches_exist info = None).
Proof.
  unfold get_device_info.
  destruct (validate_koreader_installation h koreader_path) eqn:Hvalid; simpl.
  - apply validate_koreader_installation_true in Hvalid as (_ & _ & _ & Hp & _).
    rewrite Hp. repeat split; auto; discriminate.
  - repeat split; auto; discriminate.
Qed.

End DeviceDetectionFacts.


(** ** The version pattern of the installer *)

Section VersionPatternFacts.
Import PyStr PyText.

(** Every character of [s] satisfies [p]. *)
Fixpoint all_chars (p : ascii -> bool) (s : string) : bool :=
  match s with
  | EmptyString => true
  | String c s' => (p c && all_chars p s')%bool
  end.

Definition not_quote (c : ascii) : bool := negb (is_quote c).

Lemma lstrip_space_skips (ws : string) (c : ascii) (s : string) :
  all_chars isspace ws = true -> isspace c = false ->
  lstrip_space (ws ++ String c s) = String c s.
Proof.
  intros Hws Hc. induction ws as [|a ws IH].
  - rewrite append_nil_l. simpl. now rewrite Hc.
  - simpl in Hws. apply andb_prop in Hws as [Ha Hws].
    rewrite append_cons. simpl. rewrite Ha. auto.
Qed.

Lemma lstrip_space_inv (s : string) :
  exists ws, all_chars isspace ws = true /\ s = ws ++ lstrip_space s
             /\ match lstrip_space s with
                | EmptyString => True
                | String c _ => isspace c = false
                end.
Proof.
  induction s as [|a s (ws & Hws & Hs & Hc)]; simpl.
  - exists "". auto.
  - destruct (isspace a) eqn:Ha.
    + exists (String a ws). simpl. rewrite Ha, Hws, append_cons. repeat split; auto.
      now f_equal.
    + exists "". simpl. rewrite Ha. auto.
Qed.

Lemma up_to_quote_reads (v : string) (q : ascii) (rest : string) :
  all_chars not_quote v = true -> is_quote q = true ->
  up_to_quote (v ++ String q rest) = Some v.
Proof.
  intros Hv Hq. induction v as [|a v IH].
  - rewrite append_nil_l. simpl. now rewrite Hq.
  - simpl in Hv. apply andb_prop in Hv as [Ha Hv].
    rewrite append_cons. simpl. unfold not_quote in Ha.
    destruct (is_quote a); [discriminate|]. now rewrite IH.
Qed.

Lemma up_to_quote_inv (s v : string) :
  up_to_quote s = Some v ->
  exists q rest, is_quote q = true /\ s = v ++ String q rest
                 /\ all_chars not_quote v = true.
Proof.
  revert v. induction s as [|a s IH]; intros v; simpl; [discriminate|].
  destruct (is_quote a) eqn:Ha.
  - intros [= <-]. exists a, s. auto.
  - destruct (up_to_quote s) as [run|]; [|discriminate].
    intros [= <-]. destruct (IH run eq_refl) as (q & rest & Hq & -> & Hrun).
    exists q, rest. rewrite append_cons. simpl. unfold not_quote at 1. rewrite Ha.
    auto.
Qed.

Lemma drop_str_append (p s : string) : drop_str (String.length p) (p ++ s) = s.
Proof. induction p as [|a p IH]; [destruct s; reflexivity | exact IH]. Qed.

(** A text laid out as the pattern asks. *)
Definition version_assignment (ws1 ws2 : string) (q : ascii) (v : string) (q' : ascii)
    (rest : string) : string :=
  "version" ++ ws1 ++ "=" ++ ws2 ++ String q (v ++ String q' rest).

Lemma match_version_reads (ws1 ws2 : string) (q q' : ascii) (c : ascii) (v rest : string) :
  all_chars isspace ws1 = true -> all_chars isspace ws2 = true ->
  is_quote q = true -> is_quote q' = true ->
  all_chars not_quote (String c v) = true ->
  match_version (version_assignment ws1 ws2 q (String c v) q' rest) = Some (String c v).
Proof.
  intros H1 H2 Hq Hq' Hv. unfold match_version, version_assignment.
  assert (Hs : startswith "version"
                 ("version" ++ ws1 ++ "=" ++ ws2 ++ String q (String c v ++ String q' rest)) = true).
  { apply startswith_spec. eexists; reflexivity. }
  rewrite Hs.
  change 7%nat with (String.length "version"). rewrite drop_str_append.
  change ("=" ++ ws2 ++ String q (String c v ++ String q' rest))
    with (String "="%char (ws2 ++ String q (String c v ++ String q' rest))).
  rewrite lstrip_space_skips by (auto; reflexivity).
  rewrite Ascii.eqb_refl.
  rewrite lstrip_space_skips; auto.
  - rewrite Hq. now rewrite up_to_quote_reads.
  - unfold is_quote in Hq. apply orb_prop in Hq as [E|E]; apply Ascii.eqb_eq in E;
      subst q; reflexivity.
Qed.

Lemma match_version_inv (s v : string) :
  match_version s = Some v ->
  v <> "" /\ all_chars not_quote v = true
  /\ exists ws1 ws2 q q' rest,
       all_chars isspace ws1 = true /\ all_chars isspace ws2 = true
       /\ is_quote q = true /\ is_quote q' = true
       /\ s = version_assignment ws1 ws2 q v q' rest.
Proof.
  unfold match_version.
  destruct (startswith "version" s) eqn:Hs; [|discriminate].
  apply startswith_spec in Hs as [b ->].
  change 7%nat with (String.length "version"). rewrite drop_str_append.
  destruct (lstrip_space_inv b) as (ws1 & H1 & Hb & _).
  destruct (lstrip_space b) as [|e s1]; [discriminate|].
  destruct (Ascii.eqb_spec e "="%char) as [->|]; [|discriminate].
  destruct (lstrip_space_inv s1) as (ws2 & H2 & Hs1 & _).
  destruct (lstrip_space s1) as [|q s2]; [discriminate|].
  destruct (is_quote q) eqn:Hq; [|discriminate].
  destruct (up_to_quote s2) as [[|c run]|] eqn:Hrun; try discriminate.
  intros [= <-].
  apply up_to_quote_inv in Hrun as (q' & rest & Hq' & -> & Hv).
  split; [discriminate|]. split; [exact Hv|].
  exists ws1, ws2, q, q', rest. repeat split; auto.
  unfold version_assignment. rewrite Hb, Hs1. reflexivity.
Qed.

Lemma search_version_inv (s v : string) :
  search_version s = Some v ->
  exists before rest, s = before ++ rest /\ match_version rest = Some v.
Proof.
  induction s as [|a s IH].
  - intros H. cbv in H. discriminate.
  - cbn [search_version]. destruct (match_version (String a s)) eqn:Hm.
    + intros [= <-]. exists "", (String a s). auto.
    + intros H. destruct (IH H) as (before & rest & -> & Hr).
      exists (String a before), rest. auto.
Qed.

(** X25. The version pattern of [get_installed_plugins], both ways. A text that
    starts with the word version, spaces, an equals sign, spaces and a
    non-empty value without quotes between two quote characters gives that
    value, whatever follows and whichever of the two quote characters opens
    and closes. Conversely a value the search returns is never empty, holds
    no quote, and stands in the text in exactly that layout. *)
Theorem search_version_reads_quoted_value :
  (forall ws1 ws2 q q' v rest,
     all_chars isspace ws1 = true -> all_chars isspace ws2 = true ->
     is_quote q = true -> is_quote q' = true ->
     v <> "" -> all_chars not_quote v = true ->
     search_version (version_assignment ws1 ws2 q v q' rest) = Some v)
  /\ (forall s v,
        search_version s = Some v ->
        v <> "" /\ all_chars not_quote v = true
        /\ exists before ws1 ws2 q q' rest,
             all_chars isspace ws1 = true /\ all_chars isspace ws2 = true
             /\ is_quote q = true /\ is_quote q' = true
             /\ s = before ++ version_assignment ws1 ws2 q v q' rest).
Proof.
  split.
  - intros ws1 ws2 q q' v rest H1 H2 Hq Hq' Hne Hv.
    destruct v as [|c v]; [contradiction|].
    pose proof (match_version_reads ws1 ws2 q q' c v rest H1 H2 Hq Hq' Hv) as Hm.
    unfold version_assignment in *.
    change ("version" ++ ws1 ++ "=" ++ ws2 ++ String q (String c v ++ String q' rest))
      with (String "v"%char ("ersion" ++ ws1 ++ "=" ++ ws2 ++ String q (String c v ++ String q' rest))) in *.
    cbn [search_version]. now rewrite Hm.
  - intros s v Hs.
    apply search_version_inv in Hs as (before & rest & -> & Hm).
    apply match_version_inv in Hm as (Hne & Hv & ws1 & ws2 & q & q' & rest' & H1 & H2 & Hq & Hq' & ->).
    split; [exact Hne|]. split; [exact Hv|].
    exists before, ws1, ws2, q, q', rest'. auto.
Qed.

End VersionPatternFacts.


(** ** The installer service *)

Section RemovalFacts.
Import Py FS.

Lemma assoc_absent (name : string) (es : list (string * node)) :
  ~ In name (List.map fst es) -> assoc name es = None.
Proof.
  induction es as [|[n c] es IH]; simpl; [reflexivity|].
  intros H. destruct (String.eqb_spec n name) as [->|Hne]; [tauto|].
  apply IH. tauto.
Qed.

Lemma assoc_remove_entry_same (name : string) (es : list (string * node)) :
  List.NoDup (List.map fst es) -> assoc name (remove_entry name es) = None.
Proof.
  induction es as [|[n c] es IH]; simpl; [reflexivity|].
  intros H. inversion H as [|? ? Hfresh Hrest]; subst.
  destruct (String.eqb_spec n name) as [->|Hne].
  - now apply assoc_absent.
  - simpl. destruct (String.eqb_spec n name); [contradiction|]. now apply IH.
Qed.

Lemma alter_at_below (parents : bool) (whole : path)
    (f : option node -> outcome (option node)) (x y : string) (p : path)
    (es : list (string * node)) :
  alter_at parents whole (x :: y :: p) f (Dir es)
  = match assoc x es with
    | Some c =>
        match alter_at parents whole (y :: p) f c with
        | Ret c' => Ret (Dir (set_entry x c' es))
        | Raise e => Raise e
        end
    | None =>
        if parents then
          match alter_at parents whole (y :: p) f (Dir []) with
          | Ret c' => Ret (Dir (set_entry x c' es))
          | Raise e => Raise e
          end
        else Raise (FileNotFoundError whole)
    end.
Proof. reflexivity. Qed.

(** In a directory whose names are distinct, what [f] removed at the path
    is not found there afterwards. *)
Lemma lookup_alter_at_removed (parents : bool) (whole : path)
    (f : option node -> outcome (option node)) (name : string)
    (Hf : forall cur n, f cur <> Ret (Some n)) (parent : path) :
  forall root root' es,
    lookup parent root = Some (Dir es) ->
    List.NoDup (List.map fst es) ->
    alter_at parents whole (parent ++ [name])%list f root = Ret root' ->
    lookup (parent ++ [name])%list root' = None.
Proof.
  induction parent as [|x parent IH]; intros root root' es Hl Hnd.
  - simpl in Hl. injection Hl as ->. simpl.
    destruct (f (assoc name es)) as [[n|]|e] eqn:E; try discriminate.
    + exfalso. exact (Hf _ _ E).
    + intros [= <-]. simpl. now rewrite assoc_remove_entry_same.
  - simpl in Hl. destruct root as [content|es0]; [discriminate|].
    destruct (assoc x es0) as [c|] eqn:Hx; [|discriminate].
    change ((x :: parent) ++ [name])%list with (x :: (parent ++ [name]))%list.
    intros H.
    assert (Hstep : exists c', alter_at parents whole (parent ++ [name])%list f c = Ret c'
                               /\ root' = Dir (set_entry x c' es0)).
    { destruct (parent ++ [name])%list as [|y p'] eqn:Hp.
      { destruct parent; discriminate. }
      rewrite alter_at_below, Hx in H.
      destruct (alter_at parents whole (y :: p') f c) as [c'|e]; [|discriminate].
      exists c'. split; [reflexivity | congruence]. }
    destruct Hstep as (c' & Hc & ->).
    change (lookup (x :: (parent ++ [name]))%list (Dir (set_entry x c' es0)))
      with (match assoc x (set_entry x c' es0) with
            | Some c0 => lookup (parent ++ [name])%list c0
            | None => None
            end).
    rewrite assoc_set_entry_same. exact (IH c c' es Hl Hnd Hc).
Qed.

(** At a path that exists, the change fails exactly when [f] refuses the
    node that stands there, and with the error of [f]. *)
Lemma alter_at_existing (parents : bool) (whole : path)
    (f : option node -> outcome (option node)) (p : path) :
  forall root n,
    p <> [] -> lookup p root = Some n ->
    match f (Some n) with
    | Raise e => alter_at parents whole p f root = Raise e
    | Ret _ => exists root', alter_at parents whole p f root = Ret root'
    end.
Proof.
  induction p as [|name p IH]; intros root n Hne Hl; [contradiction|].
  simpl in Hl. destruct root as [content|es]; [discriminate|].
  destruct (assoc name es) as [c|] eqn:Hname; [|discriminate].
  destruct p as [|y p'].
  - simpl in Hl. injection Hl as ->. cbn [alter_at]. rewrite Hname.
    destruct (f (Some n)) as [[n'|]|e]; eauto.
  - rewrite alter_at_below, Hname. specialize (IH c n ltac:(discriminate) Hl).
    destruct (f (Some n)) as [r|e].
    + destruct IH as [c' ->]. eauto.
    + rewrite IH. reflexivity.
Qed.

Lemma rmtree_removes (parent : path) (name : string) (root root' : node)
    (es : list (string * node)) :
  lookup parent root = Some (Dir es) ->
  List.NoDup (List.map fst es) ->
  rmtree (parent ++ [name])%list root = Ret root' ->
  lookup (parent ++ [name])%list root' = None.
Proof.
  intros Hl Hnd H. unfold rmtree in H.
  eapply lookup_alter_at_removed; [|exact Hl|exact Hnd|exact H].
  intros [[c|es']|] n; discriminate.
Qed.

Lemma rmtree_elsewhere (common : path) (a b : string) (p1 q1 : path) (root root' : node) :
  a <> b ->
  rmtree (common ++ a :: p1)%list root = Ret root' ->
  lookup (common ++ b :: q1)%list root' = lookup (common ++ b :: q1)%list root.
Proof.
  intros Hne H. unfold rmtree in H.
  exact (lookup_alter_at_diverge _ _ _ common a b p1 q1 root root' Hne H).
Qed.

End RemovalFacts.

Section UninstallFacts.
Import Py PyStr FS DownloadWorker PluginInstaller.

Variable koreader_path : path.

(** X26. [uninstall_plugin] never raises and decides by what stands at
    [plugins/<name>], where [<name>] is the argument with the suffix
    [.koplugin] added when it lacks it. A directory there is removed and
    the result reports success: the other entries of [plugins] are as
    before and, the names of [plugins] being distinct, the plugin is gone.
    A file there, or nothing, leaves the file system as it was and the
    result reports failure, with the error of [rmtree] or the message that
    the plugin is not installed. *)
Theorem uninstall_plugin_outcome (plugin_name : string) (st : wstate) :
  let name := with_koplugin_suffix plugin_name in
  let target := (plugins_path koreader_path ++ [name])%list in
  let st' := fst (uninstall_plugin koreader_path plugin_name st) in
  exists r,
    snd (uninstall_plugin koreader_path plugin_name st) = Ret r
    /\ emitted st' = emitted st /\ log st' = log st
    /\ match lookup target (fs st) with
       | Some (Dir _) =>
           uninstall_success r = true
           /\ uninstall_message r = name ++ " uninstalled successfully!"
           /\ (forall other below, other <> name ->
                 lookup (plugins_path koreader_path ++ other :: below)%list (fs st')
                 = lookup (plugins_path koreader_path ++ other :: below)%list (fs st))
           /\ (forall es, lookup (plugins_path koreader_path) (fs st) = Some (Dir es) ->
                 List.NoDup (List.map fst es) -> lookup target (fs st') = None)
       | Some (File _) =>
           uninstall_success r = false
           /\ uninstall_message r = "Error: " ++ exn_msg (NotADirectoryError target)
           /\ fs st' = fs st
       | None =>
           uninstall_success r = false
           /\ uninstall_message r = "Plugin " ++ name ++ " is not installed"
           /\ fs st' = fs st
       end.
Proof.
  cbv zeta. unfold uninstall_plugin, wtry, wbind, fs_read, fs_op, wret, exists_.
  set (name := with_koplugin_suffix plugin_name).
  set (target := (plugins_path koreader_path ++ [name])%list).
  destruct (lookup target (fs st)) as [[content|es0]|] eqn:Hl; cbn [negb].
  - assert (Hrm : rmtree target (fs st) = Raise (NotADirectoryError target)).
    { unfold rmtree.
      match goal with |- alter_at _ _ _ ?f _ = _ =>
        exact (alter_at_existing false target f target (fs st) (File content)
                 ltac:(unfold target; destruct (plugins_path koreader_path); discriminate) Hl)
      end. }
    rewrite Hrm. eexists. repeat split.
  - destruct (rmtree target (fs st)) as [root'|e] eqn:Hrm.
    + eexists. cbn [fst snd fs emitted log]. repeat split.
      * intros other below Hne.
        apply (rmtree_elsewhere (plugins_path koreader_path) name other [] below
                 (fs st) root'); [congruence | exact Hrm].
      * intros es Hes Hnd. exact (rmtree_removes _ _ _ _ es Hes Hnd Hrm).
    + exfalso. unfold rmtree in Hrm.
      match type of Hrm with alter_at _ _ _ ?f _ = _ =>
        destruct (alter_at_existing false target f target (fs st) (Dir es0)
                    ltac:(unfold target; destruct (plugins_path koreader_path); discriminate) Hl)
          as [root' Hok]
      end.
      congruence.
  - eexists. repeat split.
Qed.

End UninstallFacts.


Section InstallPatchesFacts.
Import Py PyStr GitHub FS DownloadWorker PluginInstaller.

Variable http_checked_text : string -> outcome string.
Variable koreader_path : path.

Definition is_file_at (p : path) (root : node) : Prop :=
  exists text, lookup p root = Some (File text).

(** One turn of the loop: on success the file stands under the name of
    the patch and its siblings are as before; on failure nothing changed
    in the file system. *)
Lemma install_one_patch_step (p : patch) (st : wstate) :
  match install_one_patch http_checked_text koreader_path p st with
  | (st', Ret _) =>
      (exists url text,
         patch_download_url p = Some url /\ http_checked_text url = Ret text
         /\ lookup (patches_path koreader_path ++ [patch_name p])%list (fs st')
            = Some (File text))
      /\ (forall other, other <> patch_name p ->
            lookup (patches_path koreader_path ++ [other])%list (fs st')
            = lookup (patches_path koreader_path ++ [other])%list (fs st))
      /\ emitted st' = emitted st
  | (st', Raise _) => fs st' = fs st /\ emitted st' = emitted st
  end.
Proof.
  unfold install_one_patch, wbind, api, fs_op, perform, raise.
  destruct (patch_download_url p) as [url|]; cbn [fst snd fs]; [|auto].
  destruct (http_checked_text url) as [text|e] eqn:Htext; [|auto].
  cbn [fs].
  destruct (write_file (patches_path koreader_path ++ [patch_name p])%list text (fs st))
    as [root'|e] eqn:Hw; cbn [fs emitted]; [|auto].
  split; [|split; [|reflexivity]].
  - exists url, text. split; [reflexivity|]. split; [exact Htext|].
    exact (write_file_lookup _ _ _ _ Hw).
  - intros other Hne. apply (write_file_sibling _ (patch_name p) other text (fs st) root');
      [congruence | exact Hw].
Qed.

Lemma install_patch_loop_spec (patches : list patch) :
  forall installed installed_count st,
    exists done rest,
      patches = (done ++ rest)%list
      /\ fst (snd (fst (install_patch_loop http_checked_text koreader_path patches
                          installed installed_count st)))
         = (installed ++ List.map patch_name done)%list
      /\ snd (snd (fst (install_patch_loop http_checked_text koreader_path patches
                          installed installed_count st)))
         = (installed_count + List.length done)%nat
      /\ (snd (install_patch_loop http_checked_text koreader_path patches
                 installed installed_count st) = Ret tt <-> rest = [])
      /\ (forall name, In name (List.map patch_name done) ->
            is_file_at (patches_path koreader_path ++ [name])%list
              (fs (fst (fst (install_patch_loop http_checked_text koreader_path patches
                               installed installed_count st)))))
      /\ (forall other, ~ In other (List.map patch_name done) ->
            lookup (patches_path koreader_path ++ [other])%list
              (fs (fst (fst (install_patch_loop http_checked_text koreader_path patches
                               installed installed_count st))))
            = lookup (patches_path koreader_path ++ [other])%list (fs st))
      /\ (forall p rest', rest = p :: rest' ->
            exists st0, fs st0 = fs (fst (fst (install_patch_loop http_checked_text koreader_path
                                               patches installed installed_count st)))
                        /\ exists e, snd (install_one_patch http_checked_text koreader_path p st0)
                                     = Raise e
                        /\ snd (install_patch_loop http_checked_text koreader_path patches
                                  installed installed_count st) = Raise e).
Proof.
  induction patches as [|p patches IH]; intros installed installed_count st.
  - exists [], []. simpl. rewrite app_nil_r, Nat.add_0_r.
    repeat split; auto; try tauto. discriminate.
  - cbn [install_patch_loop].
    pose proof (install_one_patch_step p st) as Hstep.
    destruct (install_one_patch http_checked_text koreader_path p st) as [st1 [[]|e]] eqn:Hone.
    + destruct Hstep as ((url & text & Hurl & Htext & Hfile) & Hframe & Hemit).
      destruct (IH (installed ++ [patch_name p])%list (installed_count + 1)%nat st1)
        as (done & rest & -> & Hinst & Hcount & Hret & Hfiles & Hothers & Hfail).
      exists (p :: done), rest. simpl.
      split; [reflexivity|]. split; [rewrite Hinst, <- app_assoc; reflexivity|].
      split; [rewrite Hcount; lia|]. split; [exact Hret|].
      split; [|split].
      * intros name [<-|Hin].
        -- destruct (in_dec String.string_dec (patch_name p) (List.map patch_name done)) as [Hd|Hd].
           ++ apply Hfiles, Hd.
           ++ unfold is_file_at. rewrite (Hothers _ Hd). exists text. exact Hfile.
        -- apply Hfiles, Hin.
      * intros other Hno. rewrite Hothers by tauto. apply Hframe. intros ->. tauto.
      * exact Hfail.
    + destruct Hstep as (Hfs & Hemit).
      exists [], (p :: patches). simpl. rewrite app_nil_r, Nat.add_0_r.
      split; [reflexivity|]. split; [reflexivity|]. split; [reflexivity|].
      split; [split; discriminate|]. split; [tauto|]. split.
      * intros other _. now rewrite Hfs.
      * intros p0 rest' [= <- <-]. exists st. split; [symmetry; exact Hfs|].
        exists e. rewrite Hone. auto.
Qed.

(** X27. [install_patches] never raises. The patches are taken in order up to
    the first that cannot be fetched or written: the names of those before
    it are exactly the list [installed_patches] of the result, each of them
    is a file in the patches directory afterwards, and no other entry of
    that directory has changed. The result reports success exactly when no
    patch failed, and then the message counts all of them; otherwise the
    message carries the error of the patch that failed. *)
Theorem install_patches_reports_written (patches : list patch) (st : wstate) :
  exists r done rest,
    snd (install_patches http_checked_text koreader_path patches st) = Ret r
    /\ patches = (done ++ rest)%list
    /\ installed_patches r = List.map patch_name done
    /\ (patches_success r = true <-> rest = [])
    /\ (rest = [] ->
        patches_message r
        = str_of_nat (List.length patches) ++ " patch(es) installed successfully!")
    /\ (forall p rest', rest = p :: rest' ->
          exists st0 e,
            fs st0 = fs (fst (install_patches http_checked_text koreader_path patches st))
            /\ snd (install_one_patch http_checked_text koreader_path p st0) = Raise e
            /\ patches_message r = "Error: " ++ exn_msg e)
    /\ (forall name, In name (installed_patches r) ->
          is_file_at (patches_path koreader_path ++ [name])%list
            (fs (fst (install_patches http_checked_text koreader_path patches st))))
    /\ (forall other, ~ In other (installed_patches r) ->
          lookup (patches_path koreader_path ++ [other])%list
            (fs (fst (install_patches http_checked_text koreader_path patches st)))
          = lookup (patches_path koreader_path ++ [other])%list (fs st)).
Proof.
  destruct (install_patch_loop_spec patches [] 0%nat st)
    as (done & rest & Hsplit & Hinst & Hcount & Hret & Hfiles & Hothers & Hfail).
  unfold install_patches.
  destruct (install_patch_loop http_checked_text koreader_path patches [] 0 st)
    as [[st' [installed installed_count]] [[]|e]] eqn:Hloop;
    cbn [fst snd] in *; subst installed installed_count.
  - assert (rest = []) as -> by (apply Hret; reflexivity).
    eexists _, done, []. cbn [snd fst installed_patches patches_success patches_message].
    split; [reflexivity|]. split; [exact Hsplit|]. split; [reflexivity|].
    split; [tauto|]. split.
    { intros _. rewrite Hsplit, app_nil_r. reflexivity. }
    split; [discriminate|]. split; assumption.
  - eexists _, done, rest. cbn [snd fst installed_patches patches_success patches_message].
    split; [reflexivity|]. split; [exact Hsplit|]. split; [reflexivity|].
    split.
    { split; [discriminate|]. intros Hr. apply Hret in Hr. discriminate. }
    split.
    { intros Hr. apply Hret in Hr. discriminate. }
    split; [|split; assumption].
    intros p rest' Hrest. destruct (Hfail p rest' Hrest) as (st0 & Hfs & e' & Hone & He).
    injection He as ->. exists st0, e'. auto.
Qed.

End InstallPatchesFacts.


Section InstalledPluginsFacts.
Import Py PyStr PyText FS DownloadWorker PluginInstaller.

Variable koreader_path : path.
Variable path_str : path -> string.

Lemma dict_set_In {A : Type} (key : string) (value : A) (d : list (string * A))
    (k : string) (v : A) :
  In (k, v) (dict_set key value d) -> (k = key /\ v = value) \/ In (k, v) d.
Proof.
  induction d as [|[k0 v0] d IH]; simpl.
  - intros [[= <- <-]|[]]. auto.
  - destruct (String.eqb_spec k0 key) as [->|Hne]; simpl.
    + intros [[= <- <-]|Hin]; auto.
    + intros [Heq|Hin]; auto. destruct (IH Hin); auto.
Qed.

Lemma dict_set_keys {A : Type} (key : string) (value : A) (d : list (string * A))
    (k : string) :
  In k (List.map fst (dict_set key value d)) <-> k = key \/ In k (List.map fst d).
Proof.
  induction d as [|[k0 v0] d IH]; simpl.
  - intuition.
  - destruct (String.eqb_spec k0 key) as [->|Hne]; simpl.
    + intuition.
    + rewrite IH. intuition.
Qed.

Lemma dict_set_NoDup {A : Type} (key : string) (value : A) (d : list (string * A)) :
  List.NoDup (List.map fst d) -> List.NoDup (List.map fst (dict_set key value d)).
Proof.
  induction d as [|[k0 v0] d IH]; simpl.
  - intros _. constructor; [intros [] | constructor].
  - intros H. inversion H as [|? ? Hfresh Hrest]; subst.
    destruct (String.eqb_spec k0 key) as [->|Hne]; simpl.
    + constructor; assumption.
    + constructor; [|auto]. rewrite dict_set_keys. intros [->|Hin]; auto.
Qed.

(** A directory found by the listing, by its name. *)
Definition listed_dir (found : list (path * node)) (name : string) (d : path) (n : node) : Prop :=
  In (d, n) found /\ is_dir_node n = true /\ basename d = name.

Lemma collect_plugins_spec (found : list (path * node)) :
  forall plugins,
    List.NoDup (List.map fst plugins) ->
    List.NoDup (List.map fst (collect_plugins path_str found plugins))
    /\ (forall k, In k (List.map fst (collect_plugins path_str found plugins))
                  <-> In k (List.map fst plugins) \/ exists d n, listed_dir found k d n)
    /\ (forall k v, In (k, v) (collect_plugins path_str found plugins) ->
                    In (k, v) plugins
                    \/ exists d n, listed_dir found k d n /\ v = plugin_entry path_str d n).
Proof.
  induction found as [|[d n] found IH]; intros plugins Hnd; simpl.
  - split; [exact Hnd|]. split.
    + intros k. split; [auto|]. intros [H|(d & n & [] & _)]; exact H.
    + auto.
  - destruct (is_dir_node n) eqn:Hdir.
    + destruct (IH _ (dict_set_NoDup (basename d) (plugin_entry path_str d n) plugins Hnd))
        as (H1 & H2 & H3).
      split; [exact H1|]. split.
      * intros k. rewrite H2, dict_set_keys. split.
        -- intros [[->|Hin]|(d' & n' & Hin & Hd & Hb)]; auto.
           ++ right. exists d, n. unfold listed_dir. simpl. auto.
           ++ right. exists d', n'. unfold listed_dir. simpl. auto.
        -- intros [Hin|(d' & n' & [[= <- <-]|Hin] & Hd & Hb)]; auto.
           right. exists d', n'. unfold listed_dir. auto.
      * intros k v Hin. destruct (H3 k v Hin) as [Hold|(d' & n' & (Hin' & Hd & Hb) & ->)].
        -- apply dict_set_In in Hold as [[-> ->]|Hold]; auto.
           right. exists d, n. unfold listed_dir. simpl. auto.
        -- right. exists d', n'. unfold listed_dir. simpl. auto.
    + destruct (IH plugins Hnd) as (H1 & H2 & H3).
      split; [exact H1|]. split.
      * intros k. rewrite H2. split.
        -- intros [Hin|(d' & n' & Hin & Hd & Hb)]; auto.
           right. exists d', n'. unfold listed_dir. simpl. auto.
        -- intros [Hin|(d' & n' & [[= <- <-]|Hin] & Hd & Hb)]; auto; [congruence|].
           right. exists d', n'. unfold listed_dir. auto.
      * intros k v Hin. destruct (H3 k v Hin) as [Hold|(d' & n' & (Hin' & Hd & Hb) & ->)]; auto.
        right. exists d', n'. unfold listed_dir. simpl. auto.
Qed.

Lemma basename_child (p : path) (name : string) : basename (p ++ [name])%list = name.
Proof. unfold basename. apply last_last. Qed.

(** X28. The dictionary of [get_installed_plugins] has one key for each name
    ending in [.koplugin] that is a directory in [plugins], and no other.
    Each value belongs to such a directory and carries all four keys: the
    name, which equals the dictionary key, the path, the version read from
    the metadata file or ["Unknown"], and whether the metadata file is
    there. *)
Theorem get_installed_plugins_lists_plugin_directories (root : node) :
  List.NoDup (List.map fst (get_installed_plugins koreader_path path_str root))
  /\ (forall name,
        In name (List.map fst (get_installed_plugins koreader_path path_str root))
        <-> endswith ".koplugin" name = true
            /\ exists es, In ((plugins_path koreader_path ++ [name])%list, Dir es)
                             (glob_star (plugins_path koreader_path) root))
  /\ (forall name info,
        In (name, info) (get_installed_plugins koreader_path path_str root) ->
        exists es,
          In ((plugins_path koreader_path ++ [name])%list, Dir es)
             (glob_star (plugins_path koreader_path) root)
          /\ UpdateService.plugin_name info = Some name
          /\ UpdateService.path info = Some (path_str (plugins_path koreader_path ++ [name])%list)
          /\ UpdateService.version info = Some (read_version (Dir es))
          /\ UpdateService.has_meta info = Some (has_entry "_meta.lua" (Dir es))).
Proof.
  unfold get_installed_plugins.
  set (found := List.filter (fun e => endswith ".koplugin" (basename (fst e)))
                  (glob_star (plugins_path koreader_path) root)).
  assert (Hfound : forall k d n, listed_dir found k d n
            <-> endswith ".koplugin" k = true
                /\ d = (plugins_path koreader_path ++ [k])%list
                /\ exists es, n = Dir es
                   /\ In ((plugins_path koreader_path ++ [k])%list, Dir es)
                         (glob_star (plugins_path koreader_path) root)).
  { intros k d n. unfold listed_dir, found. rewrite filter_In. cbn [fst].
    split.
    - intros ((Hin & Hend) & Hdir & Hb). subst k.
      assert (Hd : d = (plugins_path koreader_path ++ [basename d])%list).
      { unfold glob_star in Hin.
        destruct (lookup (plugins_path koreader_path) root) as [[c|es]|]; try destruct Hin.
        apply in_map_iff in Hin as ([nm c] & [= <- <-] & _). cbn [fst].
        now rewrite basename_child. }
      split; [exact Hend|]. split; [exact Hd|].
      destruct n as [c|es]; [discriminate|]. exists es. split; [reflexivity|].
      rewrite <- Hd. exact Hin.
    - intros (Hend & -> & es & -> & Hin). rewrite basename_child. auto. }
  destruct (collect_plugins_spec found [] (List.NoDup_nil _)) as (H1 & H2 & H3).
  split; [exact H1|]. split.
  - intros name. rewrite H2. split.
    + intros [[]|(d & n & Hl)]. apply Hfound in Hl as (Hend & -> & es & -> & Hin). eauto.
    + intros (Hend & es & Hin). right. exists (plugins_path koreader_path ++ [name])%list, (Dir es).
      apply Hfound. eauto.
  - intros name info Hin. destruct (H3 name info Hin) as [[]|(d & n & Hl & ->)].
    apply Hfound in Hl as (Hend & -> & es & -> & Hin'). exists es.
    cbn. rewrite basename_child. auto.
Qed.

End InstalledPluginsFacts.


Section InstallAgreement.
Import Py PyStr GitHub FS DownloadWorker PluginInstaller.

Variable w : World.
Variable self : worker.
Variable path_str : path -> string.

(** The last signal is [finished(True, ...)]. *)
Definition ends_in_success (signals : list signal) : Prop :=
  exists text, List.last signals (Progress "") = Finished true text.

(** X29. The installer service and the download worker install an archive in
    the same way: from the same state, with the same installation path and
    working directory, [install_plugin_from_zip] and the plugin branch of
    the worker leave the same file system. The service never raises; it
    reports success exactly when the worker ends in [finished(True, ...)],
    and where the worker's steps raise, the service reports that error in
    its message. *)
Theorem install_plugin_from_zip_agrees_with_worker (zip_content repo : string) (st : wstate) :
  let service :=
    install_plugin_from_zip w (install_path self) (cwd self) path_str zip_content repo st in
  let worker := DownloadWorker.install_plugin w self repo zip_content st in
  fs (fst service) = fs (fst worker)
  /\ exists r,
       snd service = Ret r
       /\ (success r = true
           <-> snd worker = Ret tt /\ ends_in_success (emitted (fst worker)))
       /\ (forall e, snd worker = Raise e ->
             success r = false /\ message r = "Error: " ++ exn_msg e).
Proof.
  cbv zeta.
  unfold install_plugin_from_zip, DownloadWorker.install_plugin, _find_plugin_directory,
    locate_plugin, with_koplugin_suffix, plugins_path, failed, ends_in_success,
    wtry, wbind, fs_op, emit, api, fs_read, wret, lift.
  cbn [fs emitted log fst snd].
  destruct (mkdir_exist_ok (cwd self ++ ["temp_download"])%list (fs st)) as [root1|e1];
    cbn [fs emitted log fst snd].
  2:{ split; [reflexivity|]. eexists. split; [reflexivity|]. cbn.
      split; [split; [discriminate | intros [H _]; discriminate] | intros e [= <-]; auto]. }
  destruct (write_file _ zip_content root1) as [root2|e2]; cbn [fs emitted log fst snd].
  2:{ split; [reflexivity|]. eexists. split; [reflexivity|]. cbn.
      split; [split; [discriminate | intros [H _]; discriminate] | intros e [= <-]; auto]. }
  destruct (unzip w zip_content) as [members|e3]; cbn [fs emitted log fst snd].
  2:{ split; [reflexivity|]. eexists. split; [reflexivity|]. cbn.
      split; [split; [discriminate | intros [H _]; discriminate] | intros e [= <-]; auto]. }
  destruct (extractall _ members root2) as [root3|e4]; cbn [fs emitted log fst snd].
  2:{ split; [reflexivity|]. eexists. split; [reflexivity|]. cbn.
      split; [split; [discriminate | intros [H _]; discriminate] | intros e [= <-]; auto]. }
  set (found := match find_plugin_dir (glob_star (cwd self ++ ["temp_download"])%list root3) with
                | Some d => Some d
                | None => find_main_lua_dir (glob_star (cwd self ++ ["temp_download"])%list root3)
                end).
  destruct found as [plugin_dir|]; cbn [fs emitted log fst snd].
  2:{ split; [reflexivity|]. eexists. split; [reflexivity|]. cbn.
      split; [|discriminate].
      split; [discriminate|]. intros [_ [text H]]. rewrite last_last in H. discriminate. }
  set (plugin_name := if negb (endswith ".koplugin" (basename plugin_dir))
                      then (basename plugin_dir ++ ".koplugin")%string
                      else basename plugin_dir).
  replace ((install_path self ++ ["plugins"]) ++ [plugin_name])%list
    with (install_path self ++ ["plugins"; plugin_name])%list
    by (rewrite <- app_assoc; reflexivity).
  set (target := (install_path self ++ ["plugins"; plugin_name])%list).
  destruct (exists_ target root3); cbn [fs emitted log fst snd].
  - destruct (rmtree target root3) as [root4|e5]; cbn [fs emitted log fst snd].
    2:{ split; [reflexivity|]. eexists. split; [reflexivity|]. cbn.
        split; [split; [discriminate | intros [H _]; discriminate] | intros e [= <-]; auto]. }
    destruct (copytree plugin_dir target root4) as [root5|e6]; cbn [fs emitted log fst snd].
    2:{ split; [reflexivity|]. eexists. split; [reflexivity|]. cbn.
        split; [split; [discriminate | intros [H _]; discriminate] | intros e [= <-]; auto]. }
    destruct (rmtree _ root5) as [root6|e7]; cbn [fs emitted log fst snd].
    2:{ split; [reflexivity|]. eexists. split; [reflexivity|]. cbn.
        split; [split; [discriminate | intros [H _]; discriminate] | intros e [= <-]; auto]. }
    destruct (is_update self); cbn [fs emitted log fst snd].
    all: split; [reflexivity|]; eexists; split; [reflexivity|]; cbn [success message];
      split; [|discriminate];
      split; [intros _; split; [reflexivity|]; eexists; apply last_last | reflexivity].
  - destruct (copytree plugin_dir target root3) as [root5|e6]; cbn [fs emitted log fst snd].
    2:{ split; [reflexivity|]. eexists. split; [reflexivity|]. cbn.
        split; [split; [discriminate | intros [H _]; discriminate] | intros e [= <-]; auto]. }
    destruct (rmtree _ root5) as [root6|e7]; cbn [fs emitted log fst snd].
    2:{ split; [reflexivity|]. eexists. split; [reflexivity|]. cbn.
        split; [split; [discriminate | intros [H _]; discriminate] | intros e [= <-]; auto]. }
    destruct (is_update self); cbn [fs emitted log fst snd].
    all: split; [reflexivity|]; eexists; split; [reflexivity|]; cbn [success message];
      split; [|discriminate];
      split; [intros _; split; [reflexivity|]; eexists; apply last_last | reflexivity].
Qed.

End InstallAgreement.


(** ** Well-formed trees: the names of a directory are distinct *)

Section WellFormedFacts.
Import Py PyStr GitHub FS DownloadWorker.

Fixpoint distinct (l : list string) : bool :=
  match l with
  | [] => true
  | x :: l' => (negb (existsb (String.eqb x) l') && distinct l')%bool
  end.

(** Every directory of the tree lists each name once, as a file system
    does. *)
Fixpoint well_formed (n : node) : bool :=
  match n with
  | File _ => true
  | Dir es => (distinct (List.map fst es) && forallb (fun e => well_formed (snd e)) es)%bool
  end.

Lemma distinct_NoDup (l : list string) : distinct l = true <-> List.NoDup l.
Proof.
  induction l as [|a l IH]; simpl.
  - split; [constructor | reflexivity].
  - rewrite andb_true_iff, negb_true_iff, IH. split.
    + intros [H1 H2]. constructor; [|exact H2]. intros Hin.
      assert (existsb (String.eqb a) l = true).
      { apply existsb_exists. exists a. split; [exact Hin | apply String.eqb_refl]. }
      congruence.
    + intros H. inversion H as [|? ? Hfresh Hrest]; subst. split; [|exact Hrest].
      destruct (existsb (String.eqb a) l) eqn:E; [|reflexivity].
      apply existsb_exists in E as (x & Hin & Heq). apply String.eqb_eq in Heq. subst.
      contradiction.
Qed.

Lemma well_formed_Dir (es : list (string * node)) :
  well_formed (Dir es) = true
  <-> List.NoDup (List.map fst es) /\ forall nm c, In (nm, c) es -> well_formed c = true.
Proof.
  simpl. rewrite andb_true_iff, distinct_NoDup, forallb_forall. split.
  - intros [H1 H2]. split; [exact H1|]. intros nm c Hin. exact (H2 _ Hin).
  - intros [H1 H2]. split; [exact H1|]. intros [nm c] Hin. exact (H2 _ _ Hin).
Qed.

Lemma node_induction (P : node -> Prop) :
  (forall content, P (File content)) ->
  (forall es, (forall nm c, In (nm, c) es -> P c) -> P (Dir es)) ->
  forall n, P n.
Proof.
  intros Hfile Hdir. fix IH 1. intros [content|es]; [apply Hfile|].
  apply Hdir. induction es as [|[nm c] es IHes]; intros nm' c' Hin; [destruct Hin|].
  destruct Hin as [E|Hin].
  - injection E as _ <-. apply IH.
  - exact (IHes nm' c' Hin).
Qed.

Lemma set_entry_In (name : string) (c : node) (es : list (string * node))
    (k : string) (v : node) :
  In (k, v) (set_entry name c es) -> (k = name /\ v = c) \/ In (k, v) es.
Proof.
  induction es as [|[n c'] es IH]; simpl.
  - intros [[= <- <-]|[]]. auto.
  - destruct (String.eqb_spec n name) as [->|Hne]; simpl.
    + intros [[= <- <-]|Hin]; auto.
    + intros [Heq|Hin]; auto. destruct (IH Hin); auto.
Qed.

Lemma set_entry_keys (name : string) (c : node) (es : list (string * node)) (k : string) :
  In k (List.map fst (set_entry name c es)) <-> k = name \/ In k (List.map fst es).
Proof.
  induction es as [|[n c'] es IH]; simpl.
  - intuition.
  - destruct (String.eqb_spec n name) as [->|Hne]; simpl.
    + intuition.
    + rewrite IH. intuition.
Qed.

Lemma set_entry_NoDup (name : string) (c : node) (es : list (string * node)) :
  List.NoDup (List.map fst es) -> List.NoDup (List.map fst (set_entry name c es)).
Proof.
  induction es as [|[n c'] es IH]; simpl.
  - intros _. constructor; [intros [] | constructor].
  - intros H. inversion H as [|? ? Hfresh Hrest]; subst.
    destruct (String.eqb_spec n name) as [->|Hne]; simpl.
    + constructor; assumption.
    + constructor; [|auto]. rewrite set_entry_keys. intros [->|Hin]; auto.
Qed.

Lemma remove_entry_In (name : string) (es : list (string * node)) (e : string * node) :
  In e (remove_entry name es) -> In e es.
Proof.
  induction es as [|[n c] es IH]; simpl; [auto|].
  destruct (String.eqb n name); simpl; intuition.
Qed.

Lemma remove_entry_NoDup (name : string) (es : list (string * node)) :
  List.NoDup (List.map fst es) -> List.NoDup (List.map fst (remove_entry name es)).
Proof.
  induction es as [|[n c] es IH]; simpl; [auto|].
  intros H. inversion H as [|? ? Hfresh Hrest]; subst.
  destruct (String.eqb n name); simpl; [exact Hrest|].
  constructor; [|auto]. intros Hin. apply Hfresh.
  apply in_map_iff in Hin as (e & He & Hin). apply in_map_iff. exists e.
  split; [exact He | exact (remove_entry_In _ _ _ Hin)].
Qed.

Lemma assoc_In (name : string) (es : list (string * node)) (c : node) :
  assoc name es = Some c -> In (name, c) es.
Proof.
  induction es as [|[n c'] es IH]; simpl; [discriminate|].
  destruct (String.eqb_spec n name) as [->|Hne].
  - intros [= ->]. auto.
  - auto.
Qed.

Lemma assoc_of_In (name : string) (es : list (string * node)) (c : node) :
  List.NoDup (List.map fst es) -> In (name, c) es -> assoc name es = Some c.
Proof.
  induction es as [|[n c'] es IH]; simpl; [intros _ []|].
  intros H. inversion H as [|? ? Hfresh Hrest]; subst.
  destruct (String.eqb_spec n name) as [->|Hne].
  - intros [[= ->]|Hin]; [reflexivity|]. exfalso. apply Hfresh.
    apply in_map_iff. exists (name, c). auto.
  - intros [[= E _]|Hin]; [contradiction | auto].
Qed.

Lemma well_formed_assoc (name : string) (es : list (string * node)) (c : node) :
  well_formed (Dir es) = true -> assoc name es = Some c -> well_formed c = true.
Proof.
  intros Hwf Ha. apply well_formed_Dir in Hwf as [_ Hall].
  exact (Hall _ _ (assoc_In _ _ _ Ha)).
Qed.

Lemma well_formed_set_entry (name : string) (c : node) (es : list (string * node)) :
  well_formed (Dir es) = true -> well_formed c = true ->
  well_formed (Dir (set_entry name c es)) = true.
Proof.
  intros Hwf Hc. apply well_formed_Dir in Hwf as [Hnd Hall]. apply well_formed_Dir.
  split; [now apply set_entry_NoDup|].
  intros nm c' Hin. apply set_entry_In in Hin as [[_ ->]|Hin]; [exact Hc | exact (Hall _ _ Hin)].
Qed.

Lemma well_formed_remove_entry (name : string) (es : list (string * node)) :
  well_formed (Dir es) = true -> well_formed (Dir (remove_entry name es)) = true.
Proof.
  intros Hwf. apply well_formed_Dir in Hwf as [Hnd Hall]. apply well_formed_Dir.
  split; [now apply remove_entry_NoDup|].
  intros nm c Hin. exact (Hall _ _ (remove_entry_In _ _ _ Hin)).
Qed.

Lemma well_formed_lookup (p : path) :
  forall root n, well_formed root = true -> lookup p root = Some n -> well_formed n = true.
Proof.
  induction p as [|name p IH]; intros root n Hwf; simpl.
  - intros [= <-]. exact Hwf.
  - destruct root as [content|es]; [discriminate|].
    destruct (assoc name es) as [c|] eqn:Ha; [|discriminate].
    apply IH. exact (well_formed_assoc _ _ _ Hwf Ha).
Qed.

Lemma lookup_app (p q : path) :
  forall root,
    lookup (p ++ q)%list root
    = match lookup p root with
      | Some n => lookup q n
      | None => None
      end.
Proof.
  induction p as [|name p IH]; intros root; simpl; [reflexivity|].
  destruct root as [content|es]; [reflexivity|].
  destruct (assoc name es); [apply IH | reflexivity].
Qed.

(** A change that puts only well-formed nodes keeps the tree well formed. *)
Lemma alter_at_well_formed (parents : bool) (whole : path)
    (f : option node -> outcome (option node))
    (Hf : forall cur n, (forall c, cur = Some c -> well_formed c = true) ->
                        f cur = Ret (Some n) -> well_formed n = true)
    (p : path) :
  forall root root',
    well_formed root = true ->
    alter_at parents whole p f root = Ret root' -> well_formed root' = true.
Proof.
  induction p as [|name p IH]; intros root root' Hwf.
  - simpl. destruct (f (Some root)) as [[n|]|e] eqn:E; try discriminate.
    intros [= <-]. apply (Hf (Some root) n); [|exact E]. intros c [= <-]. exact Hwf.
  - destruct root as [content|es]; [discriminate|].
    destruct p as [|y p'].
    + cbn [alter_at]. destruct (f (assoc name es)) as [[n|]|e] eqn:E; try discriminate.
      * intros [= <-]. apply well_formed_set_entry; [exact Hwf|].
        apply (Hf _ n) in E; [exact E|]. intros c Ha. exact (well_formed_assoc _ _ _ Hwf Ha).
      * intros [= <-]. now apply well_formed_remove_entry.
    + rewrite alter_at_below. destruct (assoc name es) as [c|] eqn:Ha.
      * destruct (alter_at parents whole (y :: p') f c) as [c'|e] eqn:Hc; [|discriminate].
        intros [= <-]. apply well_formed_set_entry; [exact Hwf|].
        exact (IH c c' (well_formed_assoc _ _ _ Hwf Ha) Hc).
      * destruct parents; [|discriminate].
        destruct (alter_at true whole (y :: p') f (Dir [])) as [c'|e] eqn:Hc; [|discriminate].
        intros [= <-]. apply well_formed_set_entry; [exact Hwf|].
        exact (IH (Dir []) c' eq_refl Hc).
Qed.

Lemma mkdir_exist_ok_well_formed (p : path) (root root' : node) :
  well_formed root = true -> mkdir_exist_ok p root = Ret root' -> well_formed root' = true.
Proof.
  intros Hwf H. unfold mkdir_exist_ok in H.
  eapply alter_at_well_formed; [|exact Hwf|exact H].
  intros [[c|es]|] n Hcur; try discriminate.
  - intros [= <-]. now apply Hcur.
  - intros [= <-]. reflexivity.
Qed.

Lemma makedirs_well_formed (p : path) (root root' : node) :
  well_formed root = true -> makedirs p root = Ret root' -> well_formed root' = true.
Proof.
  intros Hwf H. unfold makedirs in H.
  eapply alter_at_well_formed; [|exact Hwf|exact H].
  intros [[c|es]|] n Hcur; try discriminate.
  - intros [= <-]. now apply Hcur.
  - intros [= <-]. reflexivity.
Qed.

Lemma write_file_well_formed (p : path) (content : string) (root root' : node) :
  well_formed root = true -> write_file p content root = Ret root' -> well_formed root' = true.
Proof.
  intros Hwf H. unfold write_file in H.
  eapply alter_at_well_formed; [|exact Hwf|exact H].
  intros [[c|es]|] n Hcur; try discriminate; intros [= <-]; reflexivity.
Qed.

Lemma rmtree_well_formed (p : path) (root root' : node) :
  well_formed root = true -> rmtree p root = Ret root' -> well_formed root' = true.
Proof.
  intros Hwf H. unfold rmtree in H.
  eapply alter_at_well_formed; [|exact Hwf|exact H].
  intros [[c|es]|] n Hcur; discriminate.
Qed.

Lemma copytree_well_formed (src dst : path) (root root' : node) :
  well_formed root = true -> copytree src dst root = Ret root' -> well_formed root' = true.
Proof.
  intros Hwf H. unfold copytree in H.
  destruct (lookup src root) as [[c|es]|] eqn:Hsrc; try discriminate.
  eapply alter_at_well_formed; [|exact Hwf|exact H].
  intros [c|] n Hcur; try discriminate.
  intros [= <-]. exact (well_formed_lookup _ _ _ Hwf Hsrc).
Qed.

Lemma extractall_well_formed (dest : path) (members : list zip_member) :
  forall root root',
    well_formed root = true -> extractall dest members root = Ret root' ->
    well_formed root' = true.
Proof.
  induction members as [|m members IH]; intros root root' Hwf; simpl.
  - intros [= <-]. exact Hwf.
  - destruct (extract_member dest m root) as [root1|e] eqn:Hm; [|discriminate].
    apply IH. unfold extract_member in Hm.
    destruct (member_data m) as [data|].
    + eapply alter_at_well_formed; [|exact Hwf|exact Hm].
      intros [[c|es]|] n Hcur; try discriminate; intros [= <-]; reflexivity.
    + exact (makedirs_well_formed _ _ _ Hwf Hm).
Qed.

(** In a well-formed tree a listed entry is what the path leads to. *)
Lemma glob_star_lookup (p r : path) (root rn : node) :
  well_formed root = true -> In (r, rn) (glob_star p root) -> lookup r root = Some rn.
Proof.
  intros Hwf. unfold glob_star.
  destruct (lookup p root) as [[c|es]|] eqn:Hp; try contradiction.
  intros H. apply in_map_iff in H as ([nm c] & [= <- <-] & Hin). cbn [fst snd].
  rewrite lookup_app, Hp. simpl.
  apply well_formed_lookup with (n := Dir es) in Hp; [|exact Hwf].
  apply well_formed_Dir in Hp as [Hnd _]. now rewrite (assoc_of_In _ _ _ Hnd Hin).
Qed.

Lemma rglob_suffix_lookup (suffix : string) (n : node) :
  forall (p d : path) (x : node),
    well_formed n = true ->
    In (d, x) (rglob_suffix suffix p n) ->
    exists rel, d = (p ++ rel)%list /\ lookup rel n = Some x.
Proof.
  induction n as [content|es IH] using node_induction; intros p d x Hwf; simpl;
    [contradiction|].
  pose proof (proj1 (well_formed_Dir es) Hwf) as [Hnd Hall].
  intros H. apply in_app_or in H as [H|H].
  - apply in_map_iff in H as ([nm c] & [= <- <-] & Hin). apply filter_In in Hin as [Hin _].
    exists [nm]. split; [reflexivity|]. simpl. now rewrite (assoc_of_In _ _ _ Hnd Hin).
  - apply in_flat_map in H as ([nm c] & Hin & H). cbn [fst snd] in H.
    destruct (IH nm c Hin _ _ _ (Hall _ _ Hin) H) as (rel & -> & Hrel).
    exists (nm :: rel). split; [now rewrite <- app_assoc|].
    simpl. now rewrite (assoc_of_In _ _ _ Hnd Hin).
Qed.

(** In a well-formed tree the directory [locate_plugin] returns stands
    below the scratch directory and holds main.lua. *)
Lemma locate_plugin_lookup (temp_dir d : path) (root : node) :
  well_formed root = true ->
  locate_plugin temp_dir root = Some d ->
  exists rel es,
    d = (temp_dir ++ rel)%list /\ lookup d root = Some (Dir es)
    /\ has_entry "main.lua" (Dir es) = true.
Proof.
  intros Hwf. unfold locate_plugin.
  assert (Hnode : forall x, is_dir_node x = true -> exists es, x = Dir es).
  { intros [c|es] H; [discriminate | eauto]. }
  destruct (find_plugin_dir (glob_star temp_dir root)) as [d'|] eqn:Hfind.
  - intros [= <-]. apply find_plugin_dir_Some in Hfind
      as (r & rn & Hin & Hdir & [[-> Hmm]|(x & Hx & Hxdir & Hmm)]).
    + destruct (glob_star_below _ _ _ _ Hin) as [last ->].
      destruct (Hnode _ Hdir) as [es ->].
      exists [last], es. split; [reflexivity|]. split; [exact (glob_star_lookup _ _ _ _ Hwf Hin)|].
      unfold has_main_and_meta in Hmm. now apply andb_prop in Hmm as [H _].
    + pose proof (glob_star_lookup _ _ _ _ Hwf Hin) as Hr.
      destruct (glob_star_below _ _ _ _ Hin) as [last ->].
      destruct (rglob_suffix_lookup _ _ _ _ _ (well_formed_lookup _ _ _ Hwf Hr) Hx)
        as (rel & -> & Hrel).
      destruct (Hnode _ Hxdir) as [es ->].
      exists ([last] ++ rel)%list, es. split; [now rewrite app_assoc|].
      split; [now rewrite lookup_app, Hr|].
      unfold has_main_and_meta in Hmm. now apply andb_prop in Hmm as [H _].
  - intros Hfind2. apply find_main_lua_dir_Some in Hfind2 as (rn & Hin & Hdir & Hmain).
    destruct (glob_star_below _ _ _ _ Hin) as [last ->].
    destruct (Hnode _ Hdir) as [es ->].
    exists [last], es. split; [reflexivity|]. split; [exact (glob_star_lookup _ _ _ _ Hwf Hin)|].
    exact Hmain.
Qed.

End WellFormedFacts.


(** ** What a successful installation leaves behind *)

Section InstallSuccess.
Import Py PyStr GitHub FS DownloadWorker PluginInstaller.

Lemma with_koplugin_suffix_ends (plugin_name : string) :
  endswith ".koplugin" (with_koplugin_suffix plugin_name) = true.
Proof.
  unfold with_koplugin_suffix.
  destruct (endswith ".koplugin" plugin_name) eqn:E; simpl; [exact E|].
  apply endswith_spec. exists plugin_name. reflexivity.
Qed.

Lemma rmtree_existed (p : path) (root root' : node) :
  rmtree p root = Ret root' -> exists es, lookup p root = Some (Dir es).
Proof.
  intros H. unfold rmtree in H. apply lookup_alter_at_same in H as (r & Hr & _).
  destruct (lookup p root) as [[c|es]|]; try discriminate. eauto.
Qed.

Lemma copytree_lookup (src dst : path) (root root' : node) (es : list (string * node)) :
  lookup src root = Some (Dir es) ->
  copytree src dst root = Ret root' -> lookup dst root' = Some (Dir es).
Proof.
  intros Hsrc H. unfold copytree in H. rewrite Hsrc in H.
  apply lookup_alter_at_same in H as (r & Hr & Hput). apply Hput.
  destruct (lookup dst root); [discriminate | now injection Hr].
Qed.

Lemma copytree_elsewhere (src : path) (common : path) (a b : string) (p1 q1 : path)
    (root root' : node) :
  a <> b ->
  copytree src (common ++ a :: p1)%list root = Ret root' ->
  lookup (common ++ b :: q1)%list root' = lookup (common ++ b :: q1)%list root.
Proof.
  intros Hne H. unfold copytree in H.
  destruct (lookup src root) as [[c|es]|]; try discriminate.
  exact (lookup_alter_at_diverge _ _ _ common a b p1 q1 root root' Hne H).
Qed.

(** The last steps of an installation: the old copy goes, the located
    directory is copied to the target, the scratch directory goes. *)
Lemma install_steps (common p q : path) (a b : string) (working_dir rel : path)
    (name : string) (es : list (string * node)) (root3 root4 root5 root6 : node) :
  a <> b ->
  (working_dir ++ ["temp_download"])%list = (common ++ a :: p)%list ->
  well_formed root3 = true ->
  lookup ((working_dir ++ ["temp_download"]) ++ rel)%list root3 = Some (Dir es) ->
  (if exists_ (common ++ b :: q ++ [name])%list root3
   then rmtree (common ++ b :: q ++ [name])%list root3 else Ret root3) = Ret root4 ->
  copytree ((working_dir ++ ["temp_download"]) ++ rel)%list
    (common ++ b :: q ++ [name])%list root4 = Ret root5 ->
  rmtree (working_dir ++ ["temp_download"])%list root5 = Ret root6 ->
  lookup (common ++ b :: q ++ [name])%list root6 = Some (Dir es)
  /\ lookup (working_dir ++ ["temp_download"])%list root6 = None
  /\ well_formed root6 = true.
Proof.
  intros Hne Htemp Hwf Hd H4 H5 H6.
  assert (Hwf4 : well_formed root4 = true
                 /\ lookup ((working_dir ++ ["temp_download"]) ++ rel)%list root4 = Some (Dir es)).
  { destruct (exists_ _ root3).
    - split; [exact (rmtree_well_formed _ _ _ Hwf H4)|].
      rewrite <- Hd. rewrite Htemp, <- app_assoc. cbn [app].
      apply (rmtree_elsewhere common b a (q ++ [name])%list (p ++ rel)%list root3 root4);
        [congruence | exact H4].
    - injection H4 as <-. auto. }
  destruct Hwf4 as [Hwf4 Hd4].
  pose proof (copytree_well_formed _ _ _ _ Hwf4 H5) as Hwf5.
  pose proof (copytree_lookup _ _ _ _ _ Hd4 H5) as Ht5.
  split; [|split].
  - rewrite <- Ht5. rewrite Htemp in H6.
    apply (rmtree_elsewhere common a b p (q ++ [name])%list root5 root6 Hne H6).
  - destruct (rmtree_existed _ _ _ H6) as [est Hest].
    rewrite lookup_app in Hest.
    destruct (lookup working_dir root5) as [[c|esw]|] eqn:Hw; try discriminate.
    apply well_formed_lookup with (n := Dir esw) in Hw as Hwfw; [|exact Hwf5].
    apply well_formed_Dir in Hwfw as [Hnd _].
    exact (rmtree_removes _ _ _ _ esw Hw Hnd H6).
  - exact (rmtree_well_formed _ _ _ Hwf5 H6).
Qed.

Section Service.
Variable w : World.
Variables koreader_path working_dir : path.
Variable path_str : path -> string.

(** X30. When [install_plugin_from_zip] reports success on a well-formed file
    system in which the scratch directory and the plugins directory lie on
    different branches, the plugin name it reports ends in [.koplugin],
    [plugins/<plugin name>] is a directory that holds main.lua, the scratch
    directory temp_download is gone, and the file system is well formed
    again. *)
Theorem install_plugin_from_zip_success (common p q : path) (a b : string)
    (zip_content repo : string) (st : wstate) (r : install_result) :
  a <> b ->
  (working_dir ++ ["temp_download"])%list = (common ++ a :: p)%list ->
  plugins_path koreader_path = (common ++ b :: q)%list ->
  well_formed (fs st) = true ->
  snd (install_plugin_from_zip w koreader_path working_dir path_str zip_content repo st)
  = Ret r ->
  success r = true ->
  let root' :=
    fs (fst (install_plugin_from_zip w koreader_path working_dir path_str zip_content repo st)) in
  endswith ".koplugin" (result_plugin_name r) = true
  /\ (exists es,
        lookup (plugins_path koreader_path ++ [result_plugin_name r])%list root' = Some (Dir es)
        /\ has_entry "main.lua" (Dir es) = true)
  /\ lookup (working_dir ++ ["temp_download"])%list root' = None
  /\ well_formed root' = true.
Proof.
  intros Hne Htemp Hplugins Hwf. cbv zeta.
  unfold install_plugin_from_zip, failed,
    wtry, wbind, fs_op, emit, api, fs_read, wret, lift.
  cbn [fs emitted log fst snd].
  destruct (mkdir_exist_ok (working_dir ++ ["temp_download"])%list (fs st)) as [root1|e1] eqn:H1;
    cbn [fs emitted log fst snd]; [|intros [= E]; subst r; discriminate].
  destruct (write_file _ zip_content root1) as [root2|e2] eqn:H2;
    cbn [fs emitted log fst snd]; [|intros [= E]; subst r; discriminate].
  destruct (unzip w zip_content) as [members|e3];
    cbn [fs emitted log fst snd]; [|intros [= E]; subst r; discriminate].
  destruct (extractall _ members root2) as [root3|e4] eqn:H3;
    cbn [fs emitted log fst snd]; [|intros [= E]; subst r; discriminate].
  assert (Hwf3 : well_formed root3 = true).
  { eapply extractall_well_formed; [|exact H3].
    eapply write_file_well_formed; [|exact H2].
    eapply mkdir_exist_ok_well_formed; [exact Hwf | exact H1]. }
  destruct (_find_plugin_directory (working_dir ++ ["temp_download"])%list root3)
    as [plugin_dir|] eqn:Hloc;
    cbn [fs emitted log fst snd]; [|intros [= E]; subst r; discriminate].
  change (locate_plugin (working_dir ++ ["temp_download"])%list root3 = Some plugin_dir) in Hloc.
  destruct (locate_plugin_lookup _ _ _ Hwf3 Hloc) as (rel & es & -> & Hd & Hmain).
  set (name := with_koplugin_suffix (basename ((working_dir ++ ["temp_download"]) ++ rel)%list)).
  rewrite Hplugins. rewrite <- (app_assoc common (b :: q) [name]). cbn [app].
  destruct (exists_ (common ++ b :: q ++ [name])%list root3) eqn:Hpresent;
    cbn [fs emitted log fst snd].
  - destruct (rmtree (common ++ b :: q ++ [name])%list root3) as [root4|e5] eqn:H4;
      cbn [fs emitted log fst snd]; [|intros [= E]; subst r; discriminate].
    destruct (copytree _ _ root4) as [root5|e6] eqn:H5;
      cbn [fs emitted log fst snd]; [|intros [= E]; subst r; discriminate].
    destruct (rmtree (working_dir ++ ["temp_download"])%list root5) as [root6|e7] eqn:H6;
      cbn [fs emitted log fst snd]; [|intros [= E]; subst r; discriminate].
    intros [= E] _; subst r. cbn [result_plugin_name].
    destruct (install_steps common p q a b working_dir rel name es root3 root4 root5 root6
                Hne Htemp Hwf3 Hd) as (Ht & Hgone & Hwf6); auto.
    { now rewrite Hpresent. }
    split; [apply with_koplugin_suffix_ends|].
    rewrite <- (app_assoc common (b :: q) [name]). cbn [app]. eauto.
  - destruct (copytree _ _ root3) as [root5|e6] eqn:H5;
      cbn [fs emitted log fst snd]; [|intros [= E]; subst r; discriminate].
    destruct (rmtree (working_dir ++ ["temp_download"])%list root5) as [root6|e7] eqn:H6;
      cbn [fs emitted log fst snd]; [|intros [= E]; subst r; discriminate].
    intros [= E] _; subst r. cbn [result_plugin_name].
    destruct (install_steps common p q a b working_dir rel name es root3 root3 root5 root6
                Hne Htemp Hwf3 Hd) as (Ht & Hgone & Hwf6); auto.
    { now rewrite Hpresent. }
    split; [apply with_koplugin_suffix_ends|].
    rewrite <- (app_assoc common (b :: q) [name]). cbn [app]. eauto.
Qed.

End Service.

End InstallSuccess.


Section InstallSuccessWorker.
Import Py PyStr GitHub FS DownloadWorker PluginInstaller.

(** An archive that unpacks to demo-main/demo.koplugin with both files. *)
Definition archive_members : list zip_member :=
  [ {| member_path := ["demo-main"]; member_data := None |};
    {| member_path := ["demo-main"; "demo.koplugin"]; member_data := None |};
    {| member_path := ["demo-main"; "demo.koplugin"; "main.lua"];
       member_data := Some "return { new = true }" |};
    {| member_path := ["demo-main"; "demo.koplugin"; "_meta.lua"];
       member_data := Some "version = '2.0'" |} ].

(** A world in which the branch archive of every repository is that
    archive and nothing else can be fetched. *)
Definition world_with_archive : World :=
  {| http_latest_release := fun _ _ => Raise Scenarios.http_404;
     http_commits := fun _ _ => Raise Scenarios.http_404;
     http_search := fun _ => Raise Scenarios.http_404;
     http_releases := fun _ _ => Ret [];
     http_contents := fun _ _ => Raise Scenarios.http_404;
     http_download := fun _ => Ret "PK-archive";
     http_text := fun _ => Raise Scenarios.http_404;
     unzip := fun _ => Ret archive_members;
     path_exists := fun _ => Ret false;
     st_mtime := fun _ => Raise Scenarios.no_such_file;
     fromisoformat := DateTime.fromisoformat_seconds;
     utc_now := Scenarios.jan_12;
     local_offset := 0 |}.

Lemma install_plugin_from_zip_success_witness :
  let out := install_plugin_from_zip world_with_archive ["mnt"; "koreader"] ["home"]
               (FS.join "/") "PK-archive" "demo" Scenarios.fresh_state in
  endswith ".koplugin" "demo.koplugin" = true
  /\ (exists es,
        lookup (plugins_path ["mnt"; "koreader"] ++ ["demo.koplugin"])%list (fs (fst out))
        = Some (Dir es)
        /\ has_entry "main.lua" (Dir es) = true)
  /\ lookup (["home"] ++ ["temp_download"])%list (fs (fst out)) = None
  /\ well_formed (fs (fst out)) = true.
Proof.
  exact (install_plugin_from_zip_success world_with_archive ["mnt"; "koreader"] ["home"]
           (FS.join "/") [] ["temp_download"] ["koreader"; "plugins"] "home" "mnt"
           "PK-archive" "demo" Scenarios.fresh_state
           {| success := true; message := "demo installed successfully!";
              result_plugin_name := "demo.koplugin";
              result_plugin_path := "mnt/koreader/plugins/demo.koplugin" |}
           ltac:(discriminate) eq_refl eq_refl eq_refl eq_refl eq_refl).
Defined.

Variable w : World.
Variable self : worker.

Lemma install_plugin_success (common p q : path) (a b : string)
    (zip_content repo : string) (st st' : wstate) :
  a <> b ->
  (cwd self ++ ["temp_download"])%list = (common ++ a :: p)%list ->
  (install_path self ++ ["plugins"])%list = (common ++ b :: q)%list ->
  well_formed (fs st) = true ->
  DownloadWorker.install_plugin w self repo zip_content st = (st', Ret tt) ->
  ends_in_success (emitted st') ->
  exists name es,
    endswith ".koplugin" name = true
    /\ lookup (install_path self ++ ["plugins"; name])%list (fs st') = Some (Dir es)
    /\ has_entry "main.lua" (Dir es) = true
    /\ lookup (cwd self ++ ["temp_download"])%list (fs st') = None
    /\ well_formed (fs st') = true.
Proof.
  intros Hne Htemp Hplugins Hwf.
  unfold DownloadWorker.install_plugin, ends_in_success,
    wtry, wbind, fs_op, emit, api, fs_read, wret, lift.
  cbn [fs emitted log fst snd].
  destruct (mkdir_exist_ok (cwd self ++ ["temp_download"])%list (fs st)) as [root1|e1] eqn:H1;
    cbn [fs emitted log fst snd]; [|discriminate].
  destruct (write_file _ zip_content root1) as [root2|e2] eqn:H2;
    cbn [fs emitted log fst snd]; [|discriminate].
  destruct (unzip w zip_content) as [members|e3];
    cbn [fs emitted log fst snd]; [|discriminate].
  destruct (extractall _ members root2) as [root3|e4] eqn:H3;
    cbn [fs emitted log fst snd]; [|discriminate].
  assert (Hwf3 : well_formed root3 = true).
  { eapply extractall_well_formed; [|exact H3].
    eapply write_file_well_formed; [|exact H2].
    eapply mkdir_exist_ok_well_formed; [exact Hwf | exact H1]. }
  destruct (locate_plugin (cwd self ++ ["temp_download"])%list root3) as [plugin_dir|] eqn:Hloc;
    cbn [fs emitted log fst snd].
  2:{ intros [= <-] [text H]. cbn [emitted] in H. rewrite last_last in H. discriminate. }
  destruct (locate_plugin_lookup _ _ _ Hwf3 Hloc) as (rel & es & -> & Hd & Hmain).
  fold (with_koplugin_suffix (basename ((cwd self ++ ["temp_download"]) ++ rel)%list)).
  set (name := with_koplugin_suffix (basename ((cwd self ++ ["temp_download"]) ++ rel)%list)).
  assert (Htarget : (install_path self ++ ["plugins"; name])%list
                    = (common ++ b :: q ++ [name])%list).
  { change (install_path self ++ ["plugins"; name])%list
      with (install_path self ++ ["plugins"] ++ [name])%list.
    rewrite app_assoc, Hplugins, <- app_assoc. reflexivity. }
  rewrite Htarget.
  destruct (exists_ (common ++ b :: q ++ [name])%list root3) eqn:Hpresent;
    cbn [fs emitted log fst snd].
  - destruct (rmtree (common ++ b :: q ++ [name])%list root3) as [root4|e5] eqn:H4;
      cbn [fs emitted log fst snd]; [|discriminate].
    destruct (copytree _ _ root4) as [root5|e6] eqn:H5;
      cbn [fs emitted log fst snd]; [|discriminate].
    destruct (rmtree (cwd self ++ ["temp_download"])%list root5) as [root6|e7] eqn:H6;
      cbn [fs emitted log fst snd]; [|discriminate].
    intros Hst _.
    assert (Hfs : fs st' = root6) by (destruct (is_update self); injection Hst as <-; reflexivity).
    rewrite Hfs.
    destruct (install_steps common p q a b (cwd self) rel name es root3 root4 root5 root6
                Hne Htemp Hwf3 Hd) as (Ht & Hgone & Hwf6); auto.
    { now rewrite Hpresent. }
    exists name, es. rewrite Htarget. split; [apply with_koplugin_suffix_ends|]. auto.
  - destruct (copytree _ _ root3) as [root5|e6] eqn:H5;
      cbn [fs emitted log fst snd]; [|discriminate].
    destruct (rmtree (cwd self ++ ["temp_download"])%list root5) as [root6|e7] eqn:H6;
      cbn [fs emitted log fst snd]; [|discriminate].
    intros Hst _.
    assert (Hfs : fs st' = root6) by (destruct (is_update self); injection Hst as <-; reflexivity).
    rewrite Hfs.
    destruct (install_steps common p q a b (cwd self) rel name es root3 root3 root5 root6
                Hne Htemp Hwf3 Hd) as (Ht & Hgone & Hwf6); auto.
    { now rewrite Hpresent. }
    exists name, es. rewrite Htarget. split; [apply with_koplugin_suffix_ends|]. auto.
Qed.

(** X23. When the worker, run for a plugin on a well-formed file system in
    which the scratch directory and the plugins directory lie on different
    branches, ends with [finished(True, ...)], the plugins directory holds
    a directory whose name ends in [.koplugin] and that has main.lua, the
    scratch directory temp_download is gone, and the file system is well
    formed again. *)
Theorem run_success_installs_plugin (common p q : path) (a b : string) (st : wstate) :
  a <> b ->
  (cwd self ++ ["temp_download"])%list = (common ++ a :: p)%list ->
  (install_path self ++ ["plugins"])%list = (common ++ b :: q)%list ->
  item_type self = "plugin" ->
  well_formed (fs st) = true ->
  ends_in_success (emitted (fst (run w self st))) ->
  exists name es,
    endswith ".koplugin" name = true
    /\ lookup (install_path self ++ ["plugins"; name])%list (fs (fst (run w self st)))
       = Some (Dir es)
    /\ has_entry "main.lua" (Dir es) = true
    /\ lookup (cwd self ++ ["temp_download"])%list (fs (fst (run w self st))) = None
    /\ well_formed (fs (fst (run w self st))) = true.
Proof.
  intros Hne Htemp Hplugins Htype Hwf.
  assert (Hrun :
    (exists st2 st3 zip_content,
       fs st2 = fs st
       /\ DownloadWorker.install_plugin w self (name (item_data self)) zip_content st2
          = (st3, Ret tt)
       /\ fst (run w self st) = st3)
    \/ (exists signals text,
          emitted (fst (run w self st)) = (signals ++ [Finished false text])%list)).
  { unfold run. rewrite Htype. cbn [String.eqb Ascii.eqb Bool.eqb].
    unfold wtry, wbind, emit, api. cbn [fs emitted log fst snd].
    destruct (download_repository_zip w (owner_login (item_data self))
                (name (item_data self)) "main")
      as [calls [[[|c rest]|]|e]]; cbn [fs emitted log fst snd].
    - right. eauto.
    - match goal with |- context [DownloadWorker.install_plugin w self ?r ?z ?s] =>
        destruct (DownloadWorker.install_plugin w self r z s) as [st3 [[]|e]] eqn:Hinst
      end; cbn [fs emitted log fst snd].
      + left. eexists _, st3, _. split; [|split; [exact Hinst | reflexivity]]. reflexivity.
      + right. eauto.
    - right. eauto.
    - right. eauto. }
  destruct Hrun as [(st2 & st3 & zip_content & Hfs & Hinst & ->)|(signals & text & ->)].
  - intros Hok.
    eapply (install_plugin_success common p q a b _ _ st2 st3 Hne Htemp Hplugins);
      [|exact Hinst|exact Hok].
    rewrite Hfs. exact Hwf.
  - intros [text' H]. rewrite last_last in H. discriminate.
Qed.

End InstallSuccessWorker.

Lemma run_success_installs_plugin_witness :
  let after := fst (DownloadWorker.run world_with_archive (Scenarios.worker_for "plugin")
                      Scenarios.fresh_state) in
  exists name es,
    PyStr.endswith ".koplugin" name = true
    /\ FS.lookup (["mnt"; "koreader"] ++ ["plugins"; name])%list (DownloadWorker.fs after)
       = Some (FS.Dir es)
    /\ DownloadWorker.has_entry "main.lua" (FS.Dir es) = true
    /\ FS.lookup (["home"] ++ ["temp_download"])%list (DownloadWorker.fs after) = None
    /\ well_formed (DownloadWorker.fs after) = true.
Proof.
  apply (run_success_installs_plugin world_with_archive (Scenarios.worker_for "plugin")
           [] ["temp_download"] ["koreader"; "plugins"] "home" "mnt" Scenarios.fresh_state
           ltac:(discriminate) eq_refl eq_refl eq_refl eq_refl).
  exists "demo.koplugin installed successfully!". vm_compute. reflexivity.
Defined.


(** ** The README of a repository *)

Section ImagePathFacts.
Import PyStr Readme.

(** The markdown of an image. *)
Definition image (alt_text image_path : string) : string :=
  "![" ++ alt_text ++ "](" ++ image_path ++ ")".

Lemma until_reads (stop : ascii) (run rest : string) :
  occurs stop run = false -> until stop (run ++ String stop rest) = Some (run, rest).
Proof.
  induction run as [|c run IH].
  - intros _. rewrite append_nil_l. simpl. now rewrite Ascii.eqb_refl.
  - rewrite append_cons. simpl.
    destruct (Ascii.eqb c stop); [discriminate|]. intros H. now rewrite IH.
Qed.

Lemma match_image_reads (alt_text image_path post : string) :
  occurs "]" alt_text = false -> occurs ")" image_path = false -> image_path <> "" ->
  match_image (image alt_text image_path ++ post) = Some (alt_text, image_path, post).
Proof.
  intros Halt Hpath Hne. unfold image.
  rewrite !append_assoc.
  change ("![" ++ alt_text ++ "](" ++ image_path ++ ")" ++ post)
    with (String "!" (String "[" (alt_text ++ String "]" (String "(" (image_path ++ String ")" post))))).
  cbn [match_image]. rewrite !Ascii.eqb_refl. cbn [andb].
  rewrite (until_reads _ _ _ Halt). rewrite Ascii.eqb_refl.
  rewrite (until_reads _ _ _ Hpath).
  destruct image_path; [contradiction | reflexivity].
Qed.

Lemma match_image_needs_bang (c : ascii) (s : string) :
  c <> "!"%char -> match_image (String c s) = None.
Proof.
  intros Hc. simpl. destruct s as [|b s]; [reflexivity|].
  destruct (Ascii.eqb_spec c "!"); [contradiction | reflexivity].
Qed.

Lemma sub_images_without_bang (owner repo pre s : string) :
  occurs "!" pre = false ->
  sub_images owner repo 0 (pre ++ s) = pre ++ sub_images owner repo 0 s.
Proof.
  induction pre as [|c pre IH]; [reflexivity|]. simpl occurs.
  destruct (Ascii.eqb_spec c "!"%char) as [|Hne]; [discriminate|]. intros Hpre.
  rewrite !append_cons. cbn [sub_images].
  rewrite match_image_needs_bang by exact Hne. now rewrite IH.
Qed.

Lemma sub_images_skips (owner repo matched rest : string) :
  sub_images owner repo (String.length matched) (matched ++ rest)
  = sub_images owner repo 0 rest.
Proof.
  induction matched as [|c matched IH]; [reflexivity|].
  rewrite append_cons. exact IH.
Qed.

Lemma append_empty_r (s : string) : s ++ "" = s.
Proof. induction s as [|c s IH]; [reflexivity|]. rewrite append_cons. now f_equal. Qed.

Lemma length_append (a b : string) :
  String.length (a ++ b) = (String.length a + String.length b)%nat.
Proof. induction a as [|c a IH]; [reflexivity|]. rewrite append_cons. simpl. now rewrite IH. Qed.

(** X18. [_process_image_paths] leaves a text without exclamation mark as it
    is. In a text whose first exclamation mark opens an image, the image is
    rewritten and the rest of the text is processed in the same way: a path
    that starts with [http://] or [https://] stays, any other path loses its
    leading slashes and is put below the raw address of the branch [main] of
    the repository. *)
Theorem process_image_paths_rewrites_relative_images (owner repo : string) :
  (forall s, occurs "!" s = false -> _process_image_paths s owner repo = s)
  /\ (forall pre alt_text image_path post,
        occurs "!" pre = false -> occurs "]" alt_text = false ->
        occurs ")" image_path = false -> image_path <> "" ->
        _process_image_paths (pre ++ image alt_text image_path ++ post) owner repo
        = pre
          ++ image alt_text
               (if (startswith "http://" image_path || startswith "https://" image_path)%bool
                then image_path
                else "https://raw.githubusercontent.com/" ++ owner ++ "/" ++ repo ++ "/main/"
                     ++ lstrip "/" image_path)
          ++ _process_image_paths post owner repo).
Proof.
  unfold _process_image_paths. split.
  - intros s Hs. pose proof (sub_images_without_bang owner repo s "" Hs) as H.
    cbn [sub_images] in H. now rewrite !append_empty_r in H.
  - intros pre alt_text image_path post Hpre Halt Hpath Hne.
    rewrite sub_images_without_bang by exact Hpre. f_equal.
    pose proof (match_image_reads alt_text image_path post Halt Hpath Hne) as Hm.
    assert (Hshape : exists tail, image alt_text image_path = String "!" tail).
    { unfold image. eexists. reflexivity. }
    destruct Hshape as [tail Htail].
    rewrite Htail in *. rewrite append_cons in *.
    cbn [sub_images]. rewrite Hm.
    replace (String.length (tail ++ post) - String.length post)%nat with (String.length tail)
      by (rewrite length_append; lia).
    rewrite sub_images_skips. f_equal.
    unfold replace_image, image.
    destruct (startswith "http://" image_path || startswith "https://" image_path)%bool;
      rewrite ?append_assoc; reflexivity.
Qed.

End ImagePathFacts.


Section ReadmeFacts.
Import PyStr Py Readme.

Variable get_json : string -> answer readme_data.
Variable get_text : string -> answer string.
Variable b64decode_utf8 : string -> option string.
Variables owner repo : string.

Local Abbreviation readme := (get_repository_readme get_json get_text b64decode_utf8 owner repo).
Local Abbreviation loop := (readme_loop get_json get_text b64decode_utf8 owner repo).
Local Abbreviation turn_of := (try_name get_json get_text b64decode_utf8 owner repo).

(** The file of that name is not there. *)
Definition not_found (readme_name : string) : Prop :=
  get_json (contents_url owner repo readme_name) = Failed (HTTPError 404).

Lemma try_name_not_found (n : string) :
  not_found n -> turn_of n = ([contents_url owner repo n], Continue).
Proof. unfold not_found, try_name. intros ->. reflexivity. Qed.

Lemma readme_loop_passes (before rest : list string) :
  (forall n, In n before -> not_found n) ->
  loop (before ++ rest)%list
  = ((List.map (contents_url owner repo) before ++ fst (loop rest))%list, snd (loop rest)).
Proof.
  induction before as [|n before IH]; intros Hall.
  - simpl. now destruct (loop rest).
  - cbn [app readme_loop List.map]. rewrite (try_name_not_found n) by (apply Hall; now left).
    rewrite IH by (intros m Hm; apply Hall; now right). reflexivity.
Qed.

(** X19. [get_repository_readme] tries the six names in order and stops at the
    first that is not answered by 404. When a name's file has a download
    address whose text can be fetched, that text, with its image paths
    processed, is returned and nothing more is requested. An HTTP error
    other than 404 ends the search with the message that carries the status
    code, and a network error ends it with the network-error message. When
    all six names are answered by 404 the README endpoint is asked last: 404
    there gives the message that no README was found, and so does a network
    error there. *)
Theorem get_repository_readme_search :
  (forall before name later,
     readme_names = (before ++ name :: later)%list ->
     (forall n, In n before -> not_found n) ->
     (forall data content,
        get_json (contents_url owner repo name) = Ok data ->
        truthy (dict_get (readme_download_url data) "") = true ->
        get_text (dict_get (readme_download_url data) "") = Ok content ->
        readme = ((List.map (contents_url owner repo) (before ++ [name])
                   ++ [dict_get (readme_download_url data) ""])%list,
                  _process_image_paths content owner repo))
     /\ (forall status_code,
           get_json (contents_url owner repo name) = Failed (HTTPError status_code) ->
           status_code <> 404 ->
           readme = (List.map (contents_url owner repo) (before ++ [name]),
                     "README not available (HTTP " ++ str_of_int status_code ++ ")"))
     /\ (forall text,
           get_json (contents_url owner repo name) = Failed (RequestException text) ->
           readme = (List.map (contents_url owner repo) (before ++ [name]),
                     "README not available (network error)")))
  /\ ((forall n, In n readme_names -> not_found n) ->
      (get_json (readme_url owner repo) = Failed (HTTPError 404)
       \/ (exists text, get_json (readme_url owner repo) = Failed (RequestException text))) ->
      readme = ((List.map (contents_url owner repo) readme_names ++ [readme_url owner repo])%list,
                "No README file found in this repository")).
Proof.
  split.
  - intros before name later Hnames Hbefore.
    unfold get_repository_readme. rewrite Hnames, (readme_loop_passes _ _ Hbefore).
    rewrite List.map_app. cbn [List.map readme_loop]. unfold try_name.
    split; [|split].
    + intros data content Hdata Hurl Htext. rewrite Hdata, Hurl, Htext. cbn [fst snd].
      now rewrite <- app_assoc.
    + intros status_code Hfail Hcode. rewrite Hfail. cbn [loop_handler].
      destruct (Z.eqb_spec status_code 404); [contradiction | reflexivity].
    + intros text Hfail. rewrite Hfail. reflexivity.
  - intros Hall Hend. unfold get_repository_readme.
    pose proof (readme_loop_passes readme_names [] Hall) as H.
    rewrite app_nil_r in H. rewrite H. cbn [readme_loop]. unfold try_endpoint.
    destruct Hend as [-> | [text ->]]; reflexivity.
Qed.

End ReadmeFacts.
